(** * NexusAI chat client: the stream consumer and the markdown renderer

    A shallow embedding of [src/frontend/src/app/page.tsx]:
    - JavaScript strings are sequences of UTF-16 code units;
    - the regular expressions of [formatMessage] are terms of a small
      regex language run by a backtracking matcher that follows the
      ECMAScript priorities (greedy and lazy quantifiers, captures,
      multiline anchors, global replace);
    - the React state touched by [sendMessage], [retryMessage] and
      [renameChat] is a record, and every [setX(prev => ...)] is a function
      on that record applied in program order; an exception thrown inside
      such a function is the result [None];
    - the handlers of the chat list, the theme and the clock of the page
      follow, over the same state. *)

From Stdlib Require Import String Ascii.
From Stdlib Require Import List NArith ZArith Arith Bool Lia.
Import ListNotations.

Set Implicit Arguments.

(** ** JavaScript strings *)

Module JS.

(** A UTF-16 code unit. *)
Definition char := N.

Definition jsstring := list char.

(** An ASCII literal as a JavaScript string. *)
Fixpoint str (s : string) : jsstring :=
  match s with
  | EmptyString => []
  | String a s' => N_of_ascii a :: str s'
  end.

(** The same, for the HTML literals of the source: [@] stands for the
    double quote (which none of them contains otherwise). *)
Definition html (s : string) : jsstring :=
  map (fun c => if N.eqb c 64 then 34%N else c) (str s).

Fixpoint eqs (a b : jsstring) : bool :=
  match a, b with
  | [], [] => true
  | x :: a', y :: b' => N.eqb x y && eqs a' b'
  | _, _ => false
  end.

(** [s.startsWith(p)] *)
Fixpoint startsWith (p s : jsstring) : bool :=
  match p, s with
  | [], _ => true
  | x :: p', y :: s' => N.eqb x y && startsWith p' s'
  | _ :: _, [] => false
  end.

(** [s.includes(w)] *)
Fixpoint includes (w s : jsstring) : bool :=
  startsWith w s ||
  match s with
  | [] => false
  | _ :: s' => includes w s'
  end.

(** WhiteSpace and LineTerminator code units: what [trim] strips and what
    [\s] matches. *)
Definition is_line_terminator (c : char) : bool :=
  N.eqb c 10 || N.eqb c 13 || N.eqb c 8232 || N.eqb c 8233.

Definition is_space (c : char) : bool :=
  N.eqb c 9 || N.eqb c 10 || N.eqb c 11 || N.eqb c 12 || N.eqb c 13 ||
  N.eqb c 32 || N.eqb c 160 || N.eqb c 5760 ||
  (N.leb 8192 c && N.leb c 8202) ||
  N.eqb c 8232 || N.eqb c 8233 || N.eqb c 8239 || N.eqb c 8287 ||
  N.eqb c 12288 || N.eqb c 65279.

Fixpoint trimStart (s : jsstring) : jsstring :=
  match s with
  | c :: s' => if is_space c then trimStart s' else s
  | [] => []
  end.

Definition trimEnd (s : jsstring) : jsstring := rev (trimStart (rev s)).

(** [s.trim()] *)
Definition trim (s : jsstring) : jsstring := trimEnd (trimStart s).

(** [s.split(sep)] for a separator of one code unit. *)
Fixpoint split_on (sep : char) (s : jsstring) : list jsstring :=
  match s with
  | [] => [[]]
  | c :: s' =>
      match split_on sep s' with
      | cur :: more =>
          if N.eqb c sep then [] :: cur :: more else (c :: cur) :: more
      | [] => [[c]]
      end
  end.

(** Decimal digits of a natural number, as in a template literal [${n}]. *)
Fixpoint digits_fuel (fuel n : nat) (acc : jsstring) : jsstring :=
  match fuel with
  | O => acc
  | S f =>
      let d := (48 + N.of_nat (n mod 10))%N in
      if n <? 10 then d :: acc else digits_fuel f (n / 10) (d :: acc)
  end.

Definition decimal (n : nat) : jsstring := digits_fuel (S n) n [].

End JS.

Import JS.

(** ** Regular expressions *)

Module Regex.

(** The fragment of ECMAScript patterns (without the [u], [i], [s] and [y]
    flags) that the source uses. [Bol]/[Eol] carry the [m] flag. *)
Inductive regex :=
| Eps
| Chr (p : char -> bool)
| Seq (a b : regex)
| Alt (a b : regex)
| Star (greedy : bool) (a : regex)
| Group (i : nat) (a : regex)
| Bol (multiline : bool)
| Eol (multiline : bool).

Definition captures := list (nat * jsstring).

Record mstate := MState {
  m_prev : option char;     (* the code unit before the current position *)
  m_rest : jsstring;        (* the input from the current position on *)
  m_caps : captures
}.

Definition at_bol (ml : bool) (st : mstate) : bool :=
  match m_prev st with
  | None => true
  | Some c => ml && is_line_terminator c
  end.

Definition at_eol (ml : bool) (st : mstate) : bool :=
  match m_rest st with
  | [] => true
  | c :: _ => ml && is_line_terminator c
  end.

(** The backtracking matcher, in continuation-passing style: [k] is the
    rest of the pattern. An iteration of a quantifier that consumes nothing
    is rejected, as in the specification of RepeatMatcher, so that at most
    [length (m_rest st)] iterations are ever useful. *)
Fixpoint rmatch (r : regex) (st : mstate) (k : mstate -> option mstate)
  {struct r} : option mstate :=
  match r with
  | Eps => k st
  | Chr p =>
      match m_rest st with
      | c :: rest =>
          if p c then k (MState (Some c) rest (m_caps st)) else None
      | [] => None
      end
  | Seq a b => rmatch a st (fun st' => rmatch b st' k)
  | Alt a b =>
      match rmatch a st k with
      | Some x => Some x
      | None => rmatch b st k
      end
  | Star greedy a =>
      (fix loop (fuel : nat) (st : mstate) {struct fuel} : option mstate :=
         match fuel with
         | O => k st
         | S f =>
             let iter :=
               rmatch a st (fun st' =>
                 if length (m_rest st') <? length (m_rest st)
                 then loop f st' else None) in
             if greedy then
               match iter with Some x => Some x | None => k st end
             else
               match k st with Some x => Some x | None => iter end
         end) (length (m_rest st)) st
  | Group i a =>
      rmatch a st (fun st' =>
        let n := length (m_rest st) - length (m_rest st') in
        k (MState (m_prev st') (m_rest st')
                  ((i, firstn n (m_rest st)) :: m_caps st')))
  | Bol ml => if at_bol ml st then k st else None
  | Eol ml => if at_eol ml st then k st else None
  end.

(** One match attempt at a position: the matched text and its captures. *)
Definition exec (r : regex) (prev : option char) (s : jsstring)
  : option (jsstring * captures) :=
  match rmatch r (MState prev s []) Some with
  | Some st => Some (firstn (length s - length (m_rest st)) s, m_caps st)
  | None => None
  end.

Fixpoint capture (i : nat) (caps : captures) : jsstring :=
  match caps with
  | [] => []
  | (j, v) :: caps' => if Nat.eqb i j then v else capture i caps'
  end.

(** What a global scan ([/.../g]) cuts the subject into: the code units no
    match covers, and the matches, leftmost first. *)
Inductive seg :=
| SChar (c : char)
| SMatch (whole : jsstring) (caps : captures).

Fixpoint scan (r : regex) (skip : nat) (prev : option char) (s : jsstring)
  : list seg :=
  match s with
  | [] =>
      match skip, exec r prev [] with
      | O, Some (w, caps) => [SMatch w caps]
      | _, _ => []
      end
  | c :: s' =>
      match skip with
      | S n => scan r n (Some c) s'
      | O =>
          match exec r prev s with
          | Some (w, caps) =>
              match length w with
              | O => SMatch w caps :: SChar c :: scan r 0 (Some c) s'
              | S n => SMatch w caps :: scan r n (Some c) s'
              end
          | None => SChar c :: scan r 0 (Some c) s'
          end
      end
  end.

Definition segments (r : regex) (s : jsstring) : list seg := scan r 0 None s.

(** A replacement pattern: literal text and [$n]. *)
Inductive titem :=
| TLit (s : jsstring)
| TGroup (i : nat).

Definition subst (t : list titem) (caps : captures) : jsstring :=
  flat_map (fun it => match it with
                      | TLit s => s
                      | TGroup i => capture i caps
                      end) t.

(** The segments put back together, each match replaced by [f]. *)
Definition render (f : jsstring -> captures -> jsstring) (segs : list seg)
  : jsstring :=
  flat_map (fun sg => match sg with
                      | SChar c => [c]
                      | SMatch w caps => f w caps
                      end) segs.

(** [s.replace(/r/g, f)] for a replacer function [f]. *)
Definition replace_fn (r : regex) (f : jsstring -> captures -> jsstring)
  (s : jsstring) : jsstring :=
  render f (segments r s).

(** [s.replace(/r/g, 'template')] *)
Definition replace_all (r : regex) (t : list titem) (s : jsstring) : jsstring :=
  replace_fn r (fun _ caps => subst t caps) s.

(** [/r/.test(s)], also the truth value of [s.match(/r/)]. *)
Fixpoint test_from (r : regex) (prev : option char) (s : jsstring) : bool :=
  match exec r prev s with
  | Some _ => true
  | None =>
      match s with
      | [] => false
      | c :: s' => test_from r (Some c) s'
      end
  end.

Definition test (r : regex) (s : jsstring) : bool := test_from r None s.

(** *** Pattern combinators *)

Definition one (c : char) : char -> bool := fun x => N.eqb x c.
Definition other_than (c : char) : char -> bool := fun x => negb (N.eqb x c).
Definition any : char -> bool := fun _ => true.
(** [.] *)
Definition dot : char -> bool := fun x => negb (is_line_terminator x).
(** [\d] *)
Definition digit : char -> bool := fun x => N.leb 48 x && N.leb x 57.
(** [\w] *)
Definition word : char -> bool :=
  fun x => (N.leb 97 x && N.leb x 122) || (N.leb 65 x && N.leb x 90) ||
           digit x || N.eqb x 95.

Fixpoint seqs (rs : list regex) : regex :=
  match rs with
  | [] => Eps
  | [r] => r
  | r :: rs' => Seq r (seqs rs')
  end.

(** A literal string. *)
Definition lit (s : string) : regex := seqs (map (fun c => Chr (one c)) (str s)).

Definition star (a : regex) : regex := Star true a.
Definition lazy_star (a : regex) : regex := Star false a.
Definition plus (a : regex) : regex := Seq a (Star true a).
Definition lazy_plus (a : regex) : regex := Seq a (Star false a).
Definition opt (a : regex) : regex := Alt a Eps.

End Regex.

Import Regex.

(** ** The markdown formatter ([formatMessage])

    The patterns of the source are quoted in the comments with a space
    between a star and a closing parenthesis. *)

Module Markdown.

Definition ch (a : ascii) : char := N_of_ascii a.
Definition nl : char := 10%N.
Definition cr : char := 13%N.

Definition hex_digit (n : N) : char :=
  if N.ltb n 10 then (48 + n)%N else (55 + n)%N.

(** [%XX] for one octet. *)
Definition percent (b : N) : jsstring :=
  [ch "%"; hex_digit (N.div b 16); hex_digit (N.modulo b 16)].

(** The UTF-8 octets of a code point. *)
Definition utf8 (v : N) : list N :=
  if N.ltb v 128 then [v]
  else if N.ltb v 2048 then
    [(192 + N.div v 64)%N; (128 + N.modulo v 64)%N]
  else if N.ltb v 65536 then
    [(224 + N.div v 4096)%N; (128 + N.modulo (N.div v 64) 64)%N;
     (128 + N.modulo v 64)%N]
  else
    [(240 + N.div v 262144)%N; (128 + N.modulo (N.div v 4096) 64)%N;
     (128 + N.modulo (N.div v 64) 64)%N; (128 + N.modulo v 64)%N].

(** The characters [encodeURIComponent] leaves alone:
    letters, digits and [- _ . ! ~ * ' ( )]. *)
Definition uri_unreserved (c : char) : bool :=
  (N.leb 97 c && N.leb c 122) || (N.leb 65 c && N.leb c 90) ||
  (N.leb 48 c && N.leb c 57) ||
  N.eqb c 45 || N.eqb c 95 || N.eqb c 46 || N.eqb c 33 || N.eqb c 126 ||
  N.eqb c 42 || N.eqb c 39 || N.eqb c 40 || N.eqb c 41.

Definition high_surrogate (c : char) : bool := N.leb 55296 c && N.leb c 56319.
Definition low_surrogate (c : char) : bool := N.leb 56320 c && N.leb c 57343.

(** [encodeURIComponent(s)]; [None] is the URIError thrown on a lone
    surrogate. [pending] is the high surrogate read just before. *)
Fixpoint encode_from (pending : option char) (s : jsstring) : option jsstring :=
  match pending, s with
  | None, [] => Some []
  | Some _, [] => None
  | None, c :: s' =>
      if uri_unreserved c then option_map (cons c) (encode_from None s')
      else if low_surrogate c then None
      else if high_surrogate c then encode_from (Some c) s'
      else option_map (app (flat_map percent (utf8 c))) (encode_from None s')
  | Some h, c :: s' =>
      if low_surrogate c then
        let v := ((h - 55296) * 1024 + (c - 56320) + 65536)%N in
        option_map (app (flat_map percent (utf8 v))) (encode_from None s')
      else None
  end.

Definition encodeURIComponent (s : jsstring) : option jsstring :=
  encode_from None s.

(** *** Stage 1: fenced code blocks *)

(** [/```(\w* )\n?([\s\S]*?)```/g] *)
Definition re_fence : regex :=
  seqs [lit "```"; Group 1 (star (Chr word)); opt (Chr (one nl));
        Group 2 (lazy_star (Chr any)); lit "```"].

Definition re_lt : regex := Chr (one (ch "<")).
Definition re_gt : regex := Chr (one (ch ">")).

(** [code.replace(/</g, '&lt;').replace(/>/g, '&gt;')] *)
Definition escape_angles (code : jsstring) : jsstring :=
  replace_all re_gt [TLit (str "&gt;")]
    (replace_all re_lt [TLit (str "&lt;")] code).

(** The template literal pushed on [codeBlocks]; the line breaks and the
    indentation are those of the source file. *)
Definition code_block (lang uri code : jsstring) : jsstring :=
  html "<div class=@code-block-wrapper@>" ++ [nl] ++
  html "                <div class=@code-header@>" ++ [nl] ++
  html "                    <span class=@code-lang@>" ++
  (match lang with [] => str "code" | _ => lang end) ++
  html "</span>" ++ [nl] ++
  html "                    <button class=@code-copy-btn@ onclick=@navigator.clipboard.writeText(decodeURIComponent('" ++
  uri ++
  html "'));this.textContent='Copied!'@>Copy</button>" ++ [nl] ++
  html "                </div>" ++ [nl] ++
  html "                <pre class=@code-block@><code>" ++
  escape_angles code ++
  html "</code></pre>" ++ [nl] ++
  html "            </div>".

Definition placeholder (index : nat) : jsstring :=
  str "__CODE_BLOCK_" ++ decimal index ++ str "__".

(** The replacer of the fence stage, run over the matches in order:
    [codeBlocks] grows, the text gets the placeholders. *)
Fixpoint extract_fences (segs : list seg) (codeBlocks : list jsstring)
  : option (list jsstring * jsstring) :=
  match segs with
  | [] => Some (codeBlocks, [])
  | SChar c :: segs' =>
      match extract_fences segs' codeBlocks with
      | Some (blocks, out) => Some (blocks, c :: out)
      | None => None
      end
  | SMatch _ caps :: segs' =>
      let lang := capture 1 caps in
      let code := capture 2 caps in
      let index := length codeBlocks in
      match encodeURIComponent (trim code) with
      | None => None
      | Some uri =>
          match extract_fences segs' (codeBlocks ++ [code_block lang uri code]) with
          | Some (blocks, out) => Some (blocks, placeholder index ++ out)
          | None => None
          end
      end
  end.

(** *** Stage 2: [/\n{3,}/g] *)
Definition re_blank_lines : regex :=
  seqs [Chr (one nl); Chr (one nl); Chr (one nl); star (Chr (one nl))].

(** *** Stage 3: tables *)

(** [/(\|.+\|[\r\n]+)+/g] *)
Definition tableRegex : regex :=
  plus (Group 1 (seqs [Chr (one (ch "|")); plus (Chr dot); Chr (one (ch "|"));
                       plus (Chr (fun c => N.eqb c cr || N.eqb c nl))])).

(** [/^\|[-:\s|]+\|$/] *)
Definition re_separator : regex :=
  seqs [Bol false; Chr (one (ch "|"));
        plus (Chr (fun c => N.eqb c (ch "-") || N.eqb c (ch ":") ||
                            is_space c || N.eqb c (ch "|")));
        Chr (one (ch "|")); Eol false].

Definition row_cells (line : jsstring) : list jsstring :=
  filter (fun c => negb (eqs (trim c) [])) (split_on (ch "|") line).

(** The body of [for (const line of lines)], on [(html, isHeader)]. *)
Definition table_row (acc : jsstring * bool) (line : jsstring) : jsstring * bool :=
  let (html_, isHeader) := acc in
  if test re_separator (trim line) then acc
  else
    match row_cells line with
    | [] => acc
    | cells =>
        let tag := if isHeader then str "th" else str "td" in
        let rowHtml :=
          flat_map (fun c => str "<" ++ tag ++ str ">" ++ trim c ++
                             str "</" ++ tag ++ str ">") cells in
        (html_ ++ str "<tr>" ++ rowHtml ++ str "</tr>", false)
    end.

Definition render_table (match_ : jsstring) (_ : captures) : jsstring :=
  let lines := split_on nl (trim match_) in
  if length lines <? 2 then match_
  else fst (fold_left table_row lines (html "<table class=@msg-table@>", true))
       ++ str "</table>".

(** *** Stage 4: inline and block markup *)

Definition line_of (prefix : list regex) : regex :=
  seqs ([Bol true] ++ prefix ++ [Group 1 (star (Chr dot)); Eol true]).

(** [/`([^`]+)`/g] *)
Definition re_inline_code : regex :=
  seqs [lit "`"; Group 1 (plus (Chr (other_than (ch "`")))); lit "`"].
(** [/^> (.* )$/gm] *)
Definition re_quote : regex := line_of [lit "> "].
(** [/^### (.* )$/gm], [/^## (.* )$/gm], [/^# (.* )$/gm] *)
Definition re_h3 : regex := line_of [lit "### "].
Definition re_h2 : regex := line_of [lit "## "].
Definition re_h1 : regex := line_of [lit "# "].
(** [/\*\*(.+?)\*\*/g] *)
Definition re_bold : regex :=
  seqs [lit "**"; Group 1 (lazy_plus (Chr dot)); lit "**"].
(** [/\*(.+?)\*/g] *)
Definition re_em : regex :=
  seqs [lit "*"; Group 1 (lazy_plus (Chr dot)); lit "*"].
(** [/^---$/gm] *)
Definition re_rule : regex := seqs [Bol true; lit "---"; Eol true].
(** [/^- (.* )$/gm] *)
Definition re_item : regex := line_of [lit "- "].
(** [/^\d+\. (.* )$/gm] *)
Definition re_numbered : regex := line_of [plus (Chr digit); lit ". "].
(** [/\[([^\]]+)\]\(([^)]+)\)/g] *)
Definition re_link : regex :=
  seqs [lit "["; Group 1 (plus (Chr (other_than (ch "]")))); lit "](";
        Group 2 (plus (Chr (other_than (ch ")")))); lit ")"].

Definition wrap_in (open close : string) : list titem :=
  [TLit (html open); TGroup 1; TLit (html close)].

Definition inline_markup (s : jsstring) : jsstring :=
  let s := replace_all re_inline_code
             (wrap_in "<code class=@inline-code@>" "</code>") s in
  let s := replace_all re_quote (wrap_in "<blockquote>" "</blockquote>") s in
  let s := replace_all re_h3 (wrap_in "<h3>" "</h3>") s in
  let s := replace_all re_h2 (wrap_in "<h2>" "</h2>") s in
  let s := replace_all re_h1 (wrap_in "<h1>" "</h1>") s in
  let s := replace_all re_bold (wrap_in "<strong>" "</strong>") s in
  let s := replace_all re_em (wrap_in "<em>" "</em>") s in
  let s := replace_all re_rule [TLit (str "<hr />")] s in
  let s := replace_all re_item (wrap_in "<li>" "</li>") s in
  let s := replace_all re_numbered
             (wrap_in "<li class=@numbered@>" "</li>") s in
  replace_all re_link
    [TLit (html "<a href=@"); TGroup 2;
     TLit (html "@ target=@_blank@ rel=@noopener@>"); TGroup 1;
     TLit (str "</a>")] s.

(** *** Stage 5: paragraphs and line breaks *)

(** [/\n\n+/g] *)
Definition re_paragraph : regex := seqs [Chr (one nl); plus (Chr (one nl))].
(** [/(<\/h[123]>)<br>/g] and its siblings *)
Definition before_br (r : regex) : regex := seqs [Group 1 r; lit "<br>"].
Definition re_heading_end : regex :=
  seqs [lit "</h";
        Chr (fun c => N.eqb c (ch "1") || N.eqb c (ch "2") || N.eqb c (ch "3"));
        lit ">"].

Definition paragraphs (s : jsstring) : jsstring :=
  let s := replace_all re_paragraph [TLit (str "</p><p>")] s in
  let s := replace_all (before_br re_heading_end) [TGroup 1] s in
  let s := replace_all (before_br (lit "<hr />")) [TGroup 1] s in
  let s := replace_all (before_br (lit "</table>")) [TGroup 1] s in
  let s := replace_all (before_br (lit "</ul>")) [TGroup 1] s in
  let s := replace_all (before_br (lit "</blockquote>")) [TGroup 1] s in
  replace_all (Chr (one nl)) [TLit (str "<br>")] s.

(** *** Stage 6: the enclosing paragraph *)
Definition wrap (s : jsstring) : jsstring :=
  if negb (startsWith (str "<h") s) && negb (startsWith (str "<table") s) &&
     negb (startsWith (str "<ul") s) && negb (startsWith (str "<div") s)
  then str "<p>" ++ s ++ str "</p>"
  else s.

(** *** Stage 7: clean-up *)
Definition cleanup (s : jsstring) : jsstring :=
  let s := replace_all (lit "<p></p>") [] s in
  let s := replace_all (lit "<p><br></p>") [] s in
  let s := replace_all (lit "<br><br>") [TLit (str "<br>")] s in
  let s := replace_all (lit "<p><br>") [TLit (str "<p>")] s in
  replace_all (lit "<br></p>") [TLit (str "</p>")] s.

(** *** Stage 8: lists *)

(** [/(<li>.*?<\/li>(<br>)?)+/g] *)
Definition re_items : regex :=
  plus (Group 1 (seqs [lit "<li>"; lazy_star (Chr dot); lit "</li>";
                       opt (Group 2 (lit "<br>"))])).

Definition wrap_lists (s : jsstring) : jsstring :=
  replace_fn re_items
    (fun match_ _ => str "<ul>" ++ replace_all (lit "<br>") [] match_ ++ str "</ul>")
    s.

(** *** Stage 9: the code blocks come back *)

(** GetSubstitution for a string pattern (no captures): [$$], [$&],
    [$`] and [$'] are interpreted, everything else is literal. *)
Fixpoint get_substitution (matched before after repl : jsstring) : jsstring :=
  match repl with
  | [] => []
  | c :: repl' =>
      if N.eqb c (ch "$") then
        match repl' with
        | d :: repl'' =>
            if N.eqb d (ch "$") then
              ch "$" :: get_substitution matched before after repl''
            else if N.eqb d (ch "&") then
              matched ++ get_substitution matched before after repl''
            else if N.eqb d (ch "`") then
              before ++ get_substitution matched before after repl''
            else if N.eqb d (ch "'") then
              after ++ get_substitution matched before after repl''
            else c :: get_substitution matched before after repl'
        | [] => [c]
        end
      else c :: get_substitution matched before after repl'
  end.

(** [s.replace(pat, repl)] for a string [pat]: the first occurrence only. *)
Fixpoint replace_first (pat repl : jsstring) (before s : jsstring) : jsstring :=
  if startsWith pat s then
    rev before ++ get_substitution pat (rev before) (skipn (length pat) s) repl
               ++ skipn (length pat) s
  else
    match s with
    | [] => rev before
    | c :: s' => replace_first pat repl (c :: before) s'
    end.

Definition String_replace (s pat repl : jsstring) : jsstring :=
  replace_first pat repl [] s.

(** [codeBlocks.forEach((block, index) => ...)] *)
Fixpoint restore (codeBlocks : list jsstring) (index : nat) (processed : jsstring)
  : jsstring :=
  match codeBlocks with
  | [] => processed
  | block :: more =>
      restore more (S index) (String_replace processed (placeholder index) block)
  end.

(** *** The formatter *)
Definition formatMessage (content : jsstring) : option jsstring :=
  match extract_fences (segments re_fence content) [] with
  | None => None
  | Some (codeBlocks, processed) =>
      let processed := replace_all re_blank_lines [TLit [nl; nl]] processed in
      let processed := replace_fn tableRegex render_table processed in
      let processed := inline_markup processed in
      let processed := paragraphs processed in
      let processed := wrap processed in
      let processed := cleanup processed in
      let processed := wrap_lists processed in
      Some (restore codeBlocks 0 processed)
  end.

(** Lines joined by line feeds, to write test subjects. *)
Fixpoint lines (ls : list string) : jsstring :=
  match ls with
  | [] => []
  | [l] => str l
  | l :: ls' => str l ++ [nl] ++ lines ls'
  end.

End Markdown.

Import Markdown.

(** ** The chat client: state, stream consumer, retry, rename *)

Inductive Role := user | assistant.

Module Message.
Record t := Build {
  id : jsstring;
  role : Role;
  content : jsstring;
  timestamp : jsstring;
  isStreaming : option bool       (* [isStreaming?: boolean] *)
}.
End Message.

Module Chat.
Record t := Build {
  id : jsstring;
  title : jsstring;
  messages : list Message.t;
  starred : bool;
  created : jsstring;
  lastMessage : option jsstring;
  selected : option bool
}.
End Chat.

(** JSON values, as [JSON.parse] returns them. Numbers stay abstract: the
    consumer only tests their truthiness and appends them to a string. *)
#[warnings="-register-all"]
Inductive JSValue (Num : Type) :=
| JNull
| JBool (b : bool)
| JNum (n : Num)
| JStr (s : jsstring)
| JArr (items : list (JSValue Num))
| JObj (fields : list (jsstring * JSValue Num)).

Arguments JNull {Num}.
Arguments JBool {Num} b.
Arguments JStr {Num} s.

Module Client.

(** The React state the three handlers read and write. *)
Record Store := MkStore {
  messages : list Message.t;
  input : jsstring;
  isLoading : bool;
  toolStatus : option jsstring;
  chats : list Chat.t;
  currentChatId : option jsstring;
  imagePreview : option jsstring;
  imageFile : option jsstring;
  renamingChatId : option jsstring;
  renameValue : jsstring;
  sessionId : jsstring;
  currentModel : jsstring
}.

Definition setMessages (f : list Message.t -> list Message.t) (st : Store) : Store :=
  MkStore (f (messages st)) (input st) (isLoading st) (toolStatus st) (chats st)
          (currentChatId st) (imagePreview st) (imageFile st)
          (renamingChatId st) (renameValue st) (sessionId st) (currentModel st).

Definition setInput (v : jsstring) (st : Store) : Store :=
  MkStore (messages st) v (isLoading st) (toolStatus st) (chats st)
          (currentChatId st) (imagePreview st) (imageFile st)
          (renamingChatId st) (renameValue st) (sessionId st) (currentModel st).

Definition setIsLoading (v : bool) (st : Store) : Store :=
  MkStore (messages st) (input st) v (toolStatus st) (chats st)
          (currentChatId st) (imagePreview st) (imageFile st)
          (renamingChatId st) (renameValue st) (sessionId st) (currentModel st).

Definition setToolStatus (v : option jsstring) (st : Store) : Store :=
  MkStore (messages st) (input st) (isLoading st) v (chats st)
          (currentChatId st) (imagePreview st) (imageFile st)
          (renamingChatId st) (renameValue st) (sessionId st) (currentModel st).

Definition setChats (f : list Chat.t -> list Chat.t) (st : Store) : Store :=
  MkStore (messages st) (input st) (isLoading st) (toolStatus st) (f (chats st))
          (currentChatId st) (imagePreview st) (imageFile st)
          (renamingChatId st) (renameValue st) (sessionId st) (currentModel st).

Definition setCurrentChatId (v : option jsstring) (st : Store) : Store :=
  MkStore (messages st) (input st) (isLoading st) (toolStatus st) (chats st)
          v (imagePreview st) (imageFile st)
          (renamingChatId st) (renameValue st) (sessionId st) (currentModel st).

Definition setRenaming (id : option jsstring) (v : jsstring) (st : Store) : Store :=
  MkStore (messages st) (input st) (isLoading st) (toolStatus st) (chats st)
          (currentChatId st) (imagePreview st) (imageFile st)
          id v (sessionId st) (currentModel st).

(** [removeImage] (the file input of the page is not part of the state). *)
Definition removeImage (st : Store) : Store :=
  MkStore (messages st) (input st) (isLoading st) (toolStatus st) (chats st)
          (currentChatId st) None None
          (renamingChatId st) (renameValue st) (sessionId st) (currentModel st).

(** Truthiness of a string or of a nullable string. *)
Definition nonempty (s : jsstring) : bool :=
  match s with [] => false | _ => true end.

Definition truthy_opt (s : option jsstring) : bool :=
  match s with Some s => nonempty s | None => false end.

(** *** renameChat *)

Definition with_title (chat : Chat.t) (t : jsstring) : Chat.t :=
  Chat.Build (Chat.id chat) t (Chat.messages chat) (Chat.starred chat)
             (Chat.created chat) (Chat.lastMessage chat) (Chat.selected chat).

Definition renameChat (chatId newTitle : jsstring) (st : Store) : Store :=
  let st :=
    if nonempty (trim newTitle) then
      setChats (map (fun chat =>
                  if eqs (Chat.id chat) chatId
                  then with_title chat (trim newTitle) else chat)) st
    else st in
  setRenaming None [] st.

(** *** Updating the last message *)

Definition with_content (m : Message.t) (c : jsstring) : Message.t :=
  Message.Build (Message.id m) (Message.role m) c (Message.timestamp m)
                (Message.isStreaming m).

Definition with_streaming (m : Message.t) (b : bool) : Message.t :=
  Message.Build (Message.id m) (Message.role m) (Message.content m)
                (Message.timestamp m) (Some b).

(** [updated[updated.length - 1] = f(updated[updated.length - 1])] on a
    copy of a non-empty array. *)
Fixpoint update_last (f : Message.t -> Message.t) (l : list Message.t)
  : list Message.t :=
  match l with
  | [] => []
  | [m] => [f m]
  | m :: l' => m :: update_last f l'
  end.

(** The chunk updater reads [.content] of the last element: on an empty
    array that is a TypeError inside React's update ([None]). *)
Definition append_chunk (chunk : jsstring) (prev : list Message.t)
  : option (list Message.t) :=
  match prev with
  | [] => None
  | _ => Some (update_last
                 (fun m => with_content m (Message.content m ++ chunk)) prev)
  end.

(** The updaters that only spread the last element: on an empty array the
    assignment goes to index -1 and the array stays empty. *)
Definition stop_streaming (prev : list Message.t) : list Message.t :=
  update_last (fun m => with_streaming m false) prev.

(** ['\u274C Sorry, I encountered an error. Please try again.'] *)
Definition apology : jsstring :=
  10060%N :: str " Sorry, I encountered an error. Please try again.".

Definition fail_last (prev : list Message.t) : list Message.t :=
  update_last (fun m => with_streaming (with_content m apology) false) prev.

Section Consumer.

Variable Num : Type.
Variable num_truthy : Num -> bool.
Variable num_to_string : Num -> jsstring.
(** [JSON.parse]; [None] is a SyntaxError. *)
Variable JSON_parse : jsstring -> option (JSValue Num).

Definition truthy (v : option (JSValue Num)) : bool :=
  match v with
  | None => false                       (* undefined *)
  | Some JNull => false
  | Some (JBool b) => b
  | Some (JNum n) => num_truthy n
  | Some (JStr s) => nonempty s
  | Some (JArr _) => true
  | Some (JObj _) => true
  end.

Fixpoint join_with (sep : jsstring) (l : list jsstring) : jsstring :=
  match l with
  | [] => []
  | [x] => x
  | x :: l' => x ++ sep ++ join_with sep l'
  end.

Fixpoint lookup (key : jsstring) (fields : list (jsstring * JSValue Num)) : option (JSValue Num) :=
  match fields with
  | [] => None
  | (k, v) :: fields' => if eqs k key then Some v else lookup key fields'
  end.

(** What [content + v] appends. An object is converted by its [valueOf],
    then by its [toString]. A parsed object has no callable property of its
    own, so with a key [toString] of its own it cannot be converted and the
    addition throws a TypeError ([None]); without one
    [Object.prototype.toString] answers. An array is joined with commas, its
    [null] elements as empty strings, the other ones converted in turn. *)
Fixpoint to_string (v : JSValue Num) : option jsstring :=
  match v with
  | JNull => Some (str "null")
  | JBool true => Some (str "true")
  | JBool false => Some (str "false")
  | JNum n => Some (num_to_string n)
  | JStr s => Some s
  | JArr items =>
      option_map (join_with (str ","))
        ((fix elements (l : list (JSValue Num)) : option (list jsstring) :=
            match l with
            | [] => Some []
            | x :: l' =>
                match match x with JNull => Some [] | _ => to_string x end with
                | Some s => option_map (cons s) (elements l')
                | None => None
                end
            end) items)
  | JObj fields =>
      match lookup (str "toString") fields with
      | Some _ => None
      | None => Some (str "[object Object]")
      end
  end.

(** [data.key] for a parsed value other than [null]. *)
Definition prop (data : JSValue Num) (key : string) : option (JSValue Num) :=
  match data with
  | JObj fields => lookup (str key) fields
  | _ => None
  end.

(** The three [if]s run for one parsed frame. [data.chunk] on [null]
    throws, and the [catch] around the frame drops it. The addition
    [content + data.chunk] is evaluated inside the updater, where nothing
    catches what it throws. *)
Definition on_frame (data : JSValue Num) (st : Store) : option Store :=
  match data with
  | JNull => Some st
  | _ =>
      let after_chunk :=
        match prop data "chunk" with
        | Some c =>
            if truthy (Some c) then
              match to_string c with
              | Some text =>
                  match append_chunk text (messages st) with
                  | Some msgs => Some (setMessages (fun _ => msgs) st)
                  | None => None
                  end
              | None => None
              end
            else Some st
        | None => Some st
        end in
      match after_chunk with
      | None => None
      | Some st =>
          let st := if truthy (prop data "search_used")
                    then setToolStatus (Some (str "Searching the web...")) st
                    else st in
          Some (if truthy (prop data "done")
                then setMessages stop_streaming st else st)
      end
  end.

(** The body of [for (const line of lines)]. *)
Definition on_line (st : option Store) (line : jsstring) : option Store :=
  match st with
  | None => None
  | Some st =>
      if startsWith (str "data: ") line then
        match JSON_parse (skipn 6 line) with
        | Some data => on_frame data st
        | None => Some st
        end
      else Some st
  end.

(** One turn of [while (true)]: a decoded chunk, split in lines. *)
Definition on_chunk (st : option Store) (chunk : jsstring) : option Store :=
  fold_left on_line (split_on nl chunk) st.

(** What [generateId()] and [new Date()] return during one call. *)
Record Fresh := MkFresh {
  chat_id : jsstring;
  user_id : jsstring;
  assistant_id : jsstring;
  created_at : jsstring;
  user_time : jsstring;
  assistant_time : jsstring
}.

(** How the request goes: [fetch] rejects, the status is not a success,
    there is no body, or the body is read chunk by chunk until the reader
    reports the end or fails. The chunks are the decoded texts. *)
Inductive StreamEnd := EndOfStream | ReadFailed.

Inductive Response :=
| FetchRejected
| NotOk
| NoBody
| Body (chunks : list jsstring) (ending : StreamEnd).

(** Where the [try] block ends. *)
Inductive Completion := Normal (st : Store) | Thrown (st : Store).

(** The [try] block: the request, the read loop, [removeImage()]. *)
Definition request (resp : Response) (st : Store) : option Completion :=
  match resp with
  | FetchRejected => Some (Thrown st)
  | NotOk => Some (Thrown st)
  | NoBody => Some (Normal (removeImage st))
  | Body chunks ending =>
      match fold_left on_chunk chunks (Some st) with
      | None => None
      | Some st =>
          match ending with
          | EndOfStream => Some (Normal (removeImage st))
          | ReadFailed => Some (Thrown st)
          end
      end
  end.

(** How the promise of an [async] function settles. *)
Inductive Settled := Resolved | Rejected.

Definition new_chat (f : Fresh) (text : jsstring) : Chat.t :=
  Chat.Build (chat_id f)
             (match firstn 40 text with [] => str "New Chat" | t => t end)
             [] false (created_at f) None None.

Definition retitle (id : option jsstring) (text : jsstring) (chat : Chat.t) : Chat.t :=
  match id with
  | Some id => if eqs (Chat.id chat) id then with_title chat (firstn 40 text) else chat
  | None => chat
  end.

(** [overrideInput || input.trim()] *)
Definition prompt_text (snap : Store) (overrideInput : option jsstring) : jsstring :=
  match overrideInput with
  | Some t => if nonempty t then t else trim (input snap)
  | None => trim (input snap)
  end.

(** [imageFile] is a [File] or [null]. *)
Definition has_image (snap : Store) : bool :=
  match imageFile snap with Some _ => true | None => false end.

(** [sendMessage(overrideInput)]. [snap] is the state of the render whose
    closure is called (what [input], [imageFile], [isLoading], [messages]
    and [currentChatId] mean in the body); [st] is the state the updates
    apply to. The result is the state once the promise has settled, and
    how it settled; [None] is an exception inside a state updater. *)
Definition sendMessage (snap : Store) (overrideInput : option jsstring)
  (f : Fresh) (resp : Response) (st : Store) : option (Store * Settled) :=
  let text := prompt_text snap overrideInput in
  if negb (nonempty text) && negb (has_image snap) then Some (st, Resolved)
  else if isLoading snap then Some (st, Resolved)
  else
    let st :=
      if negb (truthy_opt (currentChatId snap)) then
        setCurrentChatId (Some (chat_id f))
          (setChats (cons (new_chat f text)) st)
      else st in
    let userMessage := Message.Build (user_id f) user text (user_time f) None in
    let assistantMessage :=
      Message.Build (assistant_id f) assistant [] (assistant_time f) (Some true) in
    let st := setMessages (fun prev => prev ++ [userMessage; assistantMessage]) st in
    let st := setInput [] st in
    let st := setIsLoading true st in
    let st :=
      if (length (messages snap) =? 0) && truthy_opt (currentChatId snap)
      then setChats (map (retitle (currentChatId snap) text)) st
      else st in
    match request resp st with
    | None => None
    | Some completion =>
        let caught :=
          match completion with
          | Normal st => st
          | Thrown st => setMessages fail_last st
          end in
        Some (setToolStatus None (setIsLoading false caught), Resolved)
    end.

(** [retryMessage(messageIndex)]: the new state and, when the message
    before the index is a user message, the text the timer will send. *)
Definition retryMessage (snap : Store) (messageIndex : nat) (st : Store)
  : Store * option jsstring :=
  match messageIndex with
  | O => (st, None)
  | S before =>
      match nth_error (messages snap) before with
      | Some userMessage =>
          match Message.role userMessage with
          | user =>
              (setMessages (fun _ => firstn before (messages snap)) st,
               Some (Message.content userMessage))
          | assistant => (st, None)
          end
      | None => (st, None)
      end
  end.

(** The timer of [retryMessage] fires: [sendMessage(userMessage.content)]
    of the render that was clicked. *)
Definition retry_fires (snap : Store) (text : jsstring)
  (f : Fresh) (resp : Response) (st : Store) : option (Store * Settled) :=
  sendMessage snap (Some text) f resp st.

(** The state of the page while [sendMessage] awaits the next read: the
    updates made before the request, then those of the chunks read so far.
    [None]: the call returned before the request, or an updater threw. *)
Definition awaiting_read (snap : Store) (overrideInput : option jsstring)
  (f : Fresh) (chunks : list jsstring) (st : Store) : option Store :=
  let text := prompt_text snap overrideInput in
  if negb (nonempty text) && negb (has_image snap) then None
  else if isLoading snap then None
  else
    let st :=
      if negb (truthy_opt (currentChatId snap)) then
        setCurrentChatId (Some (chat_id f))
          (setChats (cons (new_chat f text)) st)
      else st in
    let userMessage := Message.Build (user_id f) user text (user_time f) None in
    let assistantMessage :=
      Message.Build (assistant_id f) assistant [] (assistant_time f) (Some true) in
    let st := setMessages (fun prev => prev ++ [userMessage; assistantMessage]) st in
    let st := setInput [] st in
    let st := setIsLoading true st in
    let st :=
      if (length (messages snap) =? 0) && truthy_opt (currentChatId snap)
      then setChats (map (retitle (currentChatId snap) text)) st
      else st in
    fold_left on_chunk chunks (Some st).

End Consumer.

End Client.

Import Client.

(** ** What a pattern can match: the analysis the proofs use *)

Module Analysis.

(** A pattern of characters, assertions and groups only. *)
Fixpoint fixed (r : regex) : bool :=
  match r with
  | Eps => true
  | Chr _ => true
  | Seq a b => fixed a && fixed b
  | Group _ a => fixed a
  | Bol _ => true
  | Eol _ => true
  | _ => false
  end.

(** The classes every match must start with, in order. *)
Fixpoint lead (r : regex) : list (char -> bool) :=
  match r with
  | Chr p => [p]
  | Seq a b => lead a ++ (if fixed a then lead b else [])
  | Group _ a => lead a
  | _ => []
  end.

Fixpoint matches (ps : list (char -> bool)) (s : jsstring) : bool :=
  match ps, s with
  | [], _ => true
  | p :: ps', c :: s' => p c && matches ps' s'
  | _ :: _, [] => false
  end.

(** A pattern that needs a character outside the alphabet [A]. *)
Inductive dead (A : char -> Prop) : regex -> Prop :=
| dead_chr p : (forall c, A c -> p c = false) -> dead A (Chr p)
| dead_seq_l a b : dead A a -> dead A (Seq a b)
| dead_seq_r a b : dead A b -> dead A (Seq a b)
| dead_alt a b : dead A a -> dead A b -> dead A (Alt a b)
| dead_group i a : dead A a -> dead A (Group i a).

Definition suffix (u s : jsstring) : Prop := exists pre, s = pre ++ u.

(** Where a scan can stop in [s]: at the code unit [t], and only when [G]
    holds of what follows it (in [s] and then [tail]). *)
Inductive shaped (t : char) (G : jsstring -> Prop) (tail : jsstring)
  : jsstring -> Prop :=
| shaped_nil : shaped t G tail []
| shaped_skip c s : c <> t -> shaped t G tail s -> shaped t G tail (c :: s)
| shaped_hit s : G (s ++ tail) -> shaped t G tail s -> shaped t G tail (t :: s).

Definition last_of (prev : option char) (s : jsstring) : option char :=
  fold_left (fun _ c => Some c) s prev.

End Analysis.

Import Analysis.

(** ** Plain text and its rendering *)

Module Text.

(** The code units some stage of the formatter reacts to:
    backquote, bar, angle brackets, hash, star, hyphen, full stop, opening
    square bracket, line feed. *)
Definition specials : list char :=
  [ch "`"; ch "|"; ch "<"; ch ">"; ch "#"; ch "*"; ch "-"; ch "."; ch "["; nl].

Definition plain (c : char) : bool := negb (existsb (N.eqb c) specials).

(** Plain text: no code unit of [specials]. *)
Definition plain_text (s : jsstring) : bool := forallb plain s.

Definition avoids (bad : list char) (c : char) : Prop := ~ In c bad.

(** The markers of stage 4. *)
Definition markers : list char :=
  [ch "`"; ch ">"; ch "#"; ch "*"; ch "-"; ch "."; ch "["].

(** [specials] without the line feed. *)
Definition marks : list char :=
  [ch "`"; ch "|"; ch "<"; ch ">"; ch "#"; ch "*"; ch "-"; ch "."; ch "["].

Fixpoint join (sep : jsstring) (ps : list jsstring) : jsstring :=
  match ps with
  | [] => []
  | [p] => p
  | p :: ps' => p ++ sep ++ join sep ps'
  end.

(** A paragraph of plain text. *)
Definition paragraph (p : jsstring) : bool :=
  match p with [] => false | _ => plain_text p end.

(** How the formatter shows plain paragraphs. *)
Definition blocks (ps : list jsstring) : jsstring :=
  flat_map (fun p => str "<p>" ++ p ++ str "</p>") ps.

(** What follows a [<] in a text of paragraphs. *)
Definition opens (v : jsstring) : Prop :=
  exists c w, v = ch "p" :: ch ">" :: c :: w /\ c <> ch "<".
Definition closes (v : jsstring) : Prop :=
  exists w, v = ch "/" :: ch "p" :: ch ">" :: w.
Definition reopens (v : jsstring) : Prop :=
  exists w, v = ch "p" :: ch ">" :: w.

Definition closing (trail : jsstring) : jsstring :=
  match trail with [] => [] | _ => str "</p><p>" end.

Definition leftover (trail : jsstring) : jsstring :=
  match trail with [] => [] | _ => str "<p></p>" end.

End Text.

Import Text.

(** ** What the specification says of the formatter *)

Module Rendering.

(** The tags [formatMessage] writes for a text without fence and table.
    All start with [<]; the anchor is the one with a variable part. *)
Definition emitted : list jsstring :=
  map html
    ["<code class=@inline-code@>"; "</code>"; "<blockquote>"; "</blockquote>";
     "<h3>"; "</h3>"; "<h2>"; "</h2>"; "<h1>"; "</h1>";
     "<strong>"; "</strong>"; "<em>"; "</em>"; "<hr />";
     "<li>"; "</li>"; "<li class=@numbered@>"; "</a>";
     "<br>"; "<p>"; "</p>"; "<ul>"; "</ul>"]%string.

Definition anchor_open : jsstring := html "<a href=@".
Definition anchor_rest : jsstring := html "@ target=@_blank@ rel=@noopener@>".

(** The length up to the end of the first [anchor_rest]. *)
Fixpoint anchor_end (s : jsstring) : option nat :=
  if startsWith anchor_rest s then Some (length anchor_rest)
  else match s with
       | [] => None
       | _ :: s' => option_map S (anchor_end s')
       end.

Fixpoint literal_tag (tags : list jsstring) (s : jsstring) : option nat :=
  match tags with
  | [] => None
  | t :: tags' => if startsWith t s then Some (length t) else literal_tag tags' s
  end.

(** The length of the emitted tag [s] starts with, if any. *)
Definition tag_at (s : jsstring) : option nat :=
  match s with
  | c :: _ =>
      if N.eqb c (ch "<") then
        match literal_tag emitted s with
        | Some n => Some n
        | None =>
            if startsWith anchor_open s then
              option_map (Nat.add (length anchor_open))
                         (anchor_end (skipn (length anchor_open) s))
            else None
        end
      else None
  | [] => None
  end.

(** The output without the emitted tags. *)
Fixpoint outside_tags (skip : nat) (s : jsstring) : jsstring :=
  match s with
  | [] => []
  | c :: s' =>
      match skip with
      | S n => outside_tags n s'
      | O =>
          match tag_at s with
          | Some (S n) => outside_tags n s'
          | _ => c :: outside_tags 0 s'
          end
      end
  end.

Definition angle (c : char) : bool := N.eqb c (ch "<") || N.eqb c (ch ">").

(** No [<] and no [>] but those of emitted tags. *)
Definition raw_angle_free (out : jsstring) : bool :=
  forallb (fun c => negb (angle c)) (outside_tags 0 out).

(** The output starts with a block-level tag. *)
Definition block_wrapped (out : jsstring) : bool :=
  existsb (fun t => startsWith t out)
    (map html ["<p>"; "<h1>"; "<h2>"; "<h3>"; "<ul>"; "<blockquote>";
               "<hr />"; "<table class=@msg-table@>";
               "<div class=@code-block-wrapper@>"]%string).

(** What the specification asks of the rendering of [x]. *)
Definition sanitized_and_wrapped (x : jsstring) : Prop :=
  forall out, formatMessage x = Some out ->
    raw_angle_free out = true /\
    (x <> [] -> out <> [] /\ block_wrapped out = true).

Definition at_paragraph_boundary (P : jsstring) : Prop :=
  exists P0, P = P0 ++ [nl; nl].

(** A block-level element: an opening tag, a body without the closing
    tag, the closing tag. *)
Definition block_element (e : jsstring) : Prop :=
  exists tag body,
    In tag ["p"; "h1"; "h2"; "h3"; "ul"; "blockquote"]%string /\
    e = str "<" ++ str tag ++ str ">" ++ body ++ str "</" ++ str tag ++ str ">" /\
    includes (str "</" ++ str tag ++ str ">") body = false.

(** Growing the text keeps the blocks of a prefix that ends at a
    paragraph boundary. *)
Definition stable_under_growth : Prop :=
  forall P R outP outS e,
    at_paragraph_boundary P ->
    formatMessage P = Some outP ->
    formatMessage (P ++ R) = Some outS ->
    block_element e ->
    includes e outP = true ->
    includes e outS = true.

End Rendering.

Import Rendering.

(** ** What the specification says of the conversation *)

Module Conversation.

Definition streaming (m : Message.t) : bool :=
  match Message.isStreaming m with Some true => true | _ => false end.

(** At most one message is streaming, and it is the last one. *)
Definition streaming_invariant (msgs : list Message.t) : Prop :=
  forall i m, nth_error msgs i = Some m -> streaming m = true ->
              S i = length msgs.

(** A title of white space only (or empty). *)
Definition blank (s : jsstring) : bool := forallb is_space s.

Definition initial (sid model : jsstring) : Store :=
  MkStore [] [] false None [] None None None None [] sid model.

Definition quiet (msgs : list Message.t) : bool :=
  forallb (fun m => negb (streaming m)) msgs.

End Conversation.

Import Conversation.

(** ** A parser, a store and a response to run the model on *)

Module Demo.

(** A [JSON.parse] that knows the three payloads of the scenario and takes
    anything else for a syntax error; numbers are naturals. *)
Definition demo_parse (s : jsstring) : option (JSValue N) :=
  if eqs s (html "{@chunk@:@He@}") then Some (JObj [(str "chunk", JStr (str "He"))])
  else if eqs s (html "{@chunk@:@llo@}") then Some (JObj [(str "chunk", JStr (str "llo"))])
  else if eqs s (html "{@done@:true}") then Some (JObj [(str "done", JBool true)])
  else None.

(** The same with a fourth payload, [{"chunk":{"toString":0}}]. *)
Definition demo_parse_object (s : jsstring) : option (JSValue N) :=
  if eqs s (html "{@chunk@:{@toString@:0}}")
  then Some (JObj [(str "chunk", JObj [(str "toString", JNum 0%N)])])
  else demo_parse s.

Definition demo_truthy (n : N) : bool := negb (N.eqb n 0).

Definition demo_to_string (n : N) : jsstring := decimal (N.to_nat n).

(** A client that has just started, with [hi] typed in the input box. *)
Definition demo_store : Store :=
  setInput (str "hi") (initial (str "session_1") (str "gpt-4o-mini")).

Definition demo_fresh : Fresh :=
  MkFresh (str "c1") (str "u1") (str "a1") (str "2024-01-01T00:00:00.000Z")
          (str "10:00 AM") (str "10:00 AM").

(** The body of the scenario: three events, each ended by a blank line. *)
Definition hello_body : jsstring :=
  html "data: {@chunk@:@He@}" ++ [nl; nl] ++
  html "data: {@chunk@:@llo@}" ++ [nl; nl] ++
  html "data: {@done@:true}" ++ [nl; nl].

(** Two reads: the first line alone, then the other two. *)
Definition demo_chunks : list jsstring :=
  [html "data: {@chunk@:@He@}" ++ [nl] ++ [nl];
   html "data: {@chunk@:@llo@}" ++ [nl] ++ [nl] ++ html "data: {@done@:true}" ++ [nl] ++ [nl]].

Definition demo_chat (id title : string) : Chat.t :=
  Chat.Build (str id) (str title) [] false (str "2024-01-01T00:00:00.000Z") None None.

Definition demo_chats : Store :=
  setChats (fun _ => [demo_chat "c1" "First"; demo_chat "c2" "Second"]) demo_store.

(** The same client after one exchange. *)
Definition demo_answered : Store :=
  setMessages (fun _ =>
    [Message.Build (str "u0") user (str "A") (str "9:59 AM") None;
     Message.Build (str "a0") assistant (str "B") (str "9:59 AM") (Some false)])
    demo_store.

(** A client that has just started, with an image attached and nothing
    typed. *)
Definition demo_pictured : Store :=
  MkStore [] [] false None [] None
          (Some (str "data:image/png;base64,iVBORw0KGgo=")) (Some (str "cat.png"))
          None [] (str "session_1") (str "gpt-4o-mini").

End Demo.

Import Demo.

(** ** The chat list: save, new, switch, delete, star, select *)

Module Workspace.

Inductive PageName := page_chat | page_chats | page_about.

(** The state of the page around the conversation: [selectedChats] is the
    [Set<string>], as the list of its elements in insertion order. *)
Record View := MkView {
  store : Store;
  page : PageName;
  toast : option jsstring;
  selectMode : bool;
  selectedChats : list jsstring;
  searchQuery : jsstring;
  sidebarCollapsed : bool
}.

Definition on_store (f : Store -> Store) (v : View) : View :=
  MkView (f (store v)) (page v) (toast v) (selectMode v) (selectedChats v)
         (searchQuery v) (sidebarCollapsed v).

Definition setPage (p : PageName) (v : View) : View :=
  MkView (store v) p (toast v) (selectMode v) (selectedChats v)
         (searchQuery v) (sidebarCollapsed v).

(** [showToast(message)]; the timer that hides the toast after 2.5 s is
    another handler. *)
Definition showToast (message : jsstring) (v : View) : View :=
  MkView (store v) (page v) (Some message) (selectMode v) (selectedChats v)
         (searchQuery v) (sidebarCollapsed v).

Definition setSelectedChats (f : list jsstring -> list jsstring) (v : View) : View :=
  MkView (store v) (page v) (toast v) (selectMode v) (f (selectedChats v))
         (searchQuery v) (sidebarCollapsed v).

Definition setSelectMode (b : bool) (v : View) : View :=
  MkView (store v) (page v) (toast v) b (selectedChats v)
         (searchQuery v) (sidebarCollapsed v).

Definition setSidebarCollapsed (f : bool -> bool) (v : View) : View :=
  MkView (store v) (page v) (toast v) (selectMode v) (selectedChats v)
         (searchQuery v) (f (sidebarCollapsed v)).

(** *** [Set<string>] *)

Definition has (id : jsstring) (s : list jsstring) : bool := existsb (eqs id) s.

Definition set_add (id : jsstring) (s : list jsstring) : list jsstring :=
  if has id s then s else s ++ [id].

Definition set_delete (id : jsstring) (s : list jsstring) : list jsstring :=
  filter (fun x => negb (eqs x id)) s.

(** [new Set(ids)] *)
Definition set_of (ids : list jsstring) : list jsstring :=
  fold_left (fun s id => set_add id s) ids [].

(** *** saveCurrentChat *)

(** [messages[messages.length - 1]?.content.slice(0, 100)] *)
Definition preview (msgs : list Message.t) : option jsstring :=
  option_map (fun m => firstn 100 (Message.content m))
             (nth_error msgs (length msgs - 1)).

Definition with_messages (chat : Chat.t) (msgs : list Message.t) : Chat.t :=
  Chat.Build (Chat.id chat) (Chat.title chat) msgs (Chat.starred chat)
             (Chat.created chat) (preview msgs) (Chat.selected chat).

(** [snap] is the render whose [currentChatId] and [messages] the callback
    captured. *)
Definition saveCurrentChat (snap : Store) (st : Store) : Store :=
  match currentChatId snap with
  | Some id =>
      if nonempty id && (0 <? length (messages snap)) then
        setChats (map (fun chat =>
                    if eqs (Chat.id chat) id
                    then with_messages chat (messages snap) else chat)) st
      else st
  | None => st
  end.

(** *** newChat, goHome *)

Definition empty_chat (f : Fresh) : Chat.t :=
  Chat.Build (chat_id f) (str "New Chat") [] false (created_at f) None None.

Definition newChat (snap : View) (f : Fresh) (v : View) : View :=
  let v := on_store (saveCurrentChat (store snap)) v in
  let v := on_store (setChats (cons (empty_chat f))) v in
  let v := on_store (setCurrentChatId (Some (chat_id f))) v in
  let v := on_store (setMessages (fun _ => [])) v in
  setPage page_chat v.

Definition goHome (snap : View) (f : Fresh) (v : View) : View :=
  newChat snap f (on_store (saveCurrentChat (store snap)) v).

(** *** switchChat *)

(** [chats.find(c => c.id === chatId)] *)
Definition find_chat (chatId : jsstring) (cs : list Chat.t) : option Chat.t :=
  find (fun c => eqs (Chat.id c) chatId) cs.

Definition switchChat (snap : View) (chatId : jsstring) (v : View) : View :=
  let v := on_store (saveCurrentChat (store snap)) v in
  match find_chat chatId (chats (store snap)) with
  | Some chat =>
      let v := on_store (setCurrentChatId (Some chatId)) v in
      let v := on_store (setMessages (fun _ => Chat.messages chat)) v in
      setPage page_chat v
  | None => v
  end.

(** *** deleteChat, deleteSelectedChats *)

Definition is_current (snap : View) (chatId : jsstring) : bool :=
  match currentChatId (store snap) with
  | Some id => eqs id chatId
  | None => false
  end.

Definition close_conversation (v : View) : View :=
  on_store (setMessages (fun _ => [])) (on_store (setCurrentChatId None) v).

Definition deleteChat (snap : View) (chatId : jsstring) (v : View) : View :=
  let v := on_store (setChats (filter (fun c => negb (eqs (Chat.id c) chatId)))) v in
  let v := if is_current snap chatId then close_conversation v else v in
  showToast (str "Chat deleted") v.

Definition deleteSelectedChats (snap : View) (v : View) : View :=
  let selected := selectedChats snap in
  let v := on_store (setChats (filter (fun c => negb (has (Chat.id c) selected)))) v in
  let v :=
    match currentChatId (store snap) with
    | Some id => if nonempty id && has id selected then close_conversation v else v
    | None => v
    end in
  let v := showToast (decimal (length selected) ++ str " chat(s) deleted") v in
  let v := setSelectedChats (fun _ => []) v in
  setSelectMode false v.

(** *** Selection, star *)

Definition toggleChatSelection (chatId : jsstring) (v : View) : View :=
  setSelectedChats (fun prev =>
    if has chatId prev then set_delete chatId prev else set_add chatId prev) v.

Definition deselectAllChats (v : View) : View := setSelectedChats (fun _ => []) v.

Definition with_starred (chat : Chat.t) (b : bool) : Chat.t :=
  Chat.Build (Chat.id chat) (Chat.title chat) (Chat.messages chat) b
             (Chat.created chat) (Chat.lastMessage chat) (Chat.selected chat).

Definition starChat (chatId : jsstring) (v : View) : View :=
  on_store (setChats (map (fun chat =>
    if eqs (Chat.id chat) chatId
    then with_starred chat (negb (Chat.starred chat)) else chat))) v.

(** *** The search *)

Section Search.

(** [String.prototype.toLowerCase] *)
Variable toLowerCase : jsstring -> jsstring.

Definition matches_query (q : jsstring) (chat : Chat.t) : bool :=
  includes (toLowerCase q) (toLowerCase (Chat.title chat)) ||
  match Chat.lastMessage chat with
  | Some m => includes (toLowerCase q) (toLowerCase m)
  | None => false
  end.

Definition filteredChats (v : View) : list Chat.t :=
  filter (matches_query (searchQuery v)) (chats (store v)).

Definition recentChats (v : View) : list Chat.t := firstn 10 (filteredChats v).

Definition selectAllChats (snap : View) (v : View) : View :=
  setSelectedChats (fun _ => set_of (map Chat.id (filteredChats snap))) v.

End Search.

(** *** The shortcuts of the page *)

Record KeyEvent := MkKey {
  ctrlKey : bool;
  metaKey : bool;
  shiftKey : bool;
  key : jsstring
}.

(** The first render: every [useState] at its initial value. *)
Definition first_render (model : jsstring) : View :=
  MkView (initial [] model) page_chat None false [] [] false.

(** The [keydown] listener of the document. It is installed once, by an
    effect without dependencies: [first] is the render of that effect, the
    one its [newChat] comes from. *)
Definition handleKeyDown (first : View) (f : Fresh) (e : KeyEvent) (v : View) : View :=
  let v := if (ctrlKey e || metaKey e) && eqs (key e) (str "k")
           then newChat first f v else v in
  if (ctrlKey e || metaKey e) && shiftKey e && eqs (key e) (str "S")
  then setSidebarCollapsed negb v else v.

End Workspace.

(** ** The theme *)

Module Theme.

(** [theme], the [data-theme] attribute of the document, and the entry
    [nexusai-theme] of the local storage. *)
Record Appearance := MkAppearance {
  theme : jsstring;
  data_theme : option jsstring;
  saved : option jsstring
}.

Definition toggleTheme (a : Appearance) : Appearance :=
  let newTheme := if eqs (theme a) (str "light") then str "dark" else str "light" in
  MkAppearance newTheme (Some newTheme) (Some newTheme).

(** The part of the mount effect that reads the saved theme. *)
Definition load_theme (a : Appearance) : Appearance :=
  match saved a with
  | Some t => if nonempty t then MkAppearance t (Some t) (saved a) else a
  | None => a
  end.

(** The page as it starts, over a local storage. *)
Definition startup (storage : option jsstring) : Appearance :=
  load_theme (MkAppearance (str "light") None storage).

End Theme.

(** ** getTimeAgo *)

Module Clock.

Section TimeAgo.

(** [date.toLocaleDateString()], of a time value. *)
Variable toLocaleDateString : Z -> jsstring.

Definition number (z : Z) : jsstring := decimal (Z.to_nat z).

(** [now] and [date] are time values in milliseconds; [None] is the
    [NaN] of an invalid date, for which every comparison is false and
    [toLocaleDateString] gives [Invalid Date]. Time values are integers
    below 2^53, where [Math.floor] of the floating-point quotient is the
    quotient of the integers. *)
Definition getTimeAgo (now : Z) (date : option Z) : jsstring :=
  match date with
  | None => str "Invalid Date"
  | Some d =>
      let diffMs := (now - d)%Z in
      let diffMins := (diffMs / 60000)%Z in
      let diffHours := (diffMs / 3600000)%Z in
      let diffDays := (diffMs / 86400000)%Z in
      if (diffMins <? 1)%Z then str "just now"
      else if (diffMins <? 60)%Z then number diffMins ++ str "m ago"
      else if (diffHours <? 24)%Z then number diffHours ++ str "h ago"
      else if (diffDays <? 7)%Z then number diffDays ++ str "d ago"
      else toLocaleDateString d
  end.

End TimeAgo.

End Clock.

(** ** The loop of a quantifier *)

Module Quantifier.

(** The iteration [rmatch] runs on [Star greedy a], under its own name. *)
Definition star_loop (greedy : bool) (a : regex) (k : mstate -> option mstate)
  : nat -> mstate -> option mstate :=
  fix loop (fuel : nat) (st : mstate) {struct fuel} : option mstate :=
    match fuel with
    | O => k st
    | S f =>
        let iter :=
          rmatch a st (fun st' =>
            if length (m_rest st') <? length (m_rest st)
            then loop f st' else None) in
        if greedy then
          match iter with Some x => Some x | None => k st end
        else
          match k st with Some x => Some x | None => iter end
    end.

(** What a group records: code units that satisfy [P] only. *)
Definition captured (P : char -> Prop) (caps : captures) : Prop :=
  Forall (fun kv => Forall P (snd kv)) caps.

(** A matcher state whose input and captures satisfy [P]. *)
Definition good (P : char -> Prop) (st : mstate) : Prop :=
  Forall P (m_rest st) /\ captured P (m_caps st).

Definition seg_ok (P : char -> Prop) (sg : seg) : Prop :=
  match sg with
  | SChar _ => True
  | SMatch _ caps => captured P caps
  end.

Definition surrogate_free (c : char) : Prop :=
  high_surrogate c = false /\ low_surrogate c = false.

End Quantifier.

(** ** A page to run the chat list on *)

Module DemoView.

Import Workspace.

(** Two chats, the first one open after one exchange. *)
Definition demo_view : View :=
  MkView (setCurrentChatId (Some (str "c1"))
            (setChats (fun _ => [demo_chat "c1" "First"; demo_chat "c2" "Second"])
                      demo_answered))
         page_chats None false [] [] false.

Definition demo_fresh_chat : Fresh :=
  MkFresh (str "c3") (str "u3") (str "a3") (str "2024-01-02T00:00:00.000Z")
          (str "10:05 AM") (str "10:05 AM").

(** Ctrl+K *)
Definition demo_key : KeyEvent := MkKey true false false (str "k").

(** [toLowerCase] on the letters A to Z. *)
Definition demo_lower (s : jsstring) : jsstring :=
  map (fun c => if N.leb 65 c && N.leb c 90 then (c + 32)%N else c) s.

End DemoView.

(** ** Headings *)

Module Headings.

(** [<hN>t</hN>], for the digit [d] of N. *)
Definition heading (d : char) (t : jsstring) : jsstring :=
  str "<h" ++ [d] ++ str ">" ++ t ++ str "</h" ++ [d] ++ str ">".

(** What follows a [<] in a heading. *)
Definition in_heading (v : jsstring) : Prop :=
  (exists d w, v = ch "h" :: d :: w /\ In d [ch "1"; ch "2"; ch "3"]) \/
  In v [str "/h1>"; str "/h2>"; str "/h3>"].

(** A line of text: plain, and without the line terminators [.] stops
    at. *)
Definition line_text (t : jsstring) : bool := plain_text t && forallb dot t.

End Headings.

(** ** Lines of one paragraph *)

Module Lines.

(** What follows a [<] in a paragraph of several lines. *)
Definition breaks (v : jsstring) : Prop :=
  exists c w, v = ch "b" :: ch "r" :: ch ">" :: c :: w /\ c <> ch "<".

Definition in_lines (v : jsstring) : Prop := opens v \/ closes v \/ breaks v.

(** The code unit after a line feed is not a line feed. *)
Definition line_starts (v : jsstring) : Prop :=
  exists c w, v = c :: w /\ c <> nl.

End Lines.

(** ** Inline elements *)

Module Inline.

(** The first letters of [strong], [em], [code] and [a]. *)
Definition tag_letters : list char := [ch "s"; ch "e"; ch "c"; ch "a"].

(** What follows a [<] in a paragraph with one inline element. *)
Definition in_inline (v : jsstring) : Prop :=
  (exists x w, v = x :: w /\ In x tag_letters) \/
  (exists x w, v = ch "/" :: x :: w /\ In x (ch "p" :: tag_letters)) \/
  (exists x w, v = ch "p" :: ch ">" :: x :: w /\ x <> ch "<") \/
  (exists x w, v = ch "p" :: ch ">" :: ch "<" :: x :: w /\ In x tag_letters).

End Inline.

(** ** Bulleted lists *)

Module Bullets.

(** [<li>i</li>] *)
Definition item_li (i : jsstring) : jsstring := str "<li>" ++ i ++ str "</li>".

(** The source of a list: one [- item] per line. *)
Definition bullets (items : list jsstring) : jsstring :=
  join [nl] (map (fun i => str "- " ++ i) items).

(** What follows a [<] in a paragraph of list items separated by
    [<br>]. *)
Definition in_list (v : jsstring) : Prop :=
  (exists w, v = str "li>" ++ w) \/
  (exists w, v = str "/li>" ++ w) \/
  (exists w, v = str "br><li>" ++ w) \/
  (exists w, v = str "p><li>" ++ w) \/
  v = str "/p>".

(** The matcher goes on to the end of the list whatever it has
    captured. *)
Definition reaches (k : mstate -> option mstate) (prev : option char)
  (rest final : jsstring) : Prop :=
  forall caps, exists st', k (MState prev rest caps) = Some st' /\ m_rest st' = final.

End Bullets.

Module ListRun.

Import Bullets.

(** The items of a list as stage 5 leaves them: [<br>] between two
    items. *)
Fixpoint run (items : list jsstring) : jsstring :=
  match items with
  | [] => []
  | [i] => item_li i
  | i :: more => item_li i ++ str "<br>" ++ run more
  end.

(** [<li>.*?<\/li>(<br>)?], the group the list pattern repeats. *)
Definition re_one_item : regex :=
  Group 1 (seqs [lit "<li>"; lazy_star (Chr dot); lit "</li>";
                 opt (Group 2 (lit "<br>"))]).

End ListRun.

(** ** Links *)

Module Links.

Import Headings.

(** The text of a link: one line of plain text without [\]], not
    empty. *)
Definition label_text (t : jsstring) : bool :=
  line_text t && forallb (other_than (ch "]")) t && nonempty t.

(** The address of a link: one line, not empty, without space and
    without the characters [` | < > * \[ )]. *)
Definition url_text (u : jsstring) : bool :=
  forallb (fun c => dot c &&
                    negb (existsb (N.eqb c)
                            [ch "`"; ch "|"; ch "<"; ch ">"; ch "*"; ch "["; ch ")"; ch " "]))
          u && nonempty u.

(** [<a href="u" target="_blank" rel="noopener">t</a>] *)
Definition anchor (t u : jsstring) : jsstring :=
  html "<a href=@" ++ u ++ html "@ target=@_blank@ rel=@noopener@>" ++ t ++ str "</a>".

End Links.

(** ** The stream consumer *)

Section Stream.

Variable Num : Type.
Variable num_truthy : Num -> bool.
Variable num_to_string : Num -> jsstring.
Variable JSON_parse : jsstring -> option (JSValue Num).

Definition line_frames (line : jsstring) : list (JSValue Num) :=
  if startsWith (str "data: ") line then
    match JSON_parse (skipn 6 line) with
    | Some data => [data]
    | None => []
    end
  else [].

(** The frames a response body decodes to, in arrival order. *)
Definition frames (chunks : list jsstring) : list (JSValue Num) :=
  flat_map (fun chunk => flat_map line_frames (split_on nl chunk)) chunks.

Definition on_frames (st : option Store) (fs : list (JSValue Num)) : option Store :=
  fold_left (fun st d => match st with
                         | Some st => on_frame num_truthy num_to_string d st
                         | None => None end) fs st.

(** The text one frame appends, and whether it ends the message. *)
Definition chunk_text (d : JSValue Num) : jsstring :=
  match d with
  | JNull => []
  | _ => match prop d "chunk" with
         | Some c =>
             if truthy num_truthy (Some c) then
               match to_string num_to_string c with Some t => t | None => [] end
             else []
         | None => []
         end
  end.

(** The chunk of the frame, when it has one, can be added to a string. *)
Definition printable (d : JSValue Num) : bool :=
  match d with
  | JNull => true
  | _ => match prop d "chunk" with
         | Some c =>
             match to_string num_to_string c with Some _ => true | None => false end
         | None => true
         end
  end.

Definition is_done (d : JSValue Num) : bool :=
  match d with
  | JNull => false
  | _ => truthy num_truthy (prop d "done")
  end.

Definition streamed (a : Message.t) (fs : list (JSValue Num)) : Message.t :=
  Message.Build (Message.id a) (Message.role a)
    (Message.content a ++ concat (map chunk_text fs)) (Message.timestamp a)
    (if existsb is_done fs then Some false else Message.isStreaming a).

Definition pending (f : Fresh) : Message.t :=
  Message.Build (assistant_id f) assistant [] (assistant_time f) (Some true).

Definition failed (f : Fresh) : Message.t :=
  Message.Build (assistant_id f) assistant apology (assistant_time f) (Some false).

(** The assistant message a request leaves behind. *)
Definition reply (f : Fresh) (resp : Response) : Message.t :=
  match resp with
  | FetchRejected => failed f
  | NotOk => failed f
  | NoBody => pending f
  | Body chunks EndOfStream => streamed (pending f) (frames chunks)
  | Body chunks ReadFailed => failed f
  end.

Definition asked (f : Fresh) (text : jsstring) : Message.t :=
  Message.Build (user_id f) user text (user_time f) None.

(** The states the client goes through when every handler runs to the end
    before the next one starts, with responses taken from [allowed]. *)
Inductive reachable (allowed : Response -> Prop) : Store -> Prop :=
| reach_initial sid model : reachable allowed (initial sid model)
| reach_typing st v : reachable allowed st -> reachable allowed (setInput v st)
| reach_send st ov f resp st' s :
    reachable allowed st ->
    allowed resp ->
    sendMessage num_truthy num_to_string JSON_parse st ov f resp st = Some (st', s) ->
    reachable allowed st'
| reach_retry st i st1 text f resp st2 s :
    reachable allowed st ->
    allowed resp ->
    retryMessage st i st = (st1, Some text) ->
    retry_fires num_truthy num_to_string JSON_parse st text f resp st1 = Some (st2, s) ->
    reachable allowed st2
| reach_rename st chatId newTitle :
    reachable allowed st -> reachable allowed (renameChat chatId newTitle st).

(** The request did not go through. *)
Definition transport_failure (resp : Response) : bool :=
  match resp with
  | FetchRejected => true
  | NotOk => true
  | Body _ ReadFailed => true
  | _ => false
  end.

(** No frame of the response makes the chunk updater throw. *)
Definition readable (resp : Response) : bool :=
  match resp with
  | Body chunks _ => forallb printable (frames chunks)
  | _ => true
  end.

(** The request ends the reply: it fails, or a frame says [done]. *)
Definition ends_reply (resp : Response) : bool :=
  match resp with
  | NoBody => false
  | Body chunks EndOfStream => existsb is_done (frames chunks)
  | _ => true
  end.

(** *** Strings *)

Lemma eqs_spec a b : eqs a b = true <-> a = b.
Proof.
  revert b; induction a as [|x a IH]; intros [|y b]; simpl; split;
    try congruence; try reflexivity.
  - intros H; apply andb_true_iff in H as [H1 H2].
    apply N.eqb_eq in H1; apply IH in H2; congruence.
  - intros H; inversion H; subst. rewrite N.eqb_refl. simpl. now apply IH.
Qed.

Lemma trimStart_blank s : blank s = true -> trimStart s = [].
Proof.
  induction s as [|c s IH]; simpl; [reflexivity|].
  intros H. apply andb_true_iff in H as [Hc Hs]. rewrite Hc. auto.
Qed.

Lemma trimStart_head s :
  trimStart s = [] \/ exists c r, trimStart s = c :: r /\ is_space c = false.
Proof.
  induction s as [|c s IH]; simpl; [now left|].
  destruct (is_space c) eqn:E; [exact IH|]. right. eauto.
Qed.

Lemma trimStart_nil_blank s : trimStart s = [] -> blank s = true.
Proof.
  induction s as [|c s IH]; simpl; [reflexivity|].
  destruct (is_space c); [auto|discriminate].
Qed.

Lemma blank_app a b : blank (a ++ b) = blank a && blank b.
Proof. apply forallb_app. Qed.

Lemma blank_rev s : blank (rev s) = blank s.
Proof.
  induction s as [|c s IH]; simpl; [reflexivity|].
  rewrite blank_app, IH. simpl. rewrite andb_true_r. apply andb_comm.
Qed.

Lemma trim_blank s : trim s = [] <-> blank s = true.
Proof.
  unfold trim, trimEnd. split.
  - intros H.
    assert (H1 : trimStart (rev (trimStart s)) = []).
    { destruct (trimStart (rev (trimStart s))) as [|x l]; [reflexivity|].
      simpl in H. destruct (rev l); discriminate. }
    apply trimStart_nil_blank in H1. rewrite blank_rev in H1.
    destruct (trimStart_head s) as [E|(c & r & E & Hc)].
    + now apply trimStart_nil_blank.
    + rewrite E in H1. simpl in H1. rewrite Hc in H1. discriminate.
  - intros H. now rewrite (trimStart_blank _ H).
Qed.

(** *** The read loop *)

Lemma on_frames_app st a b : on_frames st (a ++ b) = on_frames (on_frames st a) b.
Proof. unfold on_frames. apply fold_left_app. Qed.

Lemma on_line_frames st line :
  on_line num_truthy num_to_string JSON_parse st line = on_frames st (line_frames line).
Proof.
  unfold on_line, line_frames.
  destruct (startsWith (str "data: ") line);
    [destruct (JSON_parse (skipn 6 line))|]; destruct st; reflexivity.
Qed.

Lemma on_chunk_frames st chunk :
  on_chunk num_truthy num_to_string JSON_parse st chunk =
  on_frames st (flat_map line_frames (split_on nl chunk)).
Proof.
  unfold on_chunk. generalize (split_on nl chunk) as ls. intros ls. revert st.
  induction ls as [|l ls IH]; intros st; simpl; [reflexivity|].
  rewrite on_frames_app, IH, on_line_frames. reflexivity.
Qed.

Lemma read_loop_frames chunks st :
  fold_left (on_chunk num_truthy num_to_string JSON_parse) chunks st =
  on_frames st (frames chunks).
Proof.
  revert st. induction chunks as [|c cs IH]; intros st; simpl; [reflexivity|].
  unfold frames in *. simpl. rewrite on_frames_app, IH, on_chunk_frames. reflexivity.
Qed.

Lemma update_last_app f l x : update_last f (l ++ [x]) = l ++ [f x].
Proof.
  induction l as [|y l IH]; simpl; [reflexivity|].
  rewrite IH. destruct (l ++ [x]) eqn:E; [|reflexivity].
  destruct l; discriminate.
Qed.

Lemma streamed_nil a : streamed a [] = a.
Proof. destruct a; unfold streamed; simpl. now rewrite app_nil_r. Qed.

Lemma streamed_cons a d fs : streamed a (d :: fs) = streamed (streamed a [d]) fs.
Proof.
  unfold streamed; simpl. rewrite app_nil_r, <- app_assoc.
  destruct (is_done d); simpl; [|reflexivity].
  now destruct (existsb is_done fs).
Qed.

Lemma falsy_printed c :
  truthy num_truthy (Some c) = false -> to_string num_to_string c <> None.
Proof. destruct c as [|[]|n|s|items|fields]; simpl; congruence. Qed.

Lemma on_frame_throws d st : printable d = false -> on_frame num_truthy num_to_string d st = None.
Proof.
  unfold printable, on_frame. destruct d as [|b|n|s|items|fields]; try discriminate.
  cbn -[str truthy lookup append_chunk to_string].
  destruct (lookup (str "chunk") fields) as [c|]; [|discriminate].
  destruct (to_string num_to_string c) eqn:E; [discriminate|]. intros _.
  destruct (truthy num_truthy (Some c)) eqn:Et; [reflexivity|].
  now apply falsy_printed in Et.
Qed.

Lemma on_frame_last d st prev a :
  messages st = prev ++ [a] ->
  printable d = true ->
  exists st', on_frame num_truthy num_to_string d st = Some st' /\
              messages st' = prev ++ [streamed a [d]].
Proof.
  intros Hm Hp.
  assert (Hs : forall st0 a0 (b t : bool), messages st0 = prev ++ [a0] ->
            messages (if b then setMessages stop_streaming
                        (if t then setToolStatus (Some (str "Searching the web...")) st0
                         else st0)
                      else (if t then setToolStatus (Some (str "Searching the web...")) st0
                            else st0))
            = prev ++ [if b then with_streaming a0 false else a0]).
  { intros st0 a0 b t H0.
    destruct b, t; simpl; unfold stop_streaming;
      rewrite ?H0, ?update_last_app; reflexivity. }
  assert (Hc : forall c, exists st0,
             match append_chunk c (messages st) with
             | Some msgs => Some (setMessages (fun _ => msgs) st)
             | None => None end = Some st0 /\
             messages st0 = prev ++ [with_content a (Message.content a ++ c)]).
  { intros c. rewrite Hm. unfold append_chunk.
    destruct (prev ++ [a]) eqn:E; [destruct prev; discriminate|].
    rewrite <- E, update_last_app. eexists; split; reflexivity. }
  unfold streamed, chunk_text, is_done.
  destruct d as [|b|n|s|items|fields];
    try (simpl; eexists; split; [reflexivity|]; rewrite Hm; do 2 f_equal;
         destruct a; simpl; now rewrite !app_nil_r).
  unfold printable in Hp.
  cbn -[str truthy lookup append_chunk to_string] in Hp |- *.
  destruct (lookup (str "chunk") fields) as [c|] eqn:Ec;
    [destruct (truthy num_truthy (Some c)) eqn:Et|].
  - destruct (to_string num_to_string c) as [text|] eqn:Ep; [|discriminate].
    destruct (Hc text) as (st0 & E0 & M0).
    rewrite E0. eexists; split; [reflexivity|].
    rewrite (Hs _ _ _ _ M0), !app_nil_r.
    destruct (truthy num_truthy (lookup (str "done") fields)); destruct a; reflexivity.
  - eexists; split; [reflexivity|].
    rewrite (Hs _ _ _ _ Hm), !app_nil_r.
    destruct (truthy num_truthy (lookup (str "done") fields)); destruct a; reflexivity.
  - eexists; split; [reflexivity|].
    rewrite (Hs _ _ _ _ Hm), !app_nil_r.
    destruct (truthy num_truthy (lookup (str "done") fields)); destruct a; reflexivity.
Qed.

Lemma on_frames_thrown fs : on_frames None fs = None.
Proof. induction fs as [|d fs IH]; [reflexivity|exact IH]. Qed.

Lemma on_frames_last fs : forall st prev a,
  messages st = prev ++ [a] ->
  forallb printable fs = true ->
  exists st', on_frames (Some st) fs = Some st' /\
              messages st' = prev ++ [streamed a fs].
Proof.
  induction fs as [|d fs IH]; intros st prev a Hm Hp.
  - exists st. split; [reflexivity|]. now rewrite streamed_nil.
  - simpl in Hp. apply andb_true_iff in Hp as [Hd Hp].
    destruct (@on_frame_last d st prev a Hm Hd) as (st1 & E1 & M1).
    destruct (IH st1 prev _ M1 Hp) as (st' & E' & M').
    exists st'. split.
    + unfold on_frames in *. simpl. rewrite E1. exact E'.
    + rewrite M'. now rewrite (streamed_cons a d fs).
Qed.

Lemma on_frames_throw fs : forall st prev a,
  messages st = prev ++ [a] ->
  forallb printable fs = false ->
  on_frames (Some st) fs = None.
Proof.
  induction fs as [|d fs IH]; intros st prev a Hm Hp; [discriminate|].
  simpl in Hp. change (on_frames (Some st) (d :: fs))
    with (on_frames (on_frame num_truthy num_to_string d st) fs).
  destruct (printable d) eqn:Hd.
  - destruct (@on_frame_last d st prev a Hm Hd) as (st1 & E1 & M1).
    rewrite E1. exact (IH st1 prev _ M1 Hp).
  - rewrite (on_frame_throws _ st Hd). apply on_frames_thrown.
Qed.

Lemma request_last f resp st prev :
  messages st = prev ++ [pending f] ->
  readable resp = true ->
  exists c, request num_truthy num_to_string JSON_parse resp st = Some c /\
    messages (match c with
              | Normal st => st
              | Thrown st => setMessages fail_last st
              end) = prev ++ [reply f resp].
Proof.
  intros Hm Hp. destruct resp as [| | |chunks ending]; simpl.
  - eexists; split; [reflexivity|]. simpl. unfold fail_last.
    now rewrite Hm, update_last_app.
  - eexists; split; [reflexivity|]. simpl. unfold fail_last.
    now rewrite Hm, update_last_app.
  - eexists; split; [reflexivity|]. exact Hm.
  - rewrite read_loop_frames.
    destruct (@on_frames_last (frames chunks) st prev (pending f) Hm Hp) as (st' & E & M).
    rewrite E. destruct ending; eexists; (split; [reflexivity|]); simpl.
    + exact M.
    + unfold fail_last. now rewrite M, update_last_app.
Qed.

Lemma request_throws resp st prev a :
  messages st = prev ++ [a] ->
  readable resp = false ->
  request num_truthy num_to_string JSON_parse resp st = None.
Proof.
  intros Hm Hp. destruct resp as [| | |chunks ending]; try discriminate.
  simpl. rewrite read_loop_frames.
  now rewrite (@on_frames_throw (frames chunks) st prev a Hm Hp).
Qed.

Lemma sendMessage_runs snap ov f resp st :
  nonempty (prompt_text snap ov) || has_image snap = true ->
  isLoading snap = false ->
  readable resp = true ->
  exists st',
    sendMessage num_truthy num_to_string JSON_parse snap ov f resp st
      = Some (st', Resolved) /\
    messages st' = messages st ++ [asked f (prompt_text snap ov); reply f resp] /\
    isLoading st' = false /\ toolStatus st' = None.
Proof.
  intros Hg Hl Hp. unfold sendMessage. rewrite Hl.
  replace (negb (nonempty (prompt_text snap ov)) && negb (has_image snap))
    with false
    by (destruct (nonempty (prompt_text snap ov)), (has_image snap);
        simpl in *; congruence).
  match goal with
  | |- context [request _ _ _ resp ?s] =>
      assert (Hm : messages s =
                   (messages st ++ [asked f (prompt_text snap ov)]) ++ [pending f])
  end.
  { rewrite <- app_assoc.
    destruct (negb (truthy_opt (currentChatId snap)));
      destruct ((length (messages snap) =? 0) && truthy_opt (currentChatId snap));
      reflexivity. }
  destruct (@request_last f resp _ _ Hm Hp) as (c & Ec & Mc).
  rewrite Ec. eexists; split; [reflexivity|]. simpl.
  rewrite Mc, <- app_assoc. auto.
Qed.

Lemma sendMessage_throws snap ov f resp st :
  nonempty (prompt_text snap ov) || has_image snap = true ->
  isLoading snap = false ->
  readable resp = false ->
  sendMessage num_truthy num_to_string JSON_parse snap ov f resp st = None.
Proof.
  intros Hg Hl Hp. unfold sendMessage. rewrite Hl.
  replace (negb (nonempty (prompt_text snap ov)) && negb (has_image snap))
    with false
    by (destruct (nonempty (prompt_text snap ov)), (has_image snap);
        simpl in *; congruence).
  match goal with
  | |- context [request _ _ _ resp ?s] =>
      assert (Hm : messages s =
                   (messages st ++ [asked f (prompt_text snap ov)]) ++ [pending f])
  end.
  { rewrite <- app_assoc.
    destruct (negb (truthy_opt (currentChatId snap)));
      destruct ((length (messages snap) =? 0) && truthy_opt (currentChatId snap));
      reflexivity. }
  now rewrite (@request_throws resp _ _ _ Hm Hp).
Qed.

Section Scenario.

(** The three payloads of the scenario decode to its three frames. *)
Hypothesis parse_He :
  JSON_parse (html "{@chunk@:@He@}") = Some (JObj [(str "chunk", JStr (str "He"))]).
Hypothesis parse_llo :
  JSON_parse (html "{@chunk@:@llo@}") = Some (JObj [(str "chunk", JStr (str "llo"))]).
Hypothesis parse_done :
  JSON_parse (html "{@done@:true}") = Some (JObj [(str "done", JBool true)]).

Lemma frame_He :
  line_frames (html "data: {@chunk@:@He@}") = [JObj [(str "chunk", JStr (str "He"))]].
Proof.
  change (line_frames (html "data: {@chunk@:@He@}"))
    with (match JSON_parse (html "{@chunk@:@He@}") with
          | Some data => [data]
          | None => []
          end).
  now rewrite parse_He.
Qed.

Lemma frame_llo :
  line_frames (html "data: {@chunk@:@llo@}") = [JObj [(str "chunk", JStr (str "llo"))]].
Proof.
  change (line_frames (html "data: {@chunk@:@llo@}"))
    with (match JSON_parse (html "{@chunk@:@llo@}") with
          | Some data => [data]
          | None => []
          end).
  now rewrite parse_llo.
Qed.

Lemma frame_done :
  line_frames (html "data: {@done@:true}") = [JObj [(str "done", JBool true)]].
Proof.
  change (line_frames (html "data: {@done@:true}"))
    with (match JSON_parse (html "{@done@:true}") with
          | Some data => [data]
          | None => []
          end).
  now rewrite parse_done.
Qed.

Lemma hello_frames :
  frames [hello_body] = [JObj [(str "chunk", JStr (str "He"))];
                         JObj [(str "chunk", JStr (str "llo"))];
                         JObj [(str "done", JBool true)]].
Proof.
  change (frames [hello_body])
    with ((line_frames (html "data: {@chunk@:@He@}") ++
           line_frames (html "data: {@chunk@:@llo@}") ++
           line_frames (html "data: {@done@:true}") ++ []) ++ []).
  now rewrite frame_He, frame_llo, frame_done.
Qed.

Lemma hello_frames_cut :
  frames [firstn 3 hello_body; skipn 3 hello_body] =
    [JObj [(str "chunk", JStr (str "llo"))]; JObj [(str "done", JBool true)]].
Proof.
  change (frames [firstn 3 hello_body; skipn 3 hello_body])
    with ((line_frames (html "data: {@chunk@:@llo@}") ++
           line_frames (html "data: {@done@:true}") ++ []) ++ []).
  now rewrite frame_llo, frame_done.
Qed.

(** C1. What the code does with the body of the scenario, whose [data: ]
    lines decode, in order, to [{"chunk":"He"}], [{"chunk":"llo"}] and
    [{"done":true}]. Read in one piece, the assistant message ends with the
    content [Hello] and [isStreaming] false. Read in two pieces, the first
    one of three code units, every read is split in lines on its own: the
    two halves of the first line are no [data: ] line any more, the first
    frame is lost, and the content is [llo]. The claim says [Hello]. *)
Theorem frame_lost_between_reads snap ov f st :
  nonempty (prompt_text snap ov) || has_image snap = true ->
  isLoading snap = false ->
  firstn 3 hello_body ++ skipn 3 hello_body = hello_body /\
  (exists st',
     sendMessage num_truthy num_to_string JSON_parse snap ov f
                 (Body [hello_body] EndOfStream) st = Some (st', Resolved) /\
     messages st' =
       messages st ++
       [Message.Build (user_id f) user (prompt_text snap ov) (user_time f) None;
        Message.Build (assistant_id f) assistant (str "Hello") (assistant_time f)
                      (Some false)]) /\
  (exists st',
     sendMessage num_truthy num_to_string JSON_parse snap ov f
                 (Body [firstn 3 hello_body; skipn 3 hello_body] EndOfStream) st
       = Some (st', Resolved) /\
     messages st' =
       messages st ++
       [Message.Build (user_id f) user (prompt_text snap ov) (user_time f) None;
        Message.Build (assistant_id f) assistant (str "llo") (assistant_time f)
                      (Some false)]).
Proof.
  intros Hg Hl. split; [apply firstn_skipn|]. split.
  - assert (Hp : readable (Body [hello_body] EndOfStream) = true).
    { unfold readable. rewrite hello_frames. reflexivity. }
    destruct (@sendMessage_runs snap ov f _ st Hg Hl Hp) as (st' & E & M & _).
    exists st'. split; [exact E|]. rewrite M.
    unfold reply. rewrite hello_frames. reflexivity.
  - assert (Hp : readable (Body [firstn 3 hello_body; skipn 3 hello_body] EndOfStream)
                 = true).
    { unfold readable. rewrite hello_frames_cut. reflexivity. }
    destruct (@sendMessage_runs snap ov f _ st Hg Hl Hp) as (st' & E & M & _).
    exists st'. split; [exact E|]. rewrite M.
    unfold reply. rewrite hello_frames_cut. reflexivity.
Qed.

End Scenario.

(** C4. What the code does when the stream ends and no frame had a truthy
    [done]: [sendMessage] resolves, the loading flag is cleared, and the
    assistant message it appended still has [isStreaming] true. The claim
    says false. (When a frame carries a chunk that cannot be added to a
    string, the chunk updater throws and nothing clears the flag either.) *)
Theorem stream_end_without_done snap ov f chunks st :
  nonempty (prompt_text snap ov) || has_image snap = true ->
  isLoading snap = false ->
  existsb is_done (frames chunks) = false ->
  (forallb printable (frames chunks) = false ->
   sendMessage num_truthy num_to_string JSON_parse snap ov f
               (Body chunks EndOfStream) st = None) /\
  (forallb printable (frames chunks) = true ->
   exists st' a,
    sendMessage num_truthy num_to_string JSON_parse snap ov f
                (Body chunks EndOfStream) st = Some (st', Resolved) /\
    messages st' =
      messages st ++
      [Message.Build (user_id f) user (prompt_text snap ov) (user_time f) None; a] /\
    Message.isStreaming a = Some true /\
    isLoading st' = false).
Proof.
  intros Hg Hl Hd. split; intros Hp.
  - exact (@sendMessage_throws snap ov f (Body chunks EndOfStream) st Hg Hl Hp).
  - destruct (@sendMessage_runs snap ov f (Body chunks EndOfStream) st Hg Hl Hp)
      as (st' & E & M & L & _).
    exists st', (reply f (Body chunks EndOfStream)). repeat split; auto.
    simpl. now rewrite Hd.
Qed.


Lemma sendMessage_awaiting snap ov f chunks st mid :
  awaiting_read num_truthy num_to_string JSON_parse snap ov f chunks st = Some mid ->
  sendMessage num_truthy num_to_string JSON_parse snap ov f (Body chunks EndOfStream) st
    = Some (setToolStatus None (setIsLoading false (removeImage mid)), Resolved).
Proof.
  unfold awaiting_read, sendMessage, request.
  destruct (negb (nonempty (prompt_text snap ov)) && negb (has_image snap));
    [discriminate|].
  destruct (isLoading snap); [discriminate|].
  cbv zeta. intros ->. reflexivity.
Qed.

(** C8. What the code does when the send flow turns the replay down. Retry
    on the message after a user message cuts the list back to the messages
    before that user message, then its timer calls [sendMessage] with the
    text, in the closure of the render that was clicked. When that render
    is loading, or when the text is empty (the message of a prompt that was
    an image alone) while the input box is blank and no image is attached,
    [sendMessage] returns at once: the messages are gone, nothing is sent,
    and no user message and no reply follow. The claim says the text is
    sent again. (A render that is loading shows Retry under every assistant
    message that is not streaming: the earlier replies, and the current one
    once its [done] frame has come while the stream is still open.) *)
Theorem retry_without_replay st prefix u later f resp :
  messages st = prefix ++ u :: later ->
  Message.role u = user ->
  isLoading st = true \/
  (Message.content u = [] /\ blank (input st) = true /\ imageFile st = None) ->
  exists st1,
    retryMessage st (S (length prefix)) st = (st1, Some (Message.content u)) /\
    messages st1 = prefix /\
    retry_fires num_truthy num_to_string JSON_parse st (Message.content u) f resp st1
      = Some (st1, Resolved).
Proof.
  intros Hm Hr Hc.
  assert (Hn : nth_error (messages st) (length prefix) = Some u).
  { rewrite Hm, nth_error_app2, Nat.sub_diag by lia. reflexivity. }
  assert (Hf : firstn (length prefix) (messages st) = prefix).
  { rewrite Hm, firstn_app, Nat.sub_diag, firstn_all. simpl. apply app_nil_r. }
  exists (setMessages (fun _ => firstn (length prefix) (messages st)) st).
  split; [unfold retryMessage; now rewrite Hn, Hr|]. split; [exact Hf|].
  unfold retry_fires, sendMessage. destruct Hc as [Hl|(Hc & Hb & Hi)].
  - rewrite Hl. now destruct (negb _ && negb _).
  - apply trim_blank in Hb.
    assert (T : prompt_text st (Some (Message.content u)) = []).
    { unfold prompt_text. rewrite Hc. exact Hb. }
    unfold has_image. now rewrite T, Hi.
Qed.

(** C7. The invariant "at most one message is streaming, and it is the last
    one" does not hold in every reachable state: two prompts in a row, the
    first answered by a stream that ends without a [done] frame, leave a
    streaming message in the middle of the list. *)
Theorem streaming_invariant_broken :
  exists st, reachable (fun _ => True) st /\ ~ streaming_invariant (messages st).
Proof.
  pose (st0 := initial [] []).
  pose (f := MkFresh (str "c") (str "u") (str "a") [] [] []).
  destruct (@sendMessage_runs st0 (Some (str "hi")) f (Body [] EndOfStream) st0
              eq_refl eq_refl eq_refl) as (st1 & E1 & M1 & L1 & _).
  destruct (@sendMessage_runs st1 (Some (str "again")) f (Body [] EndOfStream) st1
              eq_refl L1 eq_refl) as (st2 & E2 & M2 & _).
  exists st2. split.
  - eapply reach_send; [|exact I|exact E2]. eapply reach_send; [|exact I|exact E1].
    apply reach_initial.
  - intros H. rewrite M2, M1 in H.
    specialize (H 1 (pending f) eq_refl eq_refl). discriminate.
Qed.

Lemma send_keeps_invariant snap ov f resp st :
  quiet (messages st) = true ->
  nonempty (prompt_text snap ov) || has_image snap = true ->
  isLoading snap = false ->
  readable resp = true ->
  exists st',
    sendMessage num_truthy num_to_string JSON_parse snap ov f resp st
      = Some (st', Resolved) /\
    streaming_invariant (messages st') /\
    (ends_reply resp = true -> quiet (messages st') = true).
Proof.
  intros Hq Hg Hl Hp.
  destruct (@sendMessage_runs snap ov f resp st Hg Hl Hp) as (st' & E & M & _).
  exists st'. split; [exact E|]. rewrite M. split.
  - intros i m Hi Hs. rewrite length_app. simpl.
    destruct (Nat.lt_ge_cases i (length (messages st))) as [Hlt|Hge].
    + rewrite nth_error_app1 in Hi by exact Hlt.
      unfold quiet in Hq. rewrite forallb_forall in Hq.
      apply nth_error_In in Hi. apply Hq in Hi. rewrite Hs in Hi. discriminate.
    + rewrite nth_error_app2 in Hi by exact Hge.
      destruct (i - length (messages st)) as [|[|k]] eqn:D; simpl in Hi.
      * injection Hi as <-. discriminate.
      * lia.
      * destruct k; discriminate.
  - intros Hc. unfold quiet in *. rewrite forallb_app, Hq. simpl.
    destruct resp as [| | |chunks []]; try discriminate; try reflexivity.
    simpl in Hc. unfold streaming. simpl. rewrite Hc. reflexivity.
Qed.






End Stream.

(** C10. [renameChat] with a title of white space only (or empty) leaves the
    list of chats as it is; with any other title the list keeps its length,
    the chats whose id is the given one get the trimmed title and keep
    every other field, and the other chats are unchanged. *)
Theorem renameChat_frame chatId newTitle st :
  (blank newTitle = true ->
   chats (renameChat chatId newTitle st) = chats st) /\
  (blank newTitle = false ->
   length (chats (renameChat chatId newTitle st)) = length (chats st) /\
   forall i c, nth_error (chats st) i = Some c ->
     exists c', nth_error (chats (renameChat chatId newTitle st)) i = Some c' /\
       Chat.id c' = Chat.id c /\ Chat.messages c' = Chat.messages c /\
       Chat.starred c' = Chat.starred c /\ Chat.created c' = Chat.created c /\
       Chat.lastMessage c' = Chat.lastMessage c /\
       Chat.selected c' = Chat.selected c /\
       (Chat.id c = chatId -> Chat.title c' = trim newTitle) /\
       (Chat.id c <> chatId -> c' = c)).
Proof.
  unfold renameChat. split; intros Hb.
  - apply trim_blank in Hb. rewrite Hb. reflexivity.
  - assert (Hn : nonempty (trim newTitle) = true).
    { destruct (trim newTitle) eqn:E; [|reflexivity].
      apply trim_blank in E. congruence. }
    rewrite Hn. simpl. split; [apply length_map|].
    intros i c Hi. rewrite nth_error_map, Hi. simpl.
    destruct (eqs (Chat.id c) chatId) eqn:E.
    + eexists; split; [reflexivity|]. simpl. repeat split; auto.
      intros Hne. apply eqs_spec in E. contradiction.
    + eexists; split; [reflexivity|]. repeat split; auto.
      intros He. apply eqs_spec in He. congruence.
Qed.

(** ** The formatter *)

Lemma suffix_refl s : suffix s s.
Proof. now exists []. Qed.

Lemma suffix_trans a b c : suffix a b -> suffix b c -> suffix a c.
Proof. intros [p ->] [q ->]. exists (q ++ p). now rewrite app_assoc. Qed.

Lemma suffix_cons c s : suffix s (c :: s).
Proof. now exists [c]. Qed.

Lemma rmatch_fails r : forall st k,
  (forall st', suffix (m_rest st') (m_rest st) -> k st' = None) ->
  rmatch r st k = None.
Proof.
  induction r as [|p|a IHa b IHb|a IHa b IHb|g a IHa|i a IHa|ml|ml];
    intros st k Hk; simpl.
  - apply Hk, suffix_refl.
  - destruct (m_rest st) as [|c rest] eqn:E; [reflexivity|].
    destruct (p c); [|reflexivity]. apply Hk. simpl. apply suffix_cons.
  - apply IHa. intros st' Hs. apply IHb. intros st'' Hs'.
    apply Hk. eapply suffix_trans; eauto.
  - rewrite IHa by exact Hk. apply IHb, Hk.
  - assert (L : forall fuel st', suffix (m_rest st') (m_rest st) ->
       (fix loop (fuel : nat) (st0 : mstate) {struct fuel} : option mstate :=
          match fuel with
          | O => k st0
          | S f =>
              let iter :=
                rmatch a st0 (fun st'0 =>
                  if length (m_rest st'0) <? length (m_rest st0)
                  then loop f st'0 else None) in
              if g then match iter with Some x => Some x | None => k st0 end
              else match k st0 with Some x => Some x | None => iter end
          end) fuel st' = None).
    { induction fuel as [|f IHf]; intros st' Hs; [now apply Hk|].
      cbv zeta.
      rewrite IHa.
      - rewrite (Hk st' Hs). now destruct g.
      - intros st'' Hs'. destruct (_ <? _); [|reflexivity].
        apply IHf. eapply suffix_trans; eauto. }
    apply L, suffix_refl.
  - apply IHa. intros st' Hs. apply Hk. exact Hs.
  - destruct (at_bol ml st); [apply Hk, suffix_refl|reflexivity].
  - destruct (at_eol ml st); [apply Hk, suffix_refl|reflexivity].
Qed.

Lemma Forall_suffix (A : char -> Prop) u s : suffix u s -> Forall A s -> Forall A u.
Proof. intros [pre ->] H. apply Forall_app in H. tauto. Qed.

Lemma dead_sound A r : dead A r -> forall st k,
  Forall A (m_rest st) -> rmatch r st k = None.
Proof.
  induction 1 as [p Hp|a b _ IH|a b _ IH|a b _ IHa _ IHb|i a _ IH];
    intros st k HA; simpl.
  - destruct (m_rest st) as [|c rest]; [reflexivity|].
    inversion HA; subst. now rewrite Hp.
  - now apply IH.
  - apply rmatch_fails. intros st' Hs. apply IH. eapply Forall_suffix; eauto.
  - rewrite IHa by assumption. now apply IHb.
  - now apply IH.
Qed.

Lemma matches_app ps qs s :
  matches (ps ++ qs) s = matches ps s && matches qs (skipn (length ps) s).
Proof.
  revert s; induction ps as [|p ps IH]; intros s; simpl; [reflexivity|].
  destruct s as [|c s]; simpl; [reflexivity|].
  rewrite IH. now rewrite andb_assoc.
Qed.

Lemma fixed_run r : forall st k, fixed r = true ->
  rmatch r st k = None \/
  exists st', rmatch r st k = k st' /\
              m_rest st' = skipn (length (lead r)) (m_rest st) /\
              matches (lead r) (m_rest st) = true.
Proof.
  induction r as [|p|a IHa b IHb|a IHa b IHb|g a IHa|i a IHa|ml|ml];
    intros st k Hf; simpl in *; try discriminate.
  - right. exists st. auto.
  - destruct (m_rest st) as [|c rest] eqn:E; [now left|].
    destruct (p c) eqn:Ep; [|now left].
    right. eexists. split; [reflexivity|]. simpl. auto.
  - apply andb_true_iff in Hf as [Fa Fb]. rewrite Fa.
    destruct (IHa st (fun st' => rmatch b st' k) Fa) as [E|(st1 & E & R1 & M1)];
      [now left|].
    destruct (IHb st1 k Fb) as [E2|(st2 & E2 & R2 & M2)].
    + left. now rewrite E.
    + right. exists st2. rewrite E, E2. split; [reflexivity|].
      rewrite matches_app, M1, <- R1, M2, R2, R1, length_app, skipn_skipn.
      rewrite Nat.add_comm. auto.
  - destruct (IHa st (fun st' =>
        k (MState (m_prev st') (m_rest st')
             ((i, firstn (length (m_rest st) - length (m_rest st')) (m_rest st))
                :: m_caps st'))) Hf) as [E|(st1 & E & R1 & M1)]; [now left|].
    right. eexists. split; [exact E|]. simpl. auto.
  - destruct (at_bol ml st); [|now left]. right. exists st. auto.
  - destruct (at_eol ml st); [|now left]. right. exists st. auto.
Qed.

Lemma lead_sound r : forall st k,
  matches (lead r) (m_rest st) = false -> rmatch r st k = None.
Proof.
  induction r as [|p|a IHa b IHb|a IHa b IHb|g a IHa|i a IHa|ml|ml];
    intros st k Hm; simpl in *; try discriminate.
  - destruct (m_rest st) as [|c rest]; [reflexivity|].
    simpl in Hm. rewrite andb_true_r in Hm. now rewrite Hm.
  - destruct (fixed a) eqn:Fa.
    + destruct (fixed_run a st (fun st' => rmatch b st' k) Fa)
        as [E|(st1 & E & R1 & M1)]; [exact E|].
      rewrite E. apply IHb. rewrite R1.
      rewrite matches_app, M1 in Hm. exact Hm.
    + rewrite app_nil_r in Hm. now apply IHa.
  - now apply IHa.
Qed.

Lemma exec_none_lead r prev s :
  matches (lead r) s = false -> exec r prev s = None.
Proof. intros H. unfold exec. now rewrite lead_sound. Qed.

Lemma exec_none_dead A r prev s :
  dead A r -> Forall A s -> exec r prev s = None.
Proof. intros D H. unfold exec. now rewrite (dead_sound D). Qed.

Lemma render_chars f s : render f (map SChar s) = s.
Proof. induction s as [|c s IH]; simpl; [reflexivity|]. now rewrite IH. Qed.

Lemma render_app f a b : render f (a ++ b) = render f a ++ render f b.
Proof. unfold render. apply flat_map_app. Qed.

Lemma scan_shaped r t G tail s : forall prev,
  shaped t G tail s ->
  (forall c u prev', c <> t -> exec r prev' (c :: u) = None) ->
  (forall v prev', G v -> exec r prev' (t :: v) = None) ->
  scan r 0 prev (s ++ tail) = map SChar s ++ scan r 0 (last_of prev s) tail.
Proof.
  intros prev Hs H1 H2. revert prev.
  induction Hs as [|c s Hc _ IH|s Hg _ IH]; intros prev.
  - reflexivity.
  - simpl. rewrite H1 by assumption. now rewrite IH.
  - simpl. rewrite H2 by assumption. now rewrite IH.
Qed.

Lemma shaped_plain t G tail a b :
  Forall (fun c => c <> t) a -> shaped t G tail b -> shaped t G tail (a ++ b).
Proof.
  induction 1 as [|c a Hc _ IH]; intros Hb; simpl; [exact Hb|].
  apply shaped_skip; auto.
Qed.

Lemma scan_dead A r s : forall prev,
  dead A r -> Forall A s -> scan r 0 prev s = map SChar s.
Proof.
  intros prev D H. revert prev.
  induction H as [|c s Hc Hs IH]; intros prev; simpl.
  - now rewrite (exec_none_dead prev D (Forall_nil A)).
  - rewrite (exec_none_dead prev D (Forall_cons c Hc Hs)). now rewrite IH.
Qed.

Lemma replace_fn_dead A r f s :
  dead A r -> Forall A s -> replace_fn r f s = s.
Proof.
  intros D H. unfold replace_fn, segments. rewrite (scan_dead None D H).
  apply render_chars.
Qed.

Lemma replace_all_dead A r t s :
  dead A r -> Forall A s -> replace_all r t s = s.
Proof. apply replace_fn_dead. Qed.

Lemma exec_of_rmatch r prev a b caps p' :
  rmatch r (MState prev (a ++ b) []) Some = Some (MState p' b caps) ->
  exec r prev (a ++ b) = Some (a, caps).
Proof.
  intros H. unfold exec. rewrite H. simpl.
  rewrite length_app, Nat.add_sub, firstn_app, Nat.sub_diag, firstn_all.
  simpl. now rewrite app_nil_r.
Qed.

Lemma dead_one bad k : In k bad -> dead (avoids bad) (Chr (one k)).
Proof.
  intros Hk. apply dead_chr. intros c Hc. unfold one.
  destruct (N.eqb c k) eqn:E; [|reflexivity].
  apply N.eqb_eq in E. subst. contradiction.
Qed.

Ltac expose :=
  cbv -[one other_than any dot digit word N.eqb N.leb is_space
        is_line_terminator negb orb andb avoids].

Ltac search_dead :=
  first [ apply dead_one; solve [simpl; intuition]
        | apply dead_group; search_dead
        | apply dead_seq_l; search_dead
        | apply dead_seq_r; search_dead
        | apply dead_alt; search_dead ].

Ltac prove_dead := expose; search_dead.

Lemma avoids_sub bad bad' s :
  incl bad' bad -> Forall (avoids bad) s -> Forall (avoids bad') s.
Proof.
  intros Hi H. eapply Forall_impl; [|exact H].
  intros c Hc Hin. apply Hc, Hi, Hin.
Qed.

Lemma plain_avoids s : plain_text s = true -> Forall (avoids specials) s.
Proof.
  unfold plain_text. intros H. apply Forall_forall. intros c Hin Hbad.
  rewrite forallb_forall in H. specialize (H c Hin). unfold plain in H.
  apply negb_true_iff in H.
  assert (existsb (N.eqb c) specials = true).
  { apply existsb_exists. exists c. split; [exact Hbad|apply N.eqb_refl]. }
  congruence.
Qed.

Lemma inline_markup_plain s : Forall (avoids markers) s -> inline_markup s = s.
Proof.
  intros H. unfold inline_markup.
  rewrite (@replace_all_dead (avoids markers) re_inline_code _ s) by (prove_dead || exact H).
  rewrite (@replace_all_dead (avoids markers) re_quote _ s) by (prove_dead || exact H).
  rewrite (@replace_all_dead (avoids markers) re_h3 _ s) by (prove_dead || exact H).
  rewrite (@replace_all_dead (avoids markers) re_h2 _ s) by (prove_dead || exact H).
  rewrite (@replace_all_dead (avoids markers) re_h1 _ s) by (prove_dead || exact H).
  rewrite (@replace_all_dead (avoids markers) re_bold _ s) by (prove_dead || exact H).
  rewrite (@replace_all_dead (avoids markers) re_em _ s) by (prove_dead || exact H).
  rewrite (@replace_all_dead (avoids markers) re_rule _ s) by (prove_dead || exact H).
  rewrite (@replace_all_dead (avoids markers) re_item _ s) by (prove_dead || exact H).
  rewrite (@replace_all_dead (avoids markers) re_numbered _ s) by (prove_dead || exact H).
  rewrite (@replace_all_dead (avoids markers) re_link _ s) by (prove_dead || exact H).
  reflexivity.
Qed.

Lemma fences_none s :
  Forall (avoids [ch "`"]) s ->
  extract_fences (segments re_fence s) [] = Some ([], s).
Proof.
  intros H. unfold segments.
  rewrite (@scan_dead (avoids [ch "`"]) re_fence s None) by (prove_dead || exact H).
  clear H. induction s as [|c s IH]; simpl; [reflexivity|]. now rewrite IH.
Qed.

Lemma tables_none s :
  Forall (avoids [ch "|"]) s -> replace_fn tableRegex render_table s = s.
Proof.
  intros H. apply (@replace_fn_dead (avoids [ch "|"])); [prove_dead|exact H].
Qed.

Lemma shaped_weaken t (G G' : jsstring -> Prop) tail s :
  (forall v, G v -> G' v) -> shaped t G tail s -> shaped t G' tail s.
Proof.
  intros HG. induction 1;
    [apply shaped_nil|apply shaped_skip; auto|apply shaped_hit; auto].
Qed.

Lemma scan_no_occurrence r t rest tail s prev :
  lead r = one t :: rest ->
  shaped t (fun v => matches rest v = false) tail s ->
  scan r 0 prev (s ++ tail) = map SChar s ++ scan r 0 (last_of prev s) tail.
Proof.
  intros Hl Hs. apply (@scan_shaped r t _ tail s prev Hs).
  - intros c u prev' Hc. apply exec_none_lead. rewrite Hl. simpl.
    unfold one. apply N.eqb_neq in Hc. now rewrite Hc.
  - intros v prev' Hv. apply exec_none_lead. rewrite Hl. simpl.
    rewrite Hv. apply andb_false_r.
Qed.

Lemma scan_end_lead r prev p ps : lead r = p :: ps -> scan r 0 prev [] = [].
Proof.
  intros Hl. simpl. rewrite exec_none_lead; [reflexivity|]. now rewrite Hl.
Qed.

(** No occurrence at all: the replacement changes nothing. *)
Lemma replace_fn_no_occurrence r f t rest s :
  lead r = one t :: rest ->
  shaped t (fun v => matches rest v = false) [] s ->
  replace_fn r f s = s.
Proof.
  intros Hl Hs. unfold replace_fn, segments.
  rewrite <- (app_nil_r s) at 1.
  rewrite (@scan_no_occurrence r t rest [] s None Hl Hs), (@scan_end_lead r _ _ _ Hl), app_nil_r.
  apply render_chars.
Qed.

Lemma paragraph_inv p :
  paragraph p = true ->
  exists c p', p = c :: p' /\ Forall (avoids specials) (c :: p').
Proof.
  destruct p as [|c p']; simpl; [discriminate|]. intros H.
  exists c, p'. split; [reflexivity|]. now apply plain_avoids.
Qed.

Lemma avoids_neq bad k s :
  In k bad -> Forall (avoids bad) s -> Forall (fun c => c <> k) s.
Proof.
  intros Hk H. eapply Forall_impl; [|exact H].
  intros c Hc E. subst. contradiction.
Qed.

Lemma join_cons (sep p q : jsstring) (ps : list jsstring) :
  join sep (p :: q :: ps) = p ++ sep ++ join sep (q :: ps).
Proof. reflexivity. Qed.

Lemma join_head (sep p : jsstring) (ps : list jsstring) :
  exists rest, join sep (p :: ps) = p ++ rest.
Proof.
  destruct ps as [|q ps]; [exists []; simpl; now rewrite app_nil_r|].
  eexists. apply join_cons.
Qed.

(** The source text: paragraphs separated by blank lines. *)
Lemma source_shaped (ps : list jsstring) (trail : jsstring) :
  forallb paragraph ps = true ->
  trail = [] \/ trail = [nl; nl] ->
  shaped nl (fun v => matches [one nl; one nl] v = false) []
         (join [nl; nl] ps ++ trail).
Proof.
  intros Hps Ht.
  assert (Htr : shaped nl (fun v => matches [one nl; one nl] v = false) [] trail).
  { destruct Ht as [-> | ->]; [apply shaped_nil|].
    apply shaped_hit; [reflexivity|]. apply shaped_hit; [reflexivity|]. apply shaped_nil. }
  induction ps as [|p ps IH]; [exact Htr|].
  simpl in Hps. apply andb_true_iff in Hps as [Hp Hps].
  destruct (paragraph_inv _ Hp) as (c & p' & -> & Hc).
  assert (Hnl : Forall (fun x => x <> nl) (c :: p')).
  { apply (avoids_neq nl) in Hc; [exact Hc|]. simpl. intuition. }
  destruct ps as [|q ps].
  - simpl join. apply shaped_plain; assumption.
  - rewrite join_cons, <- !app_assoc. apply shaped_plain; [assumption|].
    specialize (IH Hps).
    simpl in Hps. apply andb_true_iff in Hps as [Hq _].
    destruct (paragraph_inv _ Hq) as (d & q' & -> & Hd).
    destruct (join_head [nl; nl] (d :: q') ps) as (rest & Er).
    rewrite Er in *. 
    assert (Hdn : N.eqb d nl = false).
    { apply N.eqb_neq. inversion Hd as [|? ? Hx _]; subst.
      intros E; subst. apply Hx. simpl. intuition. }
    simpl. apply shaped_hit.
    + simpl. unfold one. rewrite Hdn. reflexivity.
    + apply shaped_hit; [|exact IH].
      simpl. unfold one. rewrite Hdn. reflexivity.
Qed.

Lemma scan_over_plain r t rest p tail prev :
  lead r = one t :: rest ->
  Forall (fun c => c <> t) p ->
  scan r 0 prev (p ++ tail) = map SChar p ++ scan r 0 (last_of prev p) tail.
Proof.
  intros Hl Hp. apply (@scan_no_occurrence r t rest tail p prev Hl).
  rewrite <- (app_nil_r p). apply shaped_plain; [exact Hp|apply shaped_nil].
Qed.

Lemma blank_lines_kept (ps : list jsstring) (trail : jsstring) :
  forallb paragraph ps = true ->
  trail = [] \/ trail = [nl; nl] ->
  replace_all re_blank_lines [TLit [nl; nl]] (join [nl; nl] ps ++ trail)
  = join [nl; nl] ps ++ trail.
Proof.
  intros Hps Ht. unfold replace_all.
  apply (@replace_fn_no_occurrence re_blank_lines _ nl [one nl; one nl]);
    [reflexivity|]. now apply source_shaped.
Qed.

Lemma exec_paragraph prev c u :
  N.eqb c nl = false ->
  exec re_paragraph prev (nl :: nl :: c :: u) = Some ([nl; nl], []).
Proof.
  intros Hc.
  apply (@exec_of_rmatch re_paragraph prev [nl; nl] (c :: u) [] (Some nl)).
  unfold re_paragraph, plus, seqs. simpl. unfold one. rewrite Hc. reflexivity.
Qed.

Lemma scan_skip r a rest : forall prev,
  scan r (length a) prev (a ++ rest) = scan r 0 (last_of prev a) rest.
Proof.
  induction a as [|x a IH]; intros prev; [reflexivity|]. simpl. apply IH.
Qed.

Lemma scan_match r prev x w rest caps :
  exec r prev ((x :: w) ++ rest) = Some (x :: w, caps) ->
  scan r 0 prev ((x :: w) ++ rest)
  = SMatch (x :: w) caps :: scan r 0 (last_of prev (x :: w)) rest.
Proof.
  intros H. change ((x :: w) ++ rest) with (x :: w ++ rest) in *.
  cbn [scan]. rewrite H. cbn [length]. now rewrite scan_skip.
Qed.

Lemma paragraphs_broken (ps : list jsstring) (trail : jsstring) : forall prev,
  forallb paragraph ps = true ->
  trail = [] \/ trail = [nl; nl] ->
  render (fun _ caps => subst [TLit (str "</p><p>")] caps)
         (scan re_paragraph 0 prev (join [nl; nl] ps ++ trail))
  = join (str "</p><p>") ps ++ closing trail.
Proof.
  assert (Hl : lead re_paragraph = one nl :: [one nl]) by reflexivity.
  assert (Htr : forall prev, trail = [] \/ trail = [nl; nl] ->
            render (fun _ caps => subst [TLit (str "</p><p>")] caps)
                   (scan re_paragraph 0 prev trail) = closing trail).
  { intros prev [-> | ->]; [reflexivity|]. destruct prev; reflexivity. }
  induction ps as [|p ps IH]; intros prev Hps Ht; [now apply Htr|].
  simpl in Hps. apply andb_true_iff in Hps as [Hp Hps].
  destruct (paragraph_inv _ Hp) as (c & p' & -> & Hc).
  assert (Hnl : Forall (fun x => x <> nl) (c :: p')).
  { apply (avoids_neq nl) in Hc; [exact Hc|]. simpl. intuition. }
  destruct ps as [|q ps].
  - simpl join. rewrite (@scan_over_plain _ _ _ (c :: p') trail prev Hl Hnl).
    rewrite render_app, render_chars, Htr by assumption. reflexivity.
  - rewrite !join_cons, <- !app_assoc.
    rewrite (@scan_over_plain _ _ _ (c :: p') _ prev Hl Hnl).
    rewrite render_app, render_chars. f_equal.
    specialize (IH (Some nl) Hps Ht).
    simpl in Hps. apply andb_true_iff in Hps as [Hq _].
    destruct (paragraph_inv _ Hq) as (d & q' & -> & Hd).
    destruct (join_head [nl; nl] (d :: q') ps) as (rest & Er).
    rewrite Er in *.
    assert (Hdn : N.eqb d nl = false).
    { apply N.eqb_neq. inversion Hd as [|? ? Hx _]; subst.
      intros E; subst. apply Hx. simpl. intuition. }
    rewrite (@scan_match re_paragraph (last_of prev (c :: p')) nl [nl]
               (((d :: q') ++ rest) ++ trail) [])
      by (apply exec_paragraph; exact Hdn).
    cbn [render flat_map last_of fold_left].
    change (flat_map _ ?l) with
      (render (fun _ caps => subst [TLit (str "</p><p>")] caps) l).
    rewrite IH. simpl. reflexivity.
Qed.

Lemma closing_shaped trail :
  shaped (ch "<") (fun v => reopens v \/ closes v) [] (closing trail).
Proof.
  destruct trail; simpl; [apply shaped_nil|].
  apply shaped_hit; [right; eexists; reflexivity|].
  do 3 (apply shaped_skip; [discriminate|]).
  apply shaped_hit; [left; eexists; reflexivity|].
  do 2 (apply shaped_skip; [discriminate|]). apply shaped_nil.
Qed.

Lemma plain_not_lt p :
  Forall (avoids specials) p -> Forall (fun c => c <> ch "<") p.
Proof. apply avoids_neq. simpl. intuition. Qed.

Lemma broken_shaped (ps : list jsstring) (trail : jsstring) :
  forallb paragraph ps = true ->
  shaped (ch "<") (fun v => reopens v \/ closes v) []
         (join (str "</p><p>") ps ++ closing trail).
Proof.
  intros Hps. induction ps as [|p ps IH]; [apply closing_shaped|].
  simpl in Hps. apply andb_true_iff in Hps as [Hp Hps].
  destruct (paragraph_inv _ Hp) as (c & p' & -> & Hc).
  apply plain_not_lt in Hc.
  destruct ps as [|q ps].
  - simpl join. apply shaped_plain; [exact Hc|apply closing_shaped].
  - rewrite join_cons, <- !app_assoc. apply shaped_plain; [exact Hc|].
    specialize (IH Hps). simpl.
    apply shaped_hit; [right; eexists; reflexivity|].
    do 3 (apply shaped_skip; [discriminate|]).
    apply shaped_hit; [left; eexists; reflexivity|].
    do 2 (apply shaped_skip; [discriminate|]). exact IH.
Qed.

Lemma blocks_shaped (ps : list jsstring) (tail : jsstring) :
  forallb paragraph ps = true ->
  shaped (ch "<") (fun v => opens v \/ closes v) tail (blocks ps).
Proof.
  intros Hps. induction ps as [|p ps IH]; [apply shaped_nil|].
  simpl in Hps. apply andb_true_iff in Hps as [Hp Hps].
  destruct (paragraph_inv _ Hp) as (c & p' & -> & Hc).
  apply plain_not_lt in Hc. specialize (IH Hps).
  unfold blocks in *. cbn [flat_map]. rewrite <- !app_assoc.
  change (str "<p>" ++ (c :: p') ++ str "</p>" ++ ?r)
    with (ch "<" :: ch "p" :: ch ">" :: (c :: p') ++ str "</p>" ++ r).
  apply shaped_hit.
  { left. exists c. eexists. split; [reflexivity|]. now inversion Hc. }
  do 2 (apply shaped_skip; [discriminate|]).
  apply shaped_plain; [exact Hc|].
  change (str "</p>" ++ ?r) with (ch "<" :: ch "/" :: ch "p" :: ch ">" :: r).
  apply shaped_hit; [right; eexists; reflexivity|].
  do 3 (apply shaped_skip; [discriminate|]). exact IH.
Qed.

(** After a [<] the texts above go on with [p>] or [/p>]: none of the
    patterns of the later stages can match there. *)
Ltac no_match_after :=
  let v := fresh "v" in
  intros v [(w & ->)|(w & ->)]; reflexivity.

Ltac no_match_inside :=
  let v := fresh "v" in let c := fresh "c" in let Hc := fresh "Hc" in
  let E := fresh "E" in
  intros v [(c & w & -> & Hc)|(w & ->)];
  [assert (E : N.eqb c 60 = false) by (apply N.eqb_neq; exact Hc);
   cbn; unfold one; rewrite ?E; reflexivity
  |reflexivity].

Lemma keep_breaks r t s :
  (exists rest, lead r = one (ch "<") :: rest /\
     forall v, reopens v \/ closes v -> matches rest v = false) ->
  shaped (ch "<") (fun v => reopens v \/ closes v) [] s ->
  replace_all r t s = s.
Proof.
  intros (rest & Hl & Hg) Hs. unfold replace_all.
  apply (@replace_fn_no_occurrence r _ (ch "<") rest s Hl).
  eapply shaped_weaken; [|exact Hs]. exact Hg.
Qed.

Lemma paragraphs_tail s :
  shaped (ch "<") (fun v => reopens v \/ closes v) [] s ->
  Forall (avoids [nl]) s ->
  replace_all (Chr (one nl)) [TLit (str "<br>")]
    (replace_all (before_br (lit "</blockquote>")) [TGroup 1]
      (replace_all (before_br (lit "</ul>")) [TGroup 1]
        (replace_all (before_br (lit "</table>")) [TGroup 1]
          (replace_all (before_br (lit "<hr />")) [TGroup 1]
            (replace_all (before_br re_heading_end) [TGroup 1] s))))) = s.
Proof.
  intros Hs Hn.
  rewrite (@keep_breaks (before_br re_heading_end) _ s)
    by (first [exact Hs | eexists; split; [reflexivity|no_match_after]]).
  rewrite (@keep_breaks (before_br (lit "<hr />")) _ s)
    by (first [exact Hs | eexists; split; [reflexivity|no_match_after]]).
  rewrite (@keep_breaks (before_br (lit "</table>")) _ s)
    by (first [exact Hs | eexists; split; [reflexivity|no_match_after]]).
  rewrite (@keep_breaks (before_br (lit "</ul>")) _ s)
    by (first [exact Hs | eexists; split; [reflexivity|no_match_after]]).
  rewrite (@keep_breaks (before_br (lit "</blockquote>")) _ s)
    by (first [exact Hs | eexists; split; [reflexivity|no_match_after]]).
  apply (@replace_all_dead (avoids [nl])); [prove_dead|exact Hn].
Qed.

Lemma keep_blocks r f s :
  (exists rest, lead r = one (ch "<") :: rest /\
     forall v, opens v \/ closes v -> matches rest v = false) ->
  shaped (ch "<") (fun v => opens v \/ closes v) [] s ->
  replace_fn r f s = s.
Proof.
  intros (rest & Hl & Hg) Hs.
  apply (@replace_fn_no_occurrence r _ (ch "<") rest s Hl).
  eapply shaped_weaken; [|exact Hs]. exact Hg.
Qed.

Lemma empty_paragraph_removed (ps : list jsstring) (trail : jsstring) :
  forallb paragraph ps = true ->
  replace_all (lit "<p></p>") [] (blocks ps ++ leftover trail) = blocks ps.
Proof.
  intros Hps. unfold replace_all, replace_fn, segments.
  rewrite (@scan_no_occurrence (lit "<p></p>") (ch "<")
             (tl (lead (lit "<p></p>"))) (leftover trail) (blocks ps) None);
    [|reflexivity|].
  - rewrite render_app, render_chars.
    destruct trail; simpl leftover.
    + simpl. apply app_nil_r.
    + destruct (last_of None (blocks ps)); simpl; apply app_nil_r.
  - eapply shaped_weaken; [|apply blocks_shaped; exact Hps]. no_match_inside.
Qed.

Lemma cleanup_blocks (ps : list jsstring) (trail : jsstring) :
  forallb paragraph ps = true ->
  cleanup (blocks ps ++ leftover trail) = blocks ps.
Proof.
  intros Hps. unfold cleanup. rewrite (@empty_paragraph_removed ps trail Hps).
  pose proof (@blocks_shaped ps [] Hps) as Hs.
  unfold replace_all.
  rewrite (@keep_blocks (lit "<p><br></p>") _ (blocks ps))
    by (first [exact Hs | eexists; split; [reflexivity|no_match_inside]]).
  rewrite (@keep_blocks (lit "<br><br>") _ (blocks ps))
    by (first [exact Hs | eexists; split; [reflexivity|no_match_inside]]).
  rewrite (@keep_blocks (lit "<p><br>") _ (blocks ps))
    by (first [exact Hs | eexists; split; [reflexivity|no_match_inside]]).
  apply keep_blocks;
    first [exact Hs | eexists; split; [reflexivity|no_match_inside]].
Qed.

Lemma wrap_lists_blocks (ps : list jsstring) :
  forallb paragraph ps = true -> wrap_lists (blocks ps) = blocks ps.
Proof.
  intros Hps. unfold wrap_lists.
  apply keep_blocks;
    first [apply blocks_shaped; exact Hps
          | eexists; split; [reflexivity|no_match_inside]].
Qed.

Lemma wrap_text c s :
  c <> ch "<" -> wrap (c :: s) = str "<p>" ++ (c :: s) ++ str "</p>".
Proof.
  intros Hc. unfold wrap.
  assert (E : N.eqb (ch "<") c = false) by (apply N.eqb_neq; congruence).
  cbn [startsWith str]. 
  change (N_of_ascii "<") with (ch "<"). rewrite E. reflexivity.
Qed.

Lemma wrap_join (sep : jsstring) (c : char) (p' : jsstring) (ps : list jsstring) (t : jsstring) :
  c <> ch "<" ->
  wrap (join sep ((c :: p') :: ps) ++ t)
  = str "<p>" ++ (join sep ((c :: p') :: ps) ++ t) ++ str "</p>".
Proof.
  intros Hc. destruct ps as [|q ps].
  - change (join sep [c :: p'] ++ t) with (c :: (p' ++ t)).
    now apply wrap_text.
  - change (join sep ((c :: p') :: q :: ps) ++ t)
      with (c :: (p' ++ sep ++ join sep (q :: ps)) ++ t).
    now apply wrap_text.
Qed.

Lemma wrapped_blocks (ps : list jsstring) (trail : jsstring) :
  ps <> [] ->
  str "<p>" ++ (join (str "</p><p>") ps ++ closing trail) ++ str "</p>"
  = blocks ps ++ leftover trail.
Proof.
  intros Hne. induction ps as [|p ps IH]; [congruence|].
  destruct ps as [|q ps].
  - simpl join. unfold blocks. cbn [flat_map]. rewrite app_nil_r.
    destruct trail; simpl closing; simpl leftover.
    + now rewrite !app_nil_r.
    + rewrite <- !app_assoc. reflexivity.
  - rewrite join_cons.
    change (blocks (p :: q :: ps))
      with ((str "<p>" ++ p ++ str "</p>") ++ blocks (q :: ps)).
    rewrite <- (app_assoc (str "<p>" ++ p ++ str "</p>")).
    rewrite <- IH by discriminate.
    rewrite <- !app_assoc. reflexivity.
Qed.

Lemma wrap_broken (ps : list jsstring) (trail : jsstring) :
  ps <> [] ->
  forallb paragraph ps = true ->
  wrap (join (str "</p><p>") ps ++ closing trail) = blocks ps ++ leftover trail.
Proof.
  intros Hne Hps. rewrite <- wrapped_blocks by exact Hne.
  destruct ps as [|p ps]; [congruence|].
  simpl in Hps. apply andb_true_iff in Hps as [Hp _].
  destruct (paragraph_inv _ Hp) as (c & p' & -> & Hc).
  apply wrap_join. apply plain_not_lt in Hc. now inversion Hc.
Qed.

Lemma source_marks (ps : list jsstring) (trail : jsstring) :
  forallb paragraph ps = true ->
  trail = [] \/ trail = [nl; nl] ->
  Forall (avoids marks) (join [nl; nl] ps ++ trail).
Proof.
  intros Hps Ht.
  assert (Hnl : Forall (avoids marks) [nl; nl]).
  { repeat constructor; intros H; simpl in H; intuition discriminate. }
  assert (Htr : Forall (avoids marks) trail).
  { destruct Ht as [-> | ->]; [constructor|exact Hnl]. }
  apply Forall_app. split; [|exact Htr].
  induction ps as [|p ps IH]; [constructor|].
  simpl in Hps. apply andb_true_iff in Hps as [Hp Hps].
  destruct (paragraph_inv _ Hp) as (c & p' & -> & Hc).
  assert (Hm : Forall (avoids marks) (c :: p')).
  { eapply avoids_sub; [|exact Hc]. intros x Hx. simpl in *. intuition. }
  destruct ps as [|q ps]; [exact Hm|].
  rewrite join_cons. apply Forall_app. split; [exact Hm|].
  apply Forall_app. split; [exact Hnl|]. now apply IH.
Qed.

Lemma broken_no_nl (ps : list jsstring) (trail : jsstring) :
  forallb paragraph ps = true ->
  Forall (avoids [nl]) (join (str "</p><p>") ps ++ closing trail).
Proof.
  intros Hps.
  assert (Hsep : Forall (avoids [nl]) (str "</p><p>")).
  { repeat constructor; intros H; simpl in H; intuition discriminate. }
  assert (Htr : Forall (avoids [nl]) (closing trail)).
  { destruct trail; [constructor|exact Hsep]. }
  apply Forall_app. split; [|exact Htr].
  induction ps as [|p ps IH]; [constructor|].
  simpl in Hps. apply andb_true_iff in Hps as [Hp Hps].
  destruct (paragraph_inv _ Hp) as (c & p' & -> & Hc).
  assert (Hm : Forall (avoids [nl]) (c :: p')).
  { eapply avoids_sub; [|exact Hc]. intros x Hx. simpl in *. intuition. }
  destruct ps as [|q ps]; [exact Hm|].
  rewrite join_cons. apply Forall_app. split; [exact Hm|].
  apply Forall_app. split; [exact Hsep|]. now apply IH.
Qed.

(** The formatter on plain paragraphs separated by a blank line, with or
    without a blank line at the end: every stage but the paragraph break,
    the wrapping and the removal of the empty paragraph leaves the text as
    it is. *)
Lemma plain_paragraphs (ps : list jsstring) (trail : jsstring) :
  ps <> [] ->
  forallb paragraph ps = true ->
  trail = [] \/ trail = [nl; nl] ->
  formatMessage (join [nl; nl] ps ++ trail) = Some (blocks ps).
Proof.
  intros Hne Hps Ht.
  pose proof (@source_marks ps trail Hps Ht) as Hm.
  unfold formatMessage.
  rewrite fences_none
    by (eapply avoids_sub; [|exact Hm]; intros x Hx; simpl in *; intuition).
  rewrite blank_lines_kept by assumption.
  rewrite tables_none
    by (eapply avoids_sub; [|exact Hm]; intros x Hx; simpl in *; intuition).
  rewrite inline_markup_plain
    by (eapply avoids_sub; [|exact Hm]; intros x Hx; simpl in *; intuition).
  unfold paragraphs. cbv zeta.
  assert (E : replace_all re_paragraph [TLit (str "</p><p>")]
                (join [nl; nl] ps ++ trail)
              = join (str "</p><p>") ps ++ closing trail).
  { apply (@paragraphs_broken ps trail None Hps Ht). }
  rewrite E.
  rewrite (@paragraphs_tail _ (@broken_shaped ps trail Hps) (@broken_no_nl ps trail Hps)).
  rewrite wrap_broken, cleanup_blocks, wrap_lists_blocks by assumption.
  reflexivity.
Qed.

(** C2. The fence [```bash / echo $$ / ```] is shown with the body
    [echo $]: putting the block back with [String.prototype.replace]
    interprets [$$] in the block, so the body of a fence does not always
    reach the output as it was written. *)
Theorem dollar_in_fence_rewritten :
  let out :=
    str "<p>" ++
    code_block (str "bash") (str "echo%20%24%24") (str "echo $" ++ [nl]) ++
    str "</p>" in
  formatMessage (lines ["```bash"; "echo $$"; "```"]%string) = Some out /\
  includes (str "<code>echo $" ++ [nl] ++ str "</code>") out = true /\
  includes (str "echo $$") out = false.
Proof. repeat split; vm_compute; reflexivity. Qed.

Lemma python_fence_rendered :
  formatMessage (lines ["```python"; "print(1)"; "```"]%string)
  = Some (str "<p>" ++
          code_block (str "python") (str "print(1)") (str "print(1)" ++ [nl]) ++
          str "</p>").
Proof. vm_compute. reflexivity. Qed.

Lemma bold_in_fence_literal :
  formatMessage (lines ["```"; "a **bold** <b>"; "```"]%string)
  = Some (str "<p>" ++
          code_block [] (str "a%20**bold**%20%3Cb%3E")
                     (str "a **bold** <b>" ++ [nl]) ++
          str "</p>")
  /\ escape_angles (str "a **bold** <b>") = str "a **bold** &lt;b&gt;".
Proof. split; vm_compute; reflexivity. Qed.

(** C6. On the three lines [|a|b|], [|---|---|], [|1|2|] joined by line
    feeds, the table has the header row only, and [|1|2|] stays behind it as
    text: the table pattern wants a line break after every row. *)
Theorem last_row_without_line_feed :
  formatMessage (lines ["|a|b|"; "|---|---|"; "|1|2|"]%string)
  = Some (html "<table class=@msg-table@><tr><th>a</th><th>b</th></tr></table>|1|2|").
Proof. vm_compute. reflexivity. Qed.

Lemma table_with_final_line_feed :
  formatMessage (lines ["|a|b|"; "|---|---|"; "|1|2|"; ""]%string)
  = Some (html "<table class=@msg-table@><tr><th>a</th><th>b</th></tr><tr><td>1</td><td>2</td></tr></table>").
Proof. vm_compute. reflexivity. Qed.

Lemma lone_row_is_no_table :
  formatMessage (str "|a|b|") = Some (str "<p>|a|b|</p>") /\
  formatMessage (str "|a|b|" ++ [nl]) = Some (str "<p>|a|b|</p>").
Proof. split; vm_compute; reflexivity. Qed.

(** C3. What the code does with the angle brackets of a text outside a
    fence: it copies them. [1 < 2] has no fence and no table and renders as
    [<p>1 < 2</p>], with the [<] of the text, and an element written in the
    text, [<img src=x onerror=alert(1)>], reaches the output as an element.
    The claim says the output has no angle bracket that comes from the
    text. *)
Theorem raw_angle_passes :
  test re_fence (str "1 < 2") = false /\ test tableRegex (str "1 < 2") = false /\
  formatMessage (str "1 < 2") = Some (str "<p>1 < 2</p>") /\
  raw_angle_free (str "<p>1 < 2</p>") = false /\
  test re_fence (str "<img src=x onerror=alert(1)>") = false /\
  test tableRegex (str "<img src=x onerror=alert(1)>") = false /\
  formatMessage (str "<img src=x onerror=alert(1)>")
    = Some (str "<p><img src=x onerror=alert(1)></p>") /\
  ~ (forall x, test re_fence x = false -> test tableRegex x = false ->
               sanitized_and_wrapped x).
Proof.
  do 7 (split; [vm_compute; reflexivity|]).
  intros H.
  destruct (H (str "1 < 2") eq_refl eq_refl (str "<p>1 < 2</p>") eq_refl) as [E _].
  vm_compute in E. discriminate.
Qed.

Lemma line_feed_renders_empty :
  test re_fence [nl] = false /\ test tableRegex [nl] = false /\
  formatMessage [nl] = Some [].
Proof. repeat split; vm_compute; reflexivity. Qed.

(** C9. What the code does when markup pairs up across a blank line, or
    when a text holds the name of a placeholder. [`a] followed by a blank
    line renders as the paragraph [<p>`a</p>]; once [b`] has arrived the
    inline code pattern, whose class admits line feeds, matches from one
    paragraph into the next: that paragraph is gone, and [<code>] and [<p>]
    overlap. [x __CODE_BLOCK_0__] followed by a blank line renders as a
    paragraph; once a fence has arrived, the restore stage puts its block
    in the place of the text [__CODE_BLOCK_0__] of that paragraph, and the
    placeholder of the fence stays. The claim says the block-level elements
    of the prefix are kept. *)
Theorem growth_removes_paragraph :
  formatMessage (str "`a" ++ [nl; nl]) = Some (str "<p>`a</p>") /\
  formatMessage ((str "`a" ++ [nl; nl]) ++ str "b`")
    = Some (html "<p><code class=@inline-code@>a</p><p>b</code></p>") /\
  includes (str "<p>`a</p>")
           (html "<p><code class=@inline-code@>a</p><p>b</code></p>") = false /\
  formatMessage (str "x __CODE_BLOCK_0__" ++ [nl; nl])
    = Some (str "<p>x __CODE_BLOCK_0__</p>") /\
  formatMessage ((str "x __CODE_BLOCK_0__" ++ [nl; nl]) ++ lines ["```"; "y"; "```"]%string)
    = Some (str "<p>x " ++ code_block [] (str "y") (str "y" ++ [nl]) ++
            str "</p><p>__CODE_BLOCK_0__</p>") /\
  includes (str "<p>x __CODE_BLOCK_0__</p>")
           (str "<p>x " ++ code_block [] (str "y") (str "y" ++ [nl]) ++
            str "</p><p>__CODE_BLOCK_0__</p>") = false /\
  ~ stable_under_growth.
Proof.
  do 6 (split; [vm_compute; reflexivity|]).
  intros H.
  assert (E : includes (str "<p>`a</p>")
                (html "<p><code class=@inline-code@>a</p><p>b</code></p>") = true).
  { apply (H (str "`a" ++ [nl; nl]) (str "b`") (str "<p>`a</p>")).
    - exists (str "`a"). reflexivity.
    - vm_compute. reflexivity.
    - vm_compute. reflexivity.
    - exists "p"%string, (str "`a"). repeat split.
      simpl. auto.
    - vm_compute. reflexivity. }
  vm_compute in E. discriminate.
Qed.

Lemma tag_at_other c s : c <> ch "<" -> tag_at (c :: s) = None.
Proof.
  intros Hc. unfold tag_at. apply N.eqb_neq in Hc. now rewrite Hc.
Qed.

Lemma outside_plain p rest :
  Forall (fun c => c <> ch "<") p ->
  outside_tags 0 (p ++ rest) = p ++ outside_tags 0 rest.
Proof.
  induction 1 as [|c p Hc _ IH]; [reflexivity|].
  simpl app. cbn [outside_tags]. rewrite (tag_at_other _ Hc). now rewrite IH.
Qed.

Lemma outside_blocks (ps : list jsstring) :
  forallb paragraph ps = true -> outside_tags 0 (blocks ps) = concat ps.
Proof.
  induction ps as [|p ps IH]; intros Hps; [reflexivity|].
  simpl in Hps. apply andb_true_iff in Hps as [Hp Hps].
  destruct (paragraph_inv _ Hp) as (c & p' & -> & Hc).
  apply plain_not_lt in Hc.
  change (blocks ((c :: p') :: ps))
    with ((str "<p>" ++ (c :: p') ++ str "</p>") ++ blocks ps).
  rewrite <- !app_assoc.
  change (outside_tags 0 (str "<p>" ++ ?s)) with (outside_tags 0 s).
  rewrite (outside_plain _ Hc).
  change (outside_tags 0 (str "</p>" ++ ?s)) with (outside_tags 0 s).
  rewrite (IH Hps). reflexivity.
Qed.

Lemma plain_no_angle p :
  plain_text p = true -> forallb (fun c => negb (angle c)) p = true.
Proof.
  unfold plain_text. intros H. apply forallb_forall. intros c Hin.
  rewrite forallb_forall in H. specialize (H c Hin).
  unfold plain in H. apply negb_true_iff in H.
  unfold angle. apply negb_true_iff.
  destruct (N.eqb c (ch "<")) eqn:E1.
  { apply N.eqb_eq in E1. subst. discriminate. }
  destruct (N.eqb c (ch ">")) eqn:E2.
  { apply N.eqb_eq in E2. subst. discriminate. }
  reflexivity.
Qed.

Lemma paragraph_plain p : paragraph p = true -> plain_text p = true.
Proof. destruct p; [discriminate|auto]. Qed.

Lemma blocks_angle_free (ps : list jsstring) :
  forallb paragraph ps = true -> raw_angle_free (blocks ps) = true.
Proof.
  intros Hps. unfold raw_angle_free. rewrite (outside_blocks _ Hps).
  induction ps as [|p ps IH]; [reflexivity|].
  simpl in Hps. apply andb_true_iff in Hps as [Hp Hps].
  simpl. rewrite forallb_app, (plain_no_angle _ (paragraph_plain _ Hp)).
  now apply IH.
Qed.

Lemma join_app (sep : jsstring) (qs rs : list jsstring) :
  qs <> [] -> rs <> [] ->
  join sep (qs ++ rs) = join sep qs ++ sep ++ join sep rs.
Proof.
  intros Hq Hr. induction qs as [|q qs IH]; [congruence|].
  destruct qs as [|q' qs].
  - destruct rs as [|r rs]; [congruence|]. reflexivity.
  - change (join sep ((q :: q' :: qs) ++ rs))
      with (q ++ sep ++ join sep ((q' :: qs) ++ rs)).
    rewrite IH by discriminate. rewrite join_cons, <- !app_assoc. reflexivity.
Qed.

(** A text made of one or more paragraphs separated by a blank line, each
    paragraph non-empty and without backquote, bar, angle bracket, hash,
    star, hyphen, full stop, opening square bracket or line feed, renders
    as these paragraphs, each between [<p>] and [</p>]: the output has no
    angle bracket outside the emitted tags, is not empty and starts with a
    block tag. *)
Lemma plain_text_rendering (ps : list jsstring) :
  ps <> [] ->
  forallb paragraph ps = true ->
  formatMessage (join [nl; nl] ps) = Some (blocks ps) /\
  sanitized_and_wrapped (join [nl; nl] ps).
Proof.
  intros Hne Hps.
  assert (E : formatMessage (join [nl; nl] ps) = Some (blocks ps)).
  { rewrite <- (app_nil_r (join [nl; nl] ps)).
    apply plain_paragraphs; auto. }
  split; [exact E|]. intros out Hout. rewrite E in Hout.
  injection Hout as <-. split; [now apply blocks_angle_free|].
  intros _. destruct ps as [|p ps]; [congruence|]. split.
  - unfold blocks. cbn [flat_map]. discriminate.
  - reflexivity.
Qed.

(** For plain paragraphs [qs] followed by plain paragraphs [rs], the prefix
    that ends at the blank line after [qs] renders as the blocks of [qs],
    and the whole text renders as the blocks of [qs] followed by those of
    [rs]. *)
Lemma completed_paragraphs_stable (qs rs : list jsstring) :
  qs <> [] -> rs <> [] ->
  forallb paragraph qs = true ->
  forallb paragraph rs = true ->
  at_paragraph_boundary (join [nl; nl] qs ++ [nl; nl]) /\
  formatMessage (join [nl; nl] qs ++ [nl; nl]) = Some (blocks qs) /\
  formatMessage ((join [nl; nl] qs ++ [nl; nl]) ++ join [nl; nl] rs)
    = Some (blocks qs ++ blocks rs).
Proof.
  intros Hq Hr Pq Pr. split; [eexists; reflexivity|].
  split; [apply plain_paragraphs; auto|].
  rewrite <- app_assoc, <- join_app by assumption.
  rewrite <- (app_nil_r (join [nl; nl] (qs ++ rs))).
  rewrite plain_paragraphs; auto.
  - unfold blocks. now rewrite flat_map_app.
  - destruct qs; [congruence|discriminate].
  - rewrite forallb_app, Pq, Pr. reflexivity.
Qed.

(** ** Runs of the stream consumer *)

Lemma frame_lost_between_reads_witness :
  firstn 3 hello_body ++ skipn 3 hello_body = hello_body /\
  (exists st',
     sendMessage demo_truthy demo_to_string demo_parse demo_store None demo_fresh
                 (Body [hello_body] EndOfStream) demo_store = Some (st', Resolved) /\
     messages st' =
       [Message.Build (str "u1") user (str "hi") (str "10:00 AM") None;
        Message.Build (str "a1") assistant (str "Hello") (str "10:00 AM") (Some false)]) /\
  (exists st',
     sendMessage demo_truthy demo_to_string demo_parse demo_store None demo_fresh
                 (Body [str "dat"; skipn 3 hello_body] EndOfStream) demo_store
       = Some (st', Resolved) /\
     messages st' =
       [Message.Build (str "u1") user (str "hi") (str "10:00 AM") None;
        Message.Build (str "a1") assistant (str "llo") (str "10:00 AM") (Some false)]).
Proof.
  apply (@frame_lost_between_reads N demo_truthy demo_to_string demo_parse
           eq_refl eq_refl eq_refl demo_store None demo_fresh demo_store);
    reflexivity.
Defined.

Lemma stream_end_without_done_witness :
  exists st' a,
    sendMessage demo_truthy demo_to_string demo_parse demo_store None demo_fresh
                (Body [html "data: {@chunk@:@He@}" ++ [nl]] EndOfStream) demo_store
      = Some (st', Resolved) /\
    messages st' =
      [Message.Build (str "u1") user (str "hi") (str "10:00 AM") None; a] /\
    Message.isStreaming a = Some true /\
    isLoading st' = false.
Proof.
  apply (@stream_end_without_done N demo_truthy demo_to_string demo_parse
           demo_store None demo_fresh
           [html "data: {@chunk@:@He@}" ++ [nl]] demo_store eq_refl eq_refl eq_refl).
  reflexivity.
Defined.



Lemma retry_without_replay_witness :
  (exists mid,
     awaiting_read demo_truthy demo_to_string demo_parse demo_store None
                   demo_fresh [hello_body] demo_store = Some mid /\
     isLoading mid = true /\
     messages mid =
       [Message.Build (str "u1") user (str "hi") (str "10:00 AM") None;
        Message.Build (str "a1") assistant (str "Hello") (str "10:00 AM") (Some false)] /\
     exists st1,
       retryMessage mid 1 mid = (st1, Some (str "hi")) /\
       messages st1 = [] /\
       retry_fires demo_truthy demo_to_string demo_parse mid (str "hi") demo_fresh
                   (Body demo_chunks EndOfStream) st1 = Some (st1, Resolved)) /\
  (exists st0,
     sendMessage demo_truthy demo_to_string demo_parse demo_pictured None demo_fresh
                 (Body demo_chunks EndOfStream) demo_pictured = Some (st0, Resolved) /\
     messages st0 =
       [Message.Build (str "u1") user [] (str "10:00 AM") None;
        Message.Build (str "a1") assistant (str "Hello") (str "10:00 AM") (Some false)] /\
     exists st1,
       retryMessage st0 1 st0 = (st1, Some []) /\
       messages st1 = [] /\
       retry_fires demo_truthy demo_to_string demo_parse st0 [] demo_fresh
                   (Body demo_chunks EndOfStream) st1 = Some (st1, Resolved)).
Proof.
  split.
  - eexists. split; [reflexivity|]. split; [reflexivity|]. split; [reflexivity|].
    apply (@retry_without_replay N demo_truthy demo_to_string demo_parse _ []
             (Message.Build (str "u1") user (str "hi") (str "10:00 AM") None)
             [Message.Build (str "a1") assistant (str "Hello") (str "10:00 AM")
                            (Some false)]
             demo_fresh (Body demo_chunks EndOfStream));
      [reflexivity | reflexivity | left; reflexivity].
  - eexists. split; [reflexivity|]. split; [reflexivity|].
    apply (@retry_without_replay N demo_truthy demo_to_string demo_parse _ []
             (Message.Build (str "u1") user [] (str "10:00 AM") None)
             [Message.Build (str "a1") assistant (str "Hello") (str "10:00 AM")
                            (Some false)]
             demo_fresh (Body demo_chunks EndOfStream));
      [reflexivity | reflexivity | right; repeat split; reflexivity].
Defined.

Lemma renameChat_frame_witness :
  chats (renameChat (str "c1") (str "   ") demo_chats) = chats demo_chats /\
  exists c',
    nth_error (chats (renameChat (str "c1") (str " Renamed ") demo_chats)) 0
      = Some c' /\
    Chat.title c' = str "Renamed" /\ Chat.created c' = Chat.created (demo_chat "c1" "First").
Proof.
  split.
  - apply (proj1 (renameChat_frame (str "c1") (str "   ") demo_chats)).
    reflexivity.
  - destruct (proj2 (renameChat_frame (str "c1") (str " Renamed ") demo_chats)
                eq_refl) as [_ H].
    destruct (H 0 (demo_chat "c1" "First") eq_refl)
      as (c' & E & _ & _ & _ & Hc & _ & _ & Ht & _).
    exists c'. split; [exact E|]. split; [apply Ht; reflexivity|exact Hc].
Defined.

(** * The rest of the page *)

Import Workspace Theme Clock Quantifier DemoView Headings Lines Inline Bullets ListRun Links.

(** ** The chat list *)

Lemma eqs_refl a : eqs a a = true.
Proof. now apply eqs_spec. Qed.

Lemma eqs_false a b : eqs a b = false <-> a <> b.
Proof.
  split.
  - intros H E. apply eqs_spec in E. congruence.
  - intros H. destruct (eqs a b) eqn:E; [|reflexivity].
    apply eqs_spec in E. contradiction.
Qed.

Lemma with_messages_id c m : Chat.id (with_messages c m) = Chat.id c.
Proof. reflexivity. Qed.

Lemma save_idempotent snap st :
  saveCurrentChat snap (saveCurrentChat snap st) = saveCurrentChat snap st.
Proof.
  unfold saveCurrentChat. destruct (currentChatId snap) as [id|]; [|reflexivity].
  destruct (nonempty id && (0 <? length (messages snap))); [|reflexivity].
  destruct st. unfold setChats. simpl. f_equal.
  rewrite map_map. apply map_ext. intros c.
  destruct (eqs (Chat.id c) id) eqn:E.
  - rewrite with_messages_id, E. reflexivity.
  - now rewrite E.
Qed.

(** X1. [saveCurrentChat], called from a render with an open chat and a
    non-empty conversation, leaves the messages of the page alone and keeps
    the length and the order of the chat list. A chat with another id is
    unchanged; a chat with the open id gets the messages of that render and,
    as [lastMessage], the first 100 code units of the last message, and
    keeps its id, title, star and creation date. *)
Theorem save_writes_conversation snap st id :
  currentChatId snap = Some id ->
  id <> [] ->
  messages snap <> [] ->
  messages (saveCurrentChat snap st) = messages st /\
  length (chats (saveCurrentChat snap st)) = length (chats st) /\
  forall i c, nth_error (chats st) i = Some c ->
    exists c', nth_error (chats (saveCurrentChat snap st)) i = Some c' /\
      (Chat.id c <> id -> c' = c) /\
      (Chat.id c = id ->
         Chat.messages c' = messages snap /\
         Chat.lastMessage c' =
           option_map (fun m => firstn 100 (Message.content m))
                      (nth_error (messages snap) (length (messages snap) - 1)) /\
         Chat.id c' = id /\ Chat.title c' = Chat.title c /\
         Chat.starred c' = Chat.starred c /\ Chat.created c' = Chat.created c).
Proof.
  intros Hc Hid Hm. unfold saveCurrentChat. rewrite Hc.
  assert (G : nonempty id && (0 <? length (messages snap)) = true).
  { destruct id; [congruence|]. destruct (messages snap); [congruence|]. reflexivity. }
  rewrite G. simpl. split; [reflexivity|]. split; [apply length_map|].
  intros i c Hi. rewrite nth_error_map, Hi. simpl.
  destruct (eqs (Chat.id c) id) eqn:E; eexists; (split; [reflexivity|]).
  - apply eqs_spec in E. split; [congruence|]. intros _. simpl. auto 10.
  - apply eqs_false in E. split; [reflexivity|]. intros; contradiction.
Qed.

Lemma find_chat_map_id (g : Chat.t -> Chat.t) id cs c :
  (forall x, Chat.id (g x) = Chat.id x) ->
  find_chat id cs = Some c ->
  find_chat id (map g cs) = Some (g c).
Proof.
  intros Hg. unfold find_chat. induction cs as [|x cs IH]; simpl; [discriminate|].
  rewrite Hg. destruct (eqs (Chat.id x) id); [congruence|exact IH].
Qed.

Lemma find_chat_id id cs c : find_chat id cs = Some c -> Chat.id c = id.
Proof.
  unfold find_chat. intros H. apply find_some in H as [_ H]. now apply eqs_spec.
Qed.

Lemma find_chat_some id cs :
  (exists c, In c cs /\ Chat.id c = id) -> exists c, find_chat id cs = Some c.
Proof.
  intros (c & Hin & Hc). unfold find_chat.
  destruct (find (fun c0 => eqs (Chat.id c0) id) cs) eqn:E; [eauto|].
  apply (find_none _ _ E) in Hin. rewrite Hc, eqs_refl in Hin. discriminate.
Qed.

Lemma save_chats snap st :
  exists g, (forall x, Chat.id (g x) = Chat.id x) /\
            chats (saveCurrentChat snap st) = map g (chats st) /\
            (forall x id, currentChatId snap = Some id -> id <> [] ->
                          messages snap <> [] -> Chat.id x = id ->
                          g x = with_messages x (messages snap)) /\
            (forall x, match currentChatId snap with
                       | Some id => Chat.id x <> id
                       | None => True end -> g x = x).
Proof.
  unfold saveCurrentChat. destruct (currentChatId snap) as [id|].
  - destruct (nonempty id && (0 <? length (messages snap))) eqn:G.
    + exists (fun chat => if eqs (Chat.id chat) id
                          then with_messages chat (messages snap) else chat).
      split; [|split; [reflexivity|split]].
      * intros x. now destruct (eqs (Chat.id x) id).
      * intros x id' E _ _ Hx. injection E as <-. now rewrite Hx, eqs_refl.
      * intros x Hx. apply eqs_false in Hx. now rewrite Hx.
    + exists (fun x => x). split; [reflexivity|]. split; [now rewrite map_id|].
      split; [|reflexivity].
      intros x id' E Hid Hm _. injection E as <-.
      destruct id; [congruence|]. destruct (messages snap); [congruence|]. discriminate.
  - exists (fun x => x). split; [reflexivity|]. split; [now rewrite map_id|].
    split; [discriminate|reflexivity].
Qed.

(** X2. [newChat] with a conversation open (its chat is in the list, it has
    messages): the list grows by the empty chat, which comes first and
    becomes the current chat, the message list is emptied, the page is the
    chat page, and the list holds a chat with the id of the conversation
    that was open, with its messages. *)
Theorem newChat_keeps_conversation v f id :
  currentChatId (store v) = Some id ->
  id <> [] ->
  messages (store v) <> [] ->
  (exists c, In c (chats (store v)) /\ Chat.id c = id) ->
  length (chats (store (newChat v f v))) = S (length (chats (store v))) /\
  nth_error (chats (store (newChat v f v))) 0 = Some (empty_chat f) /\
  currentChatId (store (newChat v f v)) = Some (chat_id f) /\
  messages (store (newChat v f v)) = [] /\
  page (newChat v f v) = page_chat /\
  exists c', In c' (chats (store (newChat v f v))) /\ Chat.id c' = id /\
             Chat.messages c' = messages (store v).
Proof.
  intros Hc Hid Hm (c & Hin & Hci).
  destruct (save_chats (store v) (store v)) as (g & Hg & E & Hu & _).
  unfold newChat. simpl. rewrite E. simpl. rewrite length_map.
  repeat split.
  exists (g c). split; [right; now apply in_map|].
  rewrite Hg. split; [exact Hci|].
  now rewrite (Hu c id Hc Hid Hm Hci).
Qed.

(** X3. [goHome] does what [newChat] does: the second [saveCurrentChat]
    writes what the first one wrote. *)
Theorem goHome_is_newChat snap f v : goHome snap f v = newChat snap f v.
Proof.
  unfold goHome, newChat. destruct v as [st p t m s q c]. unfold on_store. simpl.
  now rewrite save_idempotent.
Qed.

(** X4. From a conversation with messages whose chat is in the list,
    [switchChat] to a chat of the list shows the messages stored in that
    chat and makes it current; [switchChat] back to the first chat, from the
    next render, shows the messages the conversation had. *)
Theorem switch_and_back v a b cb :
  currentChatId (store v) = Some a ->
  a <> [] ->
  messages (store v) <> [] ->
  (exists c, In c (chats (store v)) /\ Chat.id c = a) ->
  find_chat b (chats (store v)) = Some cb ->
  let v1 := switchChat v b v in
  let v2 := switchChat v1 a v1 in
  currentChatId (store v1) = Some b /\
  messages (store v1) = Chat.messages cb /\
  currentChatId (store v2) = Some a /\
  messages (store v2) = messages (store v).
Proof.
  intros Hc Hid Hm Ha Hb v1 v2.
  destruct (save_chats (store v) (store v)) as (g & Hg & E & Hu & _).
  assert (E1 : v1 = setPage page_chat
                 (on_store (setMessages (fun _ => Chat.messages cb))
                   (on_store (setCurrentChatId (Some b))
                     (on_store (saveCurrentChat (store v)) v)))).
  { unfold v1, switchChat. now rewrite Hb. }
  assert (C1 : chats (store v1) = map g (chats (store v))).
  { rewrite E1. simpl. exact E. }
  destruct (@find_chat_some a _ Ha) as (ca & Fa).
  assert (F1 : find_chat a (chats (store v1)) = Some (g ca)).
  { rewrite C1. now apply find_chat_map_id. }
  assert (M1 : Chat.messages (g ca) = messages (store v)).
  { rewrite (Hu ca a Hc Hid Hm (find_chat_id _ _ Fa)). reflexivity. }
  split; [now rewrite E1|]. split; [now rewrite E1|].
  unfold v2, switchChat. rewrite F1. simpl. auto.
Qed.

(** X5. After [deleteChat] a chat is in the list exactly when it was there
    and has another id. The conversation is closed (no current chat, no
    message) when the deleted chat was the current one, and is as it was
    otherwise; the toast says [Chat deleted]. *)
Theorem deleteChat_removes v chatId :
  let v' := deleteChat v chatId v in
  (forall c, In c (chats (store v')) <->
             In c (chats (store v)) /\ Chat.id c <> chatId) /\
  (currentChatId (store v) = Some chatId ->
   currentChatId (store v') = None /\ messages (store v') = []) /\
  (currentChatId (store v) <> Some chatId ->
   currentChatId (store v') = currentChatId (store v) /\
   messages (store v') = messages (store v)) /\
  toast v' = Some (str "Chat deleted").
Proof.
  intros v'. unfold v', deleteChat, is_current. split; [|split; [|split]].
  - intros c.
    assert (E : chats (store (showToast (str "Chat deleted")
                  (if match currentChatId (store v) with
                      | Some id => eqs id chatId | None => false end
                   then close_conversation
                          (on_store (setChats (filter (fun c0 => negb (eqs (Chat.id c0) chatId)))) v)
                   else on_store (setChats (filter (fun c0 => negb (eqs (Chat.id c0) chatId)))) v)))
                = filter (fun c0 => negb (eqs (Chat.id c0) chatId)) (chats (store v))).
    { destruct (currentChatId (store v)) as [id|]; [destruct (eqs id chatId)|]; reflexivity. }
    rewrite E, filter_In, negb_true_iff, eqs_false. reflexivity.
  - intros Hc. rewrite Hc, eqs_refl. split; reflexivity.
  - intros Hc. destruct (currentChatId (store v)) as [id|] eqn:Ei.
    + destruct (eqs id chatId) eqn:E.
      * apply eqs_spec in E. congruence.
      * simpl. now rewrite Ei.
    + simpl. now rewrite Ei.
  - destruct (currentChatId (store v)) as [id|]; [destruct (eqs id chatId)|]; reflexivity.
Qed.

(** X6. [starChat] twice on the same id gives the state back. *)
Theorem starChat_twice chatId v : starChat chatId (starChat chatId v) = v.
Proof.
  destruct v as [st p t m s q c]. destruct st as [ms i l ts cs cur ip im rc rv se cm].
  unfold starChat, on_store, setChats.
  simpl. do 2 f_equal. rewrite map_map. rewrite <- (map_id cs) at 2.
  apply map_ext. intros x. destruct (eqs (Chat.id x) chatId) eqn:E; simpl.
  - rewrite E. destruct x. unfold with_starred. simpl. now rewrite negb_involutive.
  - now rewrite E.
Qed.

Lemma has_delete x id s :
  has x (set_delete id s) = has x s && negb (eqs x id).
Proof.
  unfold has, set_delete. induction s as [|y s IH]; [reflexivity|]. simpl.
  destruct (eqs y id) eqn:E; simpl.
  - rewrite IH. apply eqs_spec in E. subst y.
    destruct (eqs x id) eqn:E2; simpl; [now rewrite andb_false_r|reflexivity].
  - rewrite IH. destruct (eqs x y) eqn:E2; simpl; [|reflexivity].
    apply eqs_spec in E2. subst y. now rewrite E.
Qed.

Lemma has_add x id s : has x (set_add id s) = has x s || eqs x id.
Proof.
  unfold set_add. destruct (has id s) eqn:H.
  - destruct (eqs x id) eqn:E; [|now rewrite orb_false_r].
    apply eqs_spec in E. subst. now rewrite H.
  - unfold has. rewrite existsb_app. simpl. now rewrite orb_false_r.
Qed.

Lemma has_In x s : has x s = true <-> In x s.
Proof.
  unfold has. rewrite existsb_exists. split.
  - intros (y & Hy & E). apply eqs_spec in E. now subst.
  - intros H. exists x. split; [exact H|apply eqs_refl].
Qed.

Lemma delete_absent id s : has id s = false -> set_delete id s = s.
Proof.
  unfold has, set_delete. induction s as [|y s IH]; [reflexivity|]. simpl.
  intros H. apply orb_false_iff in H as [H1 H2].
  assert (E : eqs y id = false).
  { apply eqs_false. apply eqs_false in H1. congruence. }
  rewrite E. simpl. now rewrite IH.
Qed.

Lemma delete_length id s :
  NoDup s -> has id s = true -> S (length (set_delete id s)) = length s.
Proof.
  induction 1 as [|y s Hy Hs IH]; [discriminate|]. unfold set_delete in *. simpl.
  intros H. destruct (eqs y id) eqn:E; simpl.
  - apply eqs_spec in E. subst y.
    fold (set_delete id s). rewrite delete_absent; [reflexivity|].
    destruct (has id s) eqn:F; [|reflexivity]. apply has_In in F. contradiction.
  - f_equal. apply IH. unfold has in *. simpl in H.
    assert (E' : eqs id y = false).
    { apply eqs_false. apply eqs_false in E. congruence. }
    now rewrite E' in H.
Qed.

Lemma delete_NoDup id s : NoDup s -> NoDup (set_delete id s).
Proof. apply NoDup_filter. Qed.

Lemma add_NoDup id s : NoDup s -> NoDup (set_add id s).
Proof.
  intros H. unfold set_add. destruct (has id s) eqn:E; [exact H|].
  apply NoDup_app; [exact H|repeat constructor; auto|].
  intros x Hx [<-|[]]. apply has_In in Hx. congruence.
Qed.

(** X7. [toggleChatSelection] flips the membership of the given id in the
    selection and of no other id, and toggling twice gives every id the
    membership it had. On a selection without repetition the size goes
    down by one when the id was selected and up by one when it was not. *)
Theorem toggle_selection chatId v :
  let once := toggleChatSelection chatId v in
  let twice := toggleChatSelection chatId once in
  (forall x, has x (selectedChats once) =
             if eqs x chatId then negb (has chatId (selectedChats v))
             else has x (selectedChats v)) /\
  (forall x, has x (selectedChats twice) = has x (selectedChats v)) /\
  (NoDup (selectedChats v) ->
   NoDup (selectedChats once) /\
   length (selectedChats twice) = length (selectedChats v) /\
   length (selectedChats once) =
     if has chatId (selectedChats v) then length (selectedChats v) - 1
     else length (selectedChats v) + 1).
Proof.
  intros once twice.
  assert (H1 : forall s x,
             has x (if has chatId s then set_delete chatId s else set_add chatId s) =
             if eqs x chatId then negb (has chatId s) else has x s).
  { intros s x. destruct (has chatId s) eqn:H.
    - rewrite has_delete. destruct (eqs x chatId) eqn:E; simpl.
      + now rewrite andb_false_r.
      + now rewrite andb_true_r.
    - rewrite has_add. destruct (eqs x chatId) eqn:E; simpl.
      + now rewrite orb_true_r.
      + now rewrite orb_false_r. }
  split; [intros x; apply H1|]. split.
  - intros x. unfold twice, toggleChatSelection. simpl. rewrite H1.
    destruct (eqs x chatId) eqn:E.
    + unfold once. simpl. rewrite H1, eqs_refl, negb_involutive.
      apply eqs_spec in E. now subst.
    + unfold once. simpl. now rewrite H1, E.
  - intros Hn. unfold twice, once, toggleChatSelection. simpl.
    destruct (has chatId (selectedChats v)) eqn:H.
    + pose proof (@delete_length chatId _ Hn H) as L.
      assert (Hd : has chatId (set_delete chatId (selectedChats v)) = false).
      { now rewrite has_delete, eqs_refl, andb_false_r. }
      rewrite Hd. split; [now apply delete_NoDup|]. split.
      * unfold set_add. rewrite Hd, length_app. simpl. lia.
      * lia.
    + assert (Ha : has chatId (set_add chatId (selectedChats v)) = true).
      { now rewrite has_add, eqs_refl, orb_true_r. }
      rewrite Ha. split; [now apply add_NoDup|]. split.
      * unfold set_add at 1. rewrite H.
        pose proof (@delete_length chatId (selectedChats v ++ [chatId])) as L.
        unfold set_add in Ha, L. rewrite H in Ha.
        assert (Hn' : NoDup (selectedChats v ++ [chatId])).
        { pose proof (@add_NoDup chatId _ Hn) as X. unfold set_add in X.
          now rewrite H in X. }
        specialize (L Hn' Ha). rewrite length_app in L. simpl in L. lia.
      * unfold set_add. rewrite H, length_app. simpl. lia.
Qed.

Lemma has_set_of_acc x l acc :
  has x (fold_left (fun s id => set_add id s) l acc) = has x acc || existsb (eqs x) l.
Proof.
  revert acc. induction l as [|y l IH]; intros acc; simpl.
  - now rewrite orb_false_r.
  - rewrite IH, has_add. now rewrite orb_assoc.
Qed.

Lemma has_set_of x l : has x (set_of l) = existsb (eqs x) l.
Proof. unfold set_of. now rewrite has_set_of_acc. Qed.

Lemma set_of_NoDup l : NoDup (set_of l).
Proof.
  unfold set_of. assert (H : forall acc, NoDup acc ->
    NoDup (fold_left (fun s id => set_add id s) l acc)).
  { induction l as [|y l IH]; intros acc Ha; simpl; [exact Ha|].
    apply IH. now apply add_NoDup. }
  apply H. constructor.
Qed.

(** X8. [selectAllChats] selects exactly the ids of the chats the search
    shows. [deleteSelectedChats], from the next render, keeps exactly the
    chats whose id no shown chat has: the search shows nothing afterwards;
    the selection is empty and the select mode is off. *)
Theorem select_all_then_delete (toLowerCase : jsstring -> jsstring) v :
  let v1 := selectAllChats toLowerCase v v in
  let v2 := deleteSelectedChats v1 v1 in
  (forall id, has id (selectedChats v1) = true <->
              exists c, In c (filteredChats toLowerCase v) /\ Chat.id c = id) /\
  (forall c, In c (chats (store v2)) <->
             In c (chats (store v)) /\
             forall c', In c' (filteredChats toLowerCase v) -> Chat.id c' <> Chat.id c) /\
  (forall c, In c (filteredChats toLowerCase v2) -> False) /\
  selectedChats v2 = [] /\ selectMode v2 = false.
Proof.
  intros v1 v2.
  assert (S1 : forall id, has id (selectedChats v1) = true <->
              exists c, In c (filteredChats toLowerCase v) /\ Chat.id c = id).
  { intros id. unfold v1, selectAllChats. simpl. rewrite has_set_of, existsb_exists.
    split.
    - intros (x & Hx & E). apply in_map_iff in Hx as (c & <- & Hc).
      apply eqs_spec in E. now exists c.
    - intros (c & Hc & <-). exists (Chat.id c). split; [now apply in_map|apply eqs_refl]. }
  assert (C2 : chats (store v2) =
               filter (fun c => negb (has (Chat.id c) (selectedChats v1))) (chats (store v))).
  { unfold v2, deleteSelectedChats.
    destruct (currentChatId (store v1)) as [id|];
      [destruct (nonempty id && has id (selectedChats v1))|]; reflexivity. }
  assert (S2 : forall c, In c (chats (store v2)) <->
             In c (chats (store v)) /\
             forall c', In c' (filteredChats toLowerCase v) -> Chat.id c' <> Chat.id c).
  { intros c. rewrite C2, filter_In, negb_true_iff. split; intros [Hc Hn]; split; auto.
    - intros c' Hc' E. assert (X : has (Chat.id c) (selectedChats v1) = true).
      { apply S1. now exists c'. }
      congruence.
    - destruct (has (Chat.id c) (selectedChats v1)) eqn:E; [|reflexivity].
      apply S1 in E as (c' & Hc' & E). now apply Hn in Hc'. }
  split; [exact S1|]. split; [exact S2|]. split; [|split].
  - intros c Hc. unfold filteredChats in Hc. apply filter_In in Hc as [Hc Hm].
    apply S2 in Hc as [Hc Hn]. apply (Hn c); [|reflexivity].
    unfold filteredChats. apply filter_In. split; [exact Hc|].
    replace (searchQuery v) with (searchQuery v2); [exact Hm|].
    unfold v2, deleteSelectedChats.
    destruct (currentChatId (store v1)) as [id|];
      [destruct (nonempty id && has id (selectedChats v1))|]; reflexivity.
  - reflexivity.
  - reflexivity.
Qed.

(** X10. Ctrl+K or Cmd+K: the listener was installed by the first render,
    whose [newChat] saves the conversation of that render, which has none.
    Whatever conversation is open when the key is pressed, the chat list
    only gets the empty chat in front, which becomes current with an empty
    message list: the messages of the open conversation are not written to
    its chat. *)
Theorem shortcut_new_chat_skips_save model f e v :
  (ctrlKey e || metaKey e) = true -> key e = str "k" ->
  let v' := handleKeyDown (first_render model) f e v in
  chats (store v') = empty_chat f :: chats (store v) /\
  currentChatId (store v') = Some (chat_id f) /\
  messages (store v') = [] /\
  page v' = page_chat.
Proof.
  intros Hm Hk v'. unfold v', handleKeyDown. rewrite Hm, Hk. simpl.
  destruct (shiftKey e); simpl; repeat split; reflexivity.
Qed.

(** X11. [toggleTheme] always yields [light] or [dark], never the theme it
    started from, and writes it to the document attribute and to the local
    storage; a page started over that storage has the same theme, attribute
    and storage. From [light] or [dark], two toggles give the theme back. *)
Theorem theme_round_trip a :
  let a' := toggleTheme a in
  (theme a' = str "light" \/ theme a' = str "dark") /\
  theme a' <> theme a /\
  data_theme a' = Some (theme a') /\
  startup (saved a') = a' /\
  (theme a = str "light" \/ theme a = str "dark" ->
   theme (toggleTheme a') = theme a).
Proof.
  intros a'. unfold a', toggleTheme.
  destruct (eqs (theme a) (str "light")) eqn:E.
  - apply eqs_spec in E. rewrite E. simpl. repeat split; auto. discriminate.
  - simpl. apply eqs_false in E. repeat split; auto.
    intros [H|H]; [contradiction|now rewrite H].
Qed.

Section Ago.

Variable toLocaleDateString : Z -> jsstring.

(** X12. [getTimeAgo] by the age in milliseconds: [just now] under one
    minute (also for a date in the future), [Nm ago] for a whole number N of
    minutes from 1 to 59, [Nh ago] for N hours from 1 to 23, [Nd ago] for N
    days from 1 to 6, and the locale date from seven days on. *)
Theorem getTimeAgo_buckets (now d : Z) :
  let age := (now - d)%Z in
  let shown := getTimeAgo toLocaleDateString now (Some d) in
  ((age < 60000)%Z -> shown = str "just now") /\
  (forall m, (1 <= m < 60)%Z -> (60000 * m <= age < 60000 * (m + 1))%Z ->
             shown = decimal (Z.to_nat m) ++ str "m ago") /\
  (forall h, (1 <= h < 24)%Z -> (3600000 * h <= age < 3600000 * (h + 1))%Z ->
             shown = decimal (Z.to_nat h) ++ str "h ago") /\
  (forall n, (1 <= n < 7)%Z -> (86400000 * n <= age < 86400000 * (n + 1))%Z ->
             shown = decimal (Z.to_nat n) ++ str "d ago") /\
  ((7 * 86400000 <= age)%Z -> shown = toLocaleDateString d).
Proof.
  intros age shown. unfold shown, getTimeAgo. fold age.
  assert (Q : forall k q, (0 < k)%Z -> (k * q <= age < k * (q + 1))%Z -> (age / k = q)%Z).
  { intros k q Hk H. symmetry. apply Z.div_unique with (r := (age - k * q)%Z); lia. }
  repeat split.
  - intros H. assert (X : (age / 60000 < 1)%Z).
    { apply Z.div_lt_upper_bound; lia. }
    apply Z.ltb_lt in X. now rewrite X.
  - intros m Hm H. rewrite (Q 60000%Z m) by lia.
    destruct (Z.ltb_spec m 1); [lia|]. destruct (Z.ltb_spec m 60); [|lia]. reflexivity.
  - intros h Hh H.
    assert (M : (60 <= age / 60000)%Z) by (apply Z.div_le_lower_bound; lia).
    rewrite (Q 3600000%Z h) by lia.
    destruct (Z.ltb_spec (age / 60000) 1); [lia|].
    destruct (Z.ltb_spec (age / 60000) 60); [lia|].
    destruct (Z.ltb_spec h 24); [|lia]. reflexivity.
  - intros n Hn H.
    assert (M : (60 <= age / 60000)%Z) by (apply Z.div_le_lower_bound; lia).
    assert (M' : (24 <= age / 3600000)%Z) by (apply Z.div_le_lower_bound; lia).
    rewrite (Q 86400000%Z n) by lia.
    destruct (Z.ltb_spec (age / 60000) 1); [lia|].
    destruct (Z.ltb_spec (age / 60000) 60); [lia|].
    destruct (Z.ltb_spec (age / 3600000) 24); [lia|].
    destruct (Z.ltb_spec n 7); [|lia]. reflexivity.
  - intros H.
    assert (M : (60 <= age / 60000)%Z) by (apply Z.div_le_lower_bound; lia).
    assert (M' : (24 <= age / 3600000)%Z) by (apply Z.div_le_lower_bound; lia).
    assert (M'' : (7 <= age / 86400000)%Z) by (apply Z.div_le_lower_bound; lia).
    destruct (Z.ltb_spec (age / 60000) 1); [lia|].
    destruct (Z.ltb_spec (age / 60000) 60); [lia|].
    destruct (Z.ltb_spec (age / 3600000) 24); [lia|].
    destruct (Z.ltb_spec (age / 86400000) 7); [lia|]. reflexivity.
Qed.

End Ago.

Lemma includes_empty s : includes [] s = true.
Proof. now destruct s. Qed.

(** X9. With an empty search box (and a [toLowerCase] that maps the empty
    string to itself) [filteredChats] is the whole chat list, and
    [recentChats] its first ten chats. *)
Theorem empty_query_shows_all (toLowerCase : jsstring -> jsstring) v :
  toLowerCase [] = [] ->
  searchQuery v = [] ->
  filteredChats toLowerCase v = chats (store v) /\
  recentChats toLowerCase v = firstn 10 (chats (store v)) /\
  length (recentChats toLowerCase v) <= 10.
Proof.
  intros Hl Hq.
  assert (F : filteredChats toLowerCase v = chats (store v)).
  { unfold filteredChats. rewrite Hq. induction (chats (store v)) as [|c cs IH];
      [reflexivity|]. simpl. unfold matches_query at 1.
    rewrite Hl, includes_empty. simpl. now rewrite IH. }
  split; [exact F|]. unfold recentChats. rewrite F. split; [reflexivity|].
  apply firstn_le_length.
Qed.

Section MoreStream.

Variable Num : Type.
Variable num_truthy : Num -> bool.
Variable num_to_string : Num -> jsstring.
Variable JSON_parse : jsstring -> option (JSValue Num).


Lemma store_eta st :
  st = setToolStatus (toolStatus st) (setMessages (fun _ => messages st) st).
Proof. now destruct st. Qed.

Lemma on_frame_footprint d st st' :
  on_frame num_truthy num_to_string d st = Some st' ->
  st' = setToolStatus (toolStatus st') (setMessages (fun _ => messages st') st) /\
  (toolStatus st' = toolStatus st \/ toolStatus st' = (Some (str "Searching the web..."))).
Proof.
  unfold on_frame. intros H.
  assert (G : forall s0 s1 : Store,
    s0 = setToolStatus (toolStatus s0) (setMessages (fun _ => messages s0) st) /\
    (toolStatus s0 = toolStatus st \/ toolStatus s0 = (Some (str "Searching the web..."))) ->
    Some (if truthy num_truthy (prop d "done")
          then setMessages stop_streaming
                 (if truthy num_truthy (prop d "search_used")
                  then setToolStatus (Some (str "Searching the web...")) s0 else s0)
          else (if truthy num_truthy (prop d "search_used")
                  then setToolStatus (Some (str "Searching the web...")) s0 else s0)) = Some s1 ->
    s1 = setToolStatus (toolStatus s1) (setMessages (fun _ => messages s1) st) /\
    (toolStatus s1 = toolStatus st \/ toolStatus s1 = (Some (str "Searching the web...")))).
  { intros s0 s1 [E T] X. injection X as <-.
    destruct (truthy num_truthy (prop d "done")),
             (truthy num_truthy (prop d "search_used")); simpl;
      (split; [rewrite E at 1; reflexivity || (destruct st; reflexivity) | auto]). }
  destruct d; try (injection H as <-; split; [apply store_eta|now left]);
    (destruct (prop _ "chunk") as [c|];
     [destruct (truthy num_truthy (Some c));
      [destruct (to_string num_to_string c) as [text|]; [|discriminate];
       destruct (append_chunk text (messages st)) as [msgs|]; [|discriminate]|]|];
     (eapply G; [|exact H]); split; try (now left); try apply store_eta;
     destruct st; reflexivity).
Qed.

Lemma on_frames_footprint fs : forall st st',
  on_frames num_truthy num_to_string (Some st) fs = Some st' ->
  st' = setToolStatus (toolStatus st') (setMessages (fun _ => messages st') st) /\
  (toolStatus st' = toolStatus st \/ toolStatus st' = Some (str "Searching the web...")).
Proof.
  induction fs as [|d fs IH]; intros st st' H.
  - injection H as <-. split; [apply store_eta|now left].
  - unfold on_frames in H. simpl in H.
    destruct (on_frame num_truthy num_to_string d st) as [s1|] eqn:E.
    + apply on_frame_footprint in E as [E1 T1]. apply IH in H as [E2 T2]. split.
      * rewrite E2 at 1. rewrite E1 at 1. destruct st; reflexivity.
      * destruct T2 as [T2|T2]; [rewrite T2; exact T1|now right].
    + exfalso. clear -H. induction fs as [|x fs IH]; [discriminate|auto].
Qed.

Lemma streamed_fields a fs :
  Message.id (streamed num_truthy num_to_string a fs) = Message.id a /\
  Message.role (streamed num_truthy num_to_string a fs) = Message.role a /\
  Message.timestamp (streamed num_truthy num_to_string a fs) = Message.timestamp a /\
  Message.content (streamed num_truthy num_to_string a fs) =
    Message.content a ++ concat (map (chunk_text num_truthy num_to_string) fs) /\
  (Message.isStreaming a = Some false ->
   Message.isStreaming (streamed num_truthy num_to_string a fs) = Some false).
Proof.
  unfold streamed. simpl. repeat split. intros H.
  now destruct (existsb _ fs).
Qed.

(** X16. The read loop on a non-empty message list. It throws, inside the
    chunk updater, exactly when a frame carries a chunk that cannot be
    added to a string (an object with a key [toString] of its own, or an
    array that holds one). Otherwise it only touches the last message and
    the tool status: the messages before the last one and every other field
    are as before; the last message keeps its id, role and timestamp, its
    content only grows at the end, and once its [isStreaming] is false it
    stays false. The tool status is as before or [Searching the web...]. *)
Theorem read_loop_footprint chunks st prev a :
  messages st = prev ++ [a] ->
  (forallb (printable num_to_string) (frames JSON_parse chunks) = false ->
   fold_left (on_chunk num_truthy num_to_string JSON_parse) chunks (Some st) = None) /\
  (forallb (printable num_to_string) (frames JSON_parse chunks) = true ->
   exists st' a',
    fold_left (on_chunk num_truthy num_to_string JSON_parse) chunks (Some st) = Some st' /\
    st' = setToolStatus (toolStatus st') (setMessages (fun _ => prev ++ [a']) st) /\
    (toolStatus st' = toolStatus st \/
     toolStatus st' = Some (str "Searching the web...")) /\
    Message.id a' = Message.id a /\
    Message.role a' = Message.role a /\
    Message.timestamp a' = Message.timestamp a /\
    (exists more, Message.content a' = Message.content a ++ more) /\
    (Message.isStreaming a = Some false -> Message.isStreaming a' = Some false)).
Proof.
  intros Hm. rewrite read_loop_frames. split; intros Hp.
  - exact (@on_frames_throw _ num_truthy num_to_string (frames JSON_parse chunks)
             st prev a Hm Hp).
  - destruct (@on_frames_last _ num_truthy num_to_string (frames JSON_parse chunks)
                st prev a Hm Hp) as (st' & Hr & Hm').
    exists st', (streamed num_truthy num_to_string a (frames JSON_parse chunks)).
    destruct (@on_frames_footprint _ _ _ Hr) as [E T].
    destruct (streamed_fields a (frames JSON_parse chunks)) as (F1 & F2 & F3 & F4 & F5).
    split; [exact Hr|]. split; [now rewrite <- Hm'|]. split; [exact T|].
    repeat split; auto. eexists. exact F4.
Qed.

Lemma request_footprint resp st c :
  request num_truthy num_to_string JSON_parse resp st = Some c ->
  let st' := match c with Normal s => s | Thrown s => setMessages fail_last s end in
  input st' = input st /\ isLoading st' = isLoading st /\ chats st' = chats st /\
  currentChatId st' = currentChatId st /\
  imageFile st' = (if transport_failure resp then imageFile st else None) /\
  imagePreview st' = (if transport_failure resp then imagePreview st else None) /\
  renamingChatId st' = renamingChatId st /\ renameValue st' = renameValue st /\
  sessionId st' = sessionId st /\ currentModel st' = currentModel st.
Proof.
  destruct resp as [| | |chunks e]; simpl.
  - intros H. injection H as <-. simpl. repeat split.
  - intros H. injection H as <-. simpl. repeat split.
  - intros H. injection H as <-. simpl. repeat split.
  - rewrite read_loop_frames.
    destruct (on_frames num_truthy num_to_string (Some st) (frames JSON_parse chunks))
      as [s1|] eqn:E; [|discriminate].
    apply on_frames_footprint in E as [E _].
    destruct e; intros H; injection H as <-; simpl; rewrite E; simpl; repeat split.
Qed.

(** What a call that issues the request leaves in the state. *)
Lemma send_footprint snap ov f resp st :
  nonempty (prompt_text snap ov) || has_image snap = true ->
  isLoading snap = false ->
  readable num_to_string JSON_parse resp = true ->
  exists st',
    sendMessage num_truthy num_to_string JSON_parse snap ov f resp st
      = Some (st', Resolved) /\
    input st' = [] /\ isLoading st' = false /\ toolStatus st' = None /\
    chats st' =
      (if negb (truthy_opt (currentChatId snap))
       then new_chat f (prompt_text snap ov) :: chats st
       else if length (messages snap) =? 0
            then map (retitle (currentChatId snap) (prompt_text snap ov)) (chats st)
            else chats st) /\
    currentChatId st' =
      (if truthy_opt (currentChatId snap) then currentChatId st
       else Some (chat_id f)) /\
    imageFile st' = (if transport_failure resp then imageFile st else None) /\
    imagePreview st' = (if transport_failure resp then imagePreview st else None) /\
    renamingChatId st' = renamingChatId st /\ renameValue st' = renameValue st /\
    sessionId st' = sessionId st /\ currentModel st' = currentModel st.
Proof.
  intros Ht Hl Hp.
  destruct (@sendMessage_runs _ num_truthy num_to_string JSON_parse snap ov f resp st
              Ht Hl Hp)
    as (st' & Hs & _). exists st'. split; [exact Hs|].
  unfold sendMessage in Hs.
  assert (Hn : negb (nonempty (prompt_text snap ov)) && negb (has_image snap) = false).
  { destruct (nonempty (prompt_text snap ov)), (has_image snap); simpl in *; congruence. }
  rewrite Hn, Hl in Hs. cbv zeta in Hs.
  match type of Hs with
  | match request _ _ _ ?r ?s with _ => _ end = _ =>
      destruct (request num_truthy num_to_string JSON_parse r s) as [c|] eqn:E;
        [|discriminate];
      apply request_footprint in E
  end.
  injection Hs as <-. cbv zeta in E.
  destruct E as (E1 & E2 & E3 & E4 & E5 & E6 & E7 & E8 & E9 & E10).
  simpl. rewrite E1, E3, E4, E5, E6, E7, E8, E9, E10.
  destruct (truthy_opt (currentChatId snap)); simpl;
    destruct (length (messages snap) =? 0); simpl; repeat split.
Qed.

(** X13. [sendMessage] without override, with an input of white space only
    and no image, or called from a render that is loading, changes nothing
    whatever the server would answer, and its promise resolves. *)
Theorem rejected_submission snap ov f resp st :
  (blank (input snap) = true /\ (ov = None \/ ov = Some []) /\ imageFile snap = None) \/
  isLoading snap = true ->
  sendMessage num_truthy num_to_string JSON_parse snap ov f resp st = Some (st, Resolved).
Proof.
  intros [(Hb & Ho & Hi)|Hl]; unfold sendMessage.
  - assert (T : prompt_text snap ov = []).
    { apply trim_blank in Hb. destruct Ho as [->| ->]; exact Hb. }
    unfold has_image. now rewrite T, Hi.
  - rewrite Hl. now destruct (negb _ && negb _).
Qed.


(** X15. A sent message and the chat list. Without a current chat, a new
    chat comes first in the list and becomes current: no messages, no star,
    a title of at most 40 code units, the first 40 of the text, or
    [New Chat] when the text is empty. With a current chat the list keeps
    its length and its current chat; it is unchanged when the render had
    messages, and when it had none the chats with the current id get the
    first 40 code units of the text as title. (Unless a frame makes the
    chunk updater throw.) *)
Theorem send_names_chat snap ov f resp st :
  nonempty (prompt_text snap ov) || has_image snap = true ->
  isLoading snap = false ->
  (readable num_to_string JSON_parse resp = false ->
   sendMessage num_truthy num_to_string JSON_parse snap ov f resp st = None) /\
  (readable num_to_string JSON_parse resp = true ->
   exists st',
    sendMessage num_truthy num_to_string JSON_parse snap ov f resp st
      = Some (st', Resolved) /\
    (currentChatId snap = None ->
     exists c, chats st' = c :: chats st /\ currentChatId st' = Some (Chat.id c) /\
       Chat.id c = chat_id f /\ Chat.messages c = [] /\ Chat.starred c = false /\
       length (Chat.title c) <= 40 /\
       (prompt_text snap ov <> [] -> Chat.title c = firstn 40 (prompt_text snap ov)) /\
       (prompt_text snap ov = [] -> Chat.title c = str "New Chat")) /\
    (forall id, currentChatId snap = Some id -> id <> [] ->
     currentChatId st' = currentChatId st /\
     length (chats st') = length (chats st) /\
     (messages snap <> [] -> chats st' = chats st) /\
     (messages snap = [] ->
      forall i c, nth_error (chats st) i = Some c ->
        nth_error (chats st') i =
          Some (if eqs (Chat.id c) id
                then with_title c (firstn 40 (prompt_text snap ov)) else c)))).
Proof.
  intros Ht Hl. split; intros Hp.
  { exact (@sendMessage_throws _ num_truthy num_to_string JSON_parse snap ov f resp st
             Ht Hl Hp). }
  destruct (send_footprint snap ov f resp st Ht Hl Hp)
    as (st' & Hs & _ & _ & _ & D & E & _).
  exists st'. split; [exact Hs|]. split.
  - intros Hc. rewrite Hc in D, E. simpl in D, E.
    exists (new_chat f (prompt_text snap ov)). repeat split; auto.
    + unfold new_chat. cbn [Chat.title].
      pose proof (firstn_le_length 40 (prompt_text snap ov)) as L.
      destruct (firstn 40 (prompt_text snap ov)); [cbn; lia|exact L].
    + intros Hn. unfold new_chat. simpl.
      destruct (prompt_text snap ov) as [|x t]; [contradiction|reflexivity].
    + intros Hn. unfold new_chat. simpl. now rewrite Hn.
  - intros id Hc Hid. rewrite Hc in D, E.
    assert (T : truthy_opt (Some id) = true) by (destruct id; [contradiction|reflexivity]).
    rewrite T in D, E. simpl in D, E. split; [exact E|]. split; [|split].
    + rewrite D. destruct (length (messages snap) =? 0); [apply length_map|reflexivity].
    + intros Hm. rewrite D. destruct (messages snap); [contradiction|reflexivity].
    + intros Hm i c Hi. rewrite D, Hm. simpl.
      rewrite nth_error_map, Hi. reflexivity.
Qed.

Lemma split_on_cons sep s : exists cur more, split_on sep s = cur :: more.
Proof.
  destruct s as [|c s]; simpl; [now exists [], []|].
  destruct (split_on sep s) as [|cur more]; [now exists [c], []|].
  destruct (N.eqb c sep); eauto.
Qed.

Lemma split_on_app sep a b :
  split_on sep (a ++ sep :: b) = split_on sep a ++ split_on sep b.
Proof.
  induction a as [|c a IH]; simpl.
  - destruct (split_on_cons sep b) as (cur & more & ->). now rewrite N.eqb_refl.
  - rewrite IH. destruct (split_on_cons sep a) as (cur & more & ->). simpl.
    now destruct (N.eqb c sep).
Qed.

Lemma frames_app a b :
  frames JSON_parse (a ++ b) = frames JSON_parse a ++ frames JSON_parse b.
Proof. apply flat_map_app. Qed.

Lemma frames_cut a b :
  frames JSON_parse [a ++ nl :: b] = frames JSON_parse [a ++ [nl]; b].
Proof.
  unfold frames. simpl. rewrite !app_nil_r, !split_on_app, !flat_map_app.
  simpl. unfold line_frames at 3. simpl. now rewrite app_nil_r.
Qed.

(** X17. A body read in one piece, or cut in two reads right after one of
    its line feeds, gives the same result, at any place of the stream. *)
Theorem cut_after_line_feed snap ov f st pre a b post e :
  sendMessage num_truthy num_to_string JSON_parse snap ov f
              (Body (pre ++ [a ++ nl :: b] ++ post) e) st =
  sendMessage num_truthy num_to_string JSON_parse snap ov f
              (Body (pre ++ [a ++ [nl]; b] ++ post) e) st.
Proof.
  assert (F : frames JSON_parse (pre ++ [a ++ nl :: b] ++ post) =
              frames JSON_parse (pre ++ [a ++ [nl]; b] ++ post)).
  { rewrite !frames_app, frames_cut. reflexivity. }
  unfold sendMessage, request. rewrite !read_loop_frames, F. reflexivity.
Qed.

(** X18. Retry on the message after a user message, anywhere in the
    conversation: the user message and everything after it are dropped, the
    text is sent again, and the conversation ends with the new user message
    and the reply (unless a frame makes the chunk updater throw). With a
    current chat, the chat list and the current chat are unchanged. *)
Theorem retry_discards_later st prefix u later f resp :
  messages st = prefix ++ u :: later ->
  Message.role u = user ->
  Message.content u <> [] ->
  isLoading st = false ->
  exists st1,
    retryMessage st (S (length prefix)) st = (st1, Some (Message.content u)) /\
    messages st1 = prefix /\
    (readable num_to_string JSON_parse resp = false ->
     retry_fires num_truthy num_to_string JSON_parse st (Message.content u) f resp st1
       = None) /\
    (readable num_to_string JSON_parse resp = true ->
     exists st2,
      retry_fires num_truthy num_to_string JSON_parse st (Message.content u) f resp st1
        = Some (st2, Resolved) /\
      messages st2 =
        prefix ++
        [asked f (Message.content u); reply num_truthy num_to_string JSON_parse f resp] /\
      (forall id, currentChatId st = Some id -> id <> [] ->
         chats st2 = chats st /\ currentChatId st2 = Some id)).
Proof.
  intros Hm Hr Hc Hl.
  assert (N : nth_error (messages st) (length prefix) = Some u).
  { rewrite Hm, nth_error_app2, Nat.sub_diag by lia. reflexivity. }
  assert (P : firstn (length prefix) (messages st) = prefix).
  { rewrite Hm, firstn_app, Nat.sub_diag, firstn_all. simpl. apply app_nil_r. }
  unfold retryMessage. rewrite N, Hr, P.
  set (st1 := setMessages (fun _ => prefix) st).
  assert (Ht : nonempty (prompt_text st (Some (Message.content u))) || has_image st = true).
  { simpl. destruct (Message.content u); [contradiction|reflexivity]. }
  exists st1. split; [reflexivity|]. split; [reflexivity|]. split; intros Hp.
  { exact (@sendMessage_throws _ num_truthy num_to_string JSON_parse st
             (Some (Message.content u)) f resp st1 Ht Hl Hp). }
  destruct (@sendMessage_runs _ num_truthy num_to_string JSON_parse st
              (Some (Message.content u)) f resp st1 Ht Hl Hp) as (st2 & Hs & Hm2 & _).
  destruct (send_footprint st (Some (Message.content u)) f resp st1 Ht Hl Hp)
    as (st2' & Hs' & _ & _ & _ & D & E & _).
  rewrite Hs in Hs'. injection Hs' as <-.
  assert (T : prompt_text st (Some (Message.content u)) = Message.content u).
  { simpl. destruct (Message.content u); [contradiction|reflexivity]. }
  rewrite T in Hm2. exists st2. split; [exact Hs|].
  split; [exact Hm2|].
  intros id Hi Hn. rewrite Hi in D, E.
  assert (Q : truthy_opt (Some id) = true) by (destruct id; [contradiction|reflexivity]).
  rewrite Q in D, E. simpl in D, E. rewrite Hm in D.
  rewrite length_app in D. simpl in D.
  replace (length prefix + S (length later) =? 0) with false in D
    by (symmetry; apply Nat.eqb_neq; lia).
  split; [exact D|]. rewrite E. exact Hi.
Qed.

End MoreStream.

Lemma exec_one k prev c s :
  exec (Chr (one k)) prev (c :: s) = if N.eqb c k then Some ([c], []) else None.
Proof.
  destruct (N.eqb c k) eqn:E.
  - apply (@exec_of_rmatch (Chr (one k)) prev [c] s [] (Some c)).
    simpl. unfold one. now rewrite E.
  - unfold exec. simpl. unfold one. now rewrite E.
Qed.

Lemma replace_one k t s :
  replace_all (Chr (one k)) [TLit t] s =
  flat_map (fun c => if N.eqb c k then t else [c]) s.
Proof.
  unfold replace_all, replace_fn, segments.
  assert (G : forall prev,
    render (fun (_ : jsstring) caps => subst [TLit t] caps) (scan (Chr (one k)) 0 prev s) =
    flat_map (fun c => if N.eqb c k then t else [c]) s).
  { induction s as [|c s IH]; intros prev; [reflexivity|].
    cbn [scan]. rewrite exec_one. destruct (N.eqb c k) eqn:E.
    - cbn [length]. unfold render in *. cbn [flat_map]. rewrite IH, E.
      simpl. now rewrite app_nil_r.
    - unfold render in *. cbn [flat_map]. now rewrite IH, E. }
  apply G.
Qed.

Lemma escape_angles_map code :
  escape_angles code =
    flat_map (fun c => if N.eqb c (ch "<") then str "&lt;"
                       else if N.eqb c (ch ">") then str "&gt;" else [c]) code.
Proof.
  unfold escape_angles, re_lt, re_gt. rewrite !replace_one.
  induction code as [|c code IH]; [reflexivity|].
  cbn [flat_map]. rewrite flat_map_app. f_equal; [|exact IH].
  destruct (N.eqb c (ch "<")) eqn:E1; [reflexivity|].
  cbn [flat_map]. destruct (N.eqb c (ch ">")); reflexivity.
Qed.

(** X20. [code.replace(/</g, '&lt;').replace(/>/g, '&gt;')] replaces every
    [<] by [&lt;], every [>] by [&gt;] and nothing else: its result has no
    angle bracket, and a code without angle brackets is unchanged. *)
Theorem escape_angles_spec code :
  escape_angles code =
    flat_map (fun c => if N.eqb c (ch "<") then str "&lt;"
                       else if N.eqb c (ch ">") then str "&gt;" else [c]) code /\
  forallb (fun c => negb (angle c)) (escape_angles code) = true /\
  (forallb (fun c => negb (angle c)) code = true -> escape_angles code = code).
Proof.
  split; [apply escape_angles_map|]. rewrite escape_angles_map. split.
  - induction code as [|c code IH]; [reflexivity|].
    cbn [flat_map]. rewrite forallb_app, IH, andb_true_r. unfold angle.
    destruct (N.eqb c (ch "<")) eqn:E1; [reflexivity|].
    destruct (N.eqb c (ch ">")) eqn:E2; [reflexivity|].
    cbn [forallb]. rewrite E1, E2. reflexivity.
  - intros H. induction code as [|c code IH]; [reflexivity|].
    cbn [forallb] in H. apply andb_true_iff in H as [Hc H].
    cbn [flat_map]. rewrite IH by exact H. unfold angle in Hc.
    destruct (N.eqb c (ch "<")); [discriminate|].
    destruct (N.eqb c (ch ">")); [discriminate|]. reflexivity.
Qed.

(** *** What a match can capture *)

Section Captured.

Variable P : char -> Prop.


Lemma Forall_firstn_P n (s : jsstring) : Forall P s -> Forall P (firstn n s).
Proof.
  intros H. rewrite <- (firstn_skipn n s) in H. apply Forall_app in H. tauto.
Qed.

Lemma rmatch_captures r : forall st k x,
  rmatch r st k = Some x ->
  exists st', k st' = Some x /\ (good P st -> good P st').
Proof.
  induction r as [|p|a IHa b IHb|a IHa b IHb|g a IHa|i a IHa|ml|ml];
    intros st k x H; simpl in H.
  - exists st. auto.
  - destruct (m_rest st) as [|c rest] eqn:E; [discriminate|].
    destruct (p c); [|discriminate].
    eexists. split; [exact H|]. intros [G1 G2]. split; simpl; [|exact G2].
    rewrite E in G1. now inversion G1.
  - apply IHa in H as (st1 & H & G1). apply IHb in H as (st2 & H & G2).
    exists st2. auto.
  - destruct (rmatch a st k) eqn:E.
    + injection H as ->. now apply IHa in E.
    + now apply IHb in H.
  - revert x H. generalize (length (m_rest st)) as fuel. intros fuel. revert st.
    induction fuel as [|f IHf]; intros st x H.
    + exists st. auto.
    + cbv zeta in H.
      match type of H with
      | context [rmatch a st ?kk] =>
          assert (I : forall y, rmatch a st kk = Some y ->
                    exists st', k st' = Some y /\ (good P st -> good P st'))
      end.
      { intros y Hy. apply IHa in Hy as (st1 & Hy & G1).
        destruct (_ <? _); [|discriminate].
        apply IHf in Hy as (st2 & Hy & G2). exists st2. auto. }
      destruct g.
      * match type of H with
        | match ?it with _ => _ end = _ => destruct it as [y|] eqn:E
        end.
        -- injection H as ->. now apply I.
        -- exists st. auto.
      * destruct (k st) as [y|] eqn:E.
        -- injection H as ->. exists st. auto.
        -- now apply I.
  - apply IHa in H as (st1 & H & G1). eexists. split; [exact H|].
    intros G. destruct (G1 G) as [R C]. split; simpl; [exact R|].
    constructor; [|exact C]. simpl. apply Forall_firstn_P. apply G.
  - destruct (at_bol ml st); [|discriminate]. exists st. auto.
  - destruct (at_eol ml st); [|discriminate]. exists st. auto.
Qed.

Lemma exec_captures r prev s w caps :
  Forall P s -> exec r prev s = Some (w, caps) -> captured P caps.
Proof.
  intros Hs. unfold exec.
  destruct (rmatch r (MState prev s []) Some) as [st|] eqn:E; [|discriminate].
  intros H. injection H as _ <-.
  apply rmatch_captures in E as (st' & E & G). injection E as ->.
  apply G. split; simpl; [exact Hs|constructor].
Qed.

Lemma scan_captures r s : forall skip prev,
  Forall P s -> Forall (seg_ok P) (scan r skip prev s).
Proof.
  induction s as [|c s IH]; intros skip prev Hs.
  - simpl. destruct skip; [|constructor].
    destruct (exec r prev []) as [[w caps]|] eqn:E; [|constructor].
    constructor; [|constructor]. simpl. eapply exec_captures; [exact Hs|exact E].
  - assert (Hs' : Forall P s) by now inversion Hs.
    cbn [scan]. destruct skip as [|n]; [|now apply IH].
    destruct (exec r prev (c :: s)) as [[w caps]|] eqn:E.
    + assert (C : seg_ok P (SMatch w caps)) by (simpl; eapply exec_captures; [exact Hs|exact E]).
      destruct (length w).
      * constructor; [exact C|]. constructor; [exact I|]. now apply IH.
      * constructor; [exact C|]. now apply IH.
    + constructor; [exact I|]. now apply IH.
Qed.

Lemma capture_captured i caps :
  captured P caps -> Forall P (capture i caps).
Proof.
  unfold captured. induction 1 as [|[j v] caps Hv _ IH]; simpl; [constructor|].
  destruct (Nat.eqb i j); auto.
Qed.

Lemma trim_captured s : Forall P s -> Forall P (trim s).
Proof.
  assert (T : forall u, Forall P u -> Forall P (trimStart u)).
  { induction u as [|c u IH]; intros H; simpl; [constructor|].
    destruct (is_space c); [|exact H]. apply IH. now inversion H. }
  intros H. unfold trim, trimEnd. apply Forall_rev, T, Forall_rev, T, H.
Qed.

End Captured.

Lemma encode_total s :
  Forall surrogate_free s -> exists uri, encode_from None s = Some uri.
Proof.
  induction 1 as [|c s [Hh Hl] _ (uri & IH)]; simpl; [eauto|].
  rewrite Hh, Hl, IH. destruct (uri_unreserved c); simpl; eauto.
Qed.

Lemma extract_total segs : forall blocks,
  Forall (seg_ok surrogate_free) segs ->
  exists r, extract_fences segs blocks = Some r.
Proof.
  induction segs as [|sg segs IH]; intros blocks H; simpl; [eauto|].
  inversion H as [|? ? Hsg Hsegs]; subst.
  destruct sg as [c|w caps].
  - destruct (IH blocks Hsegs) as ([b o] & ->). eauto.
  - simpl in Hsg.
    destruct (@encode_total (trim (capture 2 caps))) as (uri & E).
    { apply trim_captured, capture_captured, Hsg. }
    unfold encodeURIComponent. rewrite E.
    match goal with
    | |- context [extract_fences segs ?b] => destruct (IH b Hsegs) as ([b' o] & ->)
    end. eauto.
Qed.

(** X21. [formatMessage] returns (it does not throw) on every text without
    surrogate code units. *)
Theorem formatMessage_total content :
  forallb (fun c => negb (high_surrogate c || low_surrogate c)) content = true ->
  exists out, formatMessage content = Some out.
Proof.
  intros H. unfold formatMessage.
  destruct (@extract_total (segments re_fence content) []) as ([blocks processed] & ->).
  - apply scan_captures. apply Forall_forall. intros c Hc.
    rewrite forallb_forall in H. specialize (H c Hc).
    apply negb_true_iff, orb_false_iff in H. exact H.
  - eauto.
Qed.

(** *** Quantifiers over a run of characters *)

Lemma rmatch_star g a st k :
  rmatch (Star g a) st k = star_loop g a k (length (m_rest st)) st.
Proof. reflexivity. Qed.

Lemma star_loop_S g a k f st :
  star_loop g a k (S f) st =
  let iter :=
    rmatch a st (fun st' =>
      if length (m_rest st') <? length (m_rest st)
      then star_loop g a k f st' else None) in
  if g then match iter with Some x => Some x | None => k st end
  else match k st with Some x => Some x | None => iter end.
Proof. reflexivity. Qed.

Lemma last_of_cons prev c s : last_of prev (c :: s) = last_of (Some c) s.
Proof. reflexivity. Qed.

(** A greedy class takes the whole run when what follows goes through. *)
Lemma star_greedy_run p k x : forall a b prev caps fuel,
  forallb p a = true ->
  match b with [] => True | c :: _ => p c = false end ->
  length a <= fuel ->
  k (MState (last_of prev a) b caps) = Some x ->
  star_loop true (Chr p) k fuel (MState prev (a ++ b) caps) = Some x.
Proof.
  induction a as [|c a IH]; intros b prev caps fuel Ha Hb Hf Hk.
  - simpl in *. destruct fuel as [|f]; [exact Hk|]. rewrite star_loop_S. simpl.
    destruct b as [|d b]; [exact Hk|]. now rewrite Hb.
  - destruct fuel as [|f]; [simpl in Hf; lia|].
    simpl in Ha. apply andb_true_iff in Ha as [Hc Ha].
    rewrite star_loop_S. cbv zeta. cbn [rmatch m_rest app m_caps]. rewrite Hc.
    cbn [m_rest length].
    replace (length (a ++ b) <? S (length (a ++ b))) with true
      by (symmetry; apply Nat.ltb_lt; lia).
    rewrite (IH b (Some c) caps f Ha Hb); [reflexivity|simpl in Hf; lia|exact Hk].
Qed.

(** A lazy class stops at the first position where what follows goes
    through. *)
Lemma star_lazy_until p k x : forall a b prev caps fuel,
  forallb p a = true ->
  (forall a1 c a2, a = a1 ++ c :: a2 ->
     k (MState (last_of prev a1) (c :: a2 ++ b) caps) = None) ->
  length a <= fuel ->
  k (MState (last_of prev a) b caps) = Some x ->
  star_loop false (Chr p) k fuel (MState prev (a ++ b) caps) = Some x.
Proof.
  induction a as [|c a IH]; intros b prev caps fuel Ha Hn Hf Hk.
  - simpl in *. destruct fuel as [|f]; [exact Hk|]. rewrite star_loop_S. simpl.
    now rewrite Hk.
  - destruct fuel as [|f]; [simpl in Hf; lia|].
    simpl in Ha. apply andb_true_iff in Ha as [Hc Ha].
    rewrite star_loop_S. cbv zeta.
    change ((c :: a) ++ b) with (c :: a ++ b).
    pose proof (Hn [] c a eq_refl) as H0. cbn [last_of fold_left] in H0.
    rewrite H0.
    cbn [rmatch m_rest m_caps]. rewrite Hc. cbn [m_rest length].
    replace (length (a ++ b) <? S (length (a ++ b))) with true
      by (symmetry; apply Nat.ltb_lt; lia).
    apply IH; [exact Ha| |simpl in Hf; lia|exact Hk].
    intros a1 d a2 E. apply (Hn (c :: a1) d a2). now rewrite E.
Qed.

Lemma firstn_grown (a b : jsstring) :
  firstn (length (a ++ b) - length b) (a ++ b) = a.
Proof.
  rewrite length_app, Nat.add_sub, firstn_app, Nat.sub_diag, firstn_all.
  simpl. apply app_nil_r.
Qed.

Lemma word_not_nl : word nl = false.
Proof. reflexivity. Qed.

(** The fence pattern on a fence: the language, the line feed, the body
    up to the first three backquotes. *)
Lemma fence_match prev lang body rest :
  forallb word lang = true ->
  forallb (other_than (ch "`")) body = true ->
  rmatch re_fence (MState prev (str "```" ++ lang ++ nl :: body ++ str "```" ++ rest) []) Some
  = Some (MState (Some (ch "`")) rest [(2, body); (1, lang)]).
Proof.
  intros Hl Hb. unfold re_fence, seqs.
  change (rmatch (Seq (lit "```") ?r) (MState prev (str "```" ++ ?s) []) ?k)
    with (rmatch r (MState (Some (ch "`")) s []) k).
  cbn [rmatch]. unfold star at 1. rewrite rmatch_star. cbn [m_rest].
  apply star_greedy_run; [exact Hl|reflexivity|rewrite length_app; lia|].
  cbn [m_rest m_caps m_prev]. rewrite firstn_grown.
  unfold opt. cbn [rmatch m_rest m_caps m_prev]. unfold one at 1.
  rewrite N.eqb_refl. unfold lazy_star. rewrite rmatch_star. cbn [m_rest].
  rewrite (@star_lazy_until any _ (MState (Some (ch "`")) rest [(2, body); (1, lang)])
             body (str "```" ++ rest) (Some nl) [(1, lang)]); [reflexivity| | | |].
  - clear. induction body; simpl; auto.
  - intros a1 c a2 E. cbn [m_rest m_caps m_prev].
    apply lead_sound. cbn [m_rest]. simpl.
    assert (Hc : other_than (ch "`") c = true).
    { rewrite E, forallb_app in Hb. cbn [forallb] in Hb.
      apply andb_true_iff in Hb as [_ Hb]. now apply andb_true_iff in Hb as [Hb _]. }
    unfold other_than in Hc. apply negb_true_iff in Hc.
    change (ch "`") with 96%N in Hc. unfold one at 1. rewrite Hc. reflexivity.
  - rewrite length_app. lia.
  - cbn [m_rest m_caps m_prev]. rewrite firstn_grown. reflexivity.
Qed.

Lemma get_substitution_plain m b a repl :
  forallb (other_than (ch "$")) repl = true -> get_substitution m b a repl = repl.
Proof.
  induction repl as [|c repl IH]; [reflexivity|]. cbn [forallb]. intros H.
  apply andb_true_iff in H as [Hc H]. cbn [get_substitution].
  unfold other_than in Hc. apply negb_true_iff in Hc. rewrite Hc.
  now rewrite IH.
Qed.

Lemma percent_plain b : forallb (other_than (ch "$")) (percent b) = true.
Proof.
  assert (H : forall n, other_than (ch "$") (hex_digit n) = true).
  { intros n. unfold other_than, hex_digit. apply negb_true_iff, N.eqb_neq.
    change (ch "$") with 36%N. destruct (N.ltb n 10); lia. }
  unfold percent. cbn [forallb]. now rewrite !H.
Qed.

Lemma octets_plain l : forallb (other_than (ch "$")) (flat_map percent l) = true.
Proof.
  induction l as [|b l IH]; [reflexivity|]. cbn [flat_map].
  now rewrite forallb_app, percent_plain, IH.
Qed.

Lemma encode_plain s : forall p uri,
  encode_from p s = Some uri -> forallb (other_than (ch "$")) uri = true.
Proof.
  induction s as [|c s IH]; intros p uri H.
  - destruct p; [discriminate|]. now injection H as <-.
  - cbn [encode_from] in H. destruct p as [h|].
    + destruct (low_surrogate c); [|discriminate].
      destruct (encode_from None s) as [u|] eqn:E; [|discriminate].
      injection H as <-. rewrite forallb_app, octets_plain. now apply (IH None).
    + destruct (uri_unreserved c) eqn:U.
      * destruct (encode_from None s) as [u|] eqn:E; [|discriminate].
        injection H as <-. cbn [forallb]. rewrite (IH None u E), andb_true_r.
        unfold other_than. apply negb_true_iff, N.eqb_neq. intros ->.
        discriminate U.
      * destruct (low_surrogate c); [discriminate|].
        destruct (high_surrogate c); [now apply (IH (Some c))|].
        destruct (encode_from None s) as [u|] eqn:E; [|discriminate].
        injection H as <-. rewrite forallb_app, octets_plain. now apply (IH None).
Qed.

Lemma word_plain lang :
  forallb word lang = true -> forallb (other_than (ch "$")) lang = true.
Proof.
  intros H. rewrite forallb_forall in *. intros c Hc. specialize (H c Hc).
  unfold other_than. apply negb_true_iff, N.eqb_neq. intros ->. discriminate H.
Qed.

Lemma escape_plain body :
  forallb (other_than (ch "$")) body = true ->
  forallb (other_than (ch "$")) (escape_angles body) = true.
Proof.
  intros H. rewrite escape_angles_map.
  induction body as [|c body IH]; [reflexivity|].
  cbn [forallb] in H. apply andb_true_iff in H as [Hc H].
  cbn [flat_map]. rewrite forallb_app, IH, andb_true_r by exact H.
  destruct (N.eqb c (ch "<")); [reflexivity|].
  destruct (N.eqb c (ch ">")); [reflexivity|].
  cbn [forallb]. now rewrite Hc.
Qed.

Lemma code_block_plain lang uri body :
  forallb (other_than (ch "$")) lang = true ->
  forallb (other_than (ch "$")) uri = true ->
  forallb (other_than (ch "$")) body = true ->
  forallb (other_than (ch "$")) (code_block lang uri body) = true.
Proof.
  intros Hl Hu Hb. unfold code_block.
  rewrite !forallb_app, Hu, (escape_plain _ Hb).
  replace (forallb (other_than (ch "$")) match lang with [] => str "code" | _ :: _ => lang end)
    with true by (destruct lang; [reflexivity|now rewrite Hl]).
  reflexivity.
Qed.

(** X22. A message that is one fence, with a language of word characters,
    a line feed and a body without backquote and without dollar sign, is
    rendered as one paragraph holding the code block: the language in the
    header, the URI-encoded trimmed body in the copy button, and the body
    with its angle brackets escaped in the [code] element. *)
Theorem fence_rendered lang body uri :
  forallb word lang = true ->
  forallb (fun c => negb (N.eqb c (ch "`") || N.eqb c (ch "$"))) body = true ->
  encodeURIComponent (trim body) = Some uri ->
  formatMessage (str "```" ++ lang ++ [nl] ++ body ++ str "```") =
    Some (str "<p>" ++ code_block lang uri body ++ str "</p>").
Proof.
  intros Hl Hb Hu.
  assert (Hq : forallb (other_than (ch "`")) body = true /\
               forallb (other_than (ch "$")) body = true).
  { split; rewrite forallb_forall in *; intros c Hc; specialize (Hb c Hc);
      apply negb_true_iff, orb_false_iff in Hb; unfold other_than;
      apply negb_true_iff; tauto. }
  destruct Hq as [Hq Hd].
  pose proof (@fence_match None lang body [] Hl Hq) as M.
  assert (X : exec re_fence None (str "```" ++ lang ++ [nl] ++ body ++ str "```")
              = Some (str "```" ++ lang ++ [nl] ++ body ++ str "```", [(2, body); (1, lang)])).
  { rewrite <- (app_nil_r (str "```" ++ lang ++ [nl] ++ body ++ str "```")) at 1.
    apply (@exec_of_rmatch re_fence None _ [] _ (Some (ch "`"))).
    replace ((str "```" ++ lang ++ [nl] ++ body ++ str "```") ++ [])
      with (str "```" ++ lang ++ nl :: body ++ str "```" ++ []); [exact M|].
    rewrite <- !app_assoc. reflexivity. }
  unfold formatMessage, segments.
  change (str "```" ++ lang ++ [nl] ++ body ++ str "```")
    with (ch "`" :: (str "``" ++ lang ++ [nl] ++ body ++ str "```")) in *.
  set (w := str "``" ++ lang ++ [nl] ++ body ++ str "```") in *.
  rewrite <- (app_nil_r (ch "`" :: w)) at 1.
  rewrite (@scan_match re_fence None (ch "`") w [] [(2, body); (1, lang)])
    by (rewrite app_nil_r; exact X).
  rewrite (@scan_end_lead re_fence _ (one (ch "`")) _ eq_refl).
  cbn [extract_fences capture Nat.eqb length]. rewrite Hu.
  cbn [app length].
  replace (wrap_lists (cleanup (wrap (paragraphs (inline_markup
             (replace_fn tableRegex render_table
                (replace_all re_blank_lines [TLit [nl; nl]] (placeholder 0 ++ []))))))))
    with (str "<p>" ++ placeholder 0 ++ str "</p>") by (vm_compute; reflexivity).
  f_equal. cbn [restore]. unfold String_replace.
  change (replace_first (placeholder 0) ?b [] (str "<p>" ++ placeholder 0 ++ str "</p>"))
    with (str "<p>" ++ get_substitution (placeholder 0) (str "<p>") (str "</p>") b ++ str "</p>").
  rewrite get_substitution_plain; [reflexivity|].
  apply code_block_plain; [now apply word_plain| |exact Hd].
  eapply encode_plain. exact Hu.
Qed.

Lemma keep_shaped (G : jsstring -> Prop) r f s :
  (exists rest, lead r = one (ch "<") :: rest /\
     forall v, G v -> matches rest v = false) ->
  shaped (ch "<") G [] s ->
  replace_fn r f s = s.
Proof.
  intros (rest & Hl & Hg) Hs.
  apply (@replace_fn_no_occurrence r _ (ch "<") rest s Hl).
  eapply shaped_weaken; [|exact Hs]. exact Hg.
Qed.

Ltac no_match_heading :=
  let v := fresh "v" in let w := fresh "w" in let H := fresh "H" in
  let d := fresh "d" in
  intros v [(d & w & -> & H)|H];
  simpl in H; destruct H as [H|[H|[H|[]]]]; subst; reflexivity.

Lemma line_text_inv t :
  line_text t = true -> Forall (avoids specials) t /\ forallb dot t = true.
Proof.
  unfold line_text. intros H. apply andb_true_iff in H as [H1 H2].
  split; [now apply plain_avoids|exact H2].
Qed.

Lemma heading_shaped d t :
  In d [ch "1"; ch "2"; ch "3"] ->
  Forall (avoids specials) t ->
  shaped (ch "<") in_heading [] (heading d t).
Proof.
  intros Hd Ht. apply plain_not_lt in Ht. unfold heading.
  assert (Hd' : d <> ch "<").
  { destruct Hd as [<-|[<-|[<-|[]]]]; discriminate. }
  cbn [str app]. apply shaped_hit; [left; exists d; eexists; split; [reflexivity|exact Hd]|].
  apply shaped_skip; [discriminate|]. apply shaped_skip; [exact Hd'|].
  apply shaped_skip; [discriminate|]. apply shaped_plain; [exact Ht|].
  apply shaped_hit.
  { right. destruct Hd as [<-|[<-|[<-|[]]]]; simpl; auto. }
  apply shaped_skip; [discriminate|]. apply shaped_skip; [discriminate|].
  apply shaped_skip; [exact Hd'|]. apply shaped_skip; [discriminate|].
  apply shaped_nil.
Qed.

Lemma heading_avoids bad d t :
  Forall (avoids bad) (str "<h/>") -> avoids bad d ->
  Forall (avoids bad) t -> Forall (avoids bad) (heading d t).
Proof.
  intros Hb Hd Ht. unfold heading.
  inversion Hb as [|? ? B1 Hb1]; subst. inversion Hb1 as [|? ? B2 Hb2]; subst.
  inversion Hb2 as [|? ? B3 Hb3]; subst. inversion Hb3 as [|? ? B4 _]; subst.
  cbn [str app]. repeat (apply Forall_cons; [assumption|]).
  apply Forall_app. split; [exact Ht|].
  repeat (apply Forall_cons; [assumption|]). constructor.
Qed.

(** The stages after the headings leave a heading alone. *)
Lemma heading_kept d t :
  In d [ch "1"; ch "2"; ch "3"] ->
  Forall (avoids specials) t ->
  let s := heading d t in
  replace_all re_link
    [TLit (html "<a href=@"); TGroup 2;
     TLit (html "@ target=@_blank@ rel=@noopener@>"); TGroup 1;
     TLit (str "</a>")]
    (replace_all re_numbered (wrap_in "<li class=@numbered@>" "</li>")
      (replace_all re_item (wrap_in "<li>" "</li>")
        (replace_all re_rule [TLit (str "<hr />")]
          (replace_all re_em (wrap_in "<em>" "</em>")
            (replace_all re_bold (wrap_in "<strong>" "</strong>") s))))) = s /\
  paragraphs s = s /\ wrap s = s /\ cleanup s = s /\ wrap_lists s = s.
Proof.
  intros Hd Ht s.
  assert (Hs : shaped (ch "<") in_heading [] s) by now apply heading_shaped.
  assert (Ha : Forall (avoids [ch "*"; ch "-"; ch "."; ch "["; nl]) s).
  { apply heading_avoids.
    - repeat constructor; intros H; simpl in H; intuition discriminate.
    - destruct Hd as [<-|[<-|[<-|[]]]]; intros H; simpl in H; intuition discriminate.
    - eapply avoids_sub; [|exact Ht]. intros x Hx. simpl in *. intuition. }
  split; [|split; [|split; [|split]]].
  - rewrite (@replace_all_dead (avoids [ch "*"; ch "-"; ch "."; ch "["; nl]) re_bold _ s) by (prove_dead || exact Ha).
    rewrite (@replace_all_dead (avoids [ch "*"; ch "-"; ch "."; ch "["; nl]) re_em _ s) by (prove_dead || exact Ha).
    rewrite (@replace_all_dead (avoids [ch "*"; ch "-"; ch "."; ch "["; nl]) re_rule _ s) by (prove_dead || exact Ha).
    rewrite (@replace_all_dead (avoids [ch "*"; ch "-"; ch "."; ch "["; nl]) re_item _ s) by (prove_dead || exact Ha).
    rewrite (@replace_all_dead (avoids [ch "*"; ch "-"; ch "."; ch "["; nl]) re_numbered _ s) by (prove_dead || exact Ha).
    apply (@replace_all_dead (avoids [ch "*"; ch "-"; ch "."; ch "["; nl]) re_link _ s); [prove_dead|exact Ha].
  - unfold paragraphs. cbv zeta.
    rewrite (@replace_all_dead (avoids [ch "*"; ch "-"; ch "."; ch "["; nl]) re_paragraph _ s) by (prove_dead || exact Ha).
    unfold replace_all.
    rewrite (@keep_shaped in_heading (before_br re_heading_end) _ s)
      by (first [exact Hs | eexists; split; [reflexivity|no_match_heading]]).
    rewrite (@keep_shaped in_heading (before_br (lit "<hr />")) _ s)
      by (first [exact Hs | eexists; split; [reflexivity|no_match_heading]]).
    rewrite (@keep_shaped in_heading (before_br (lit "</table>")) _ s)
      by (first [exact Hs | eexists; split; [reflexivity|no_match_heading]]).
    rewrite (@keep_shaped in_heading (before_br (lit "</ul>")) _ s)
      by (first [exact Hs | eexists; split; [reflexivity|no_match_heading]]).
    rewrite (@keep_shaped in_heading (before_br (lit "</blockquote>")) _ s)
      by (first [exact Hs | eexists; split; [reflexivity|no_match_heading]]).
    apply (@replace_fn_dead (avoids [ch "*"; ch "-"; ch "."; ch "["; nl]) (Chr (one nl)) _ s); [prove_dead|exact Ha].
  - reflexivity.
  - unfold cleanup, replace_all.
    rewrite (@keep_shaped in_heading (lit "<p></p>") _ s)
      by (first [exact Hs | eexists; split; [reflexivity|no_match_heading]]).
    rewrite (@keep_shaped in_heading (lit "<p><br></p>") _ s)
      by (first [exact Hs | eexists; split; [reflexivity|no_match_heading]]).
    rewrite (@keep_shaped in_heading (lit "<br><br>") _ s)
      by (first [exact Hs | eexists; split; [reflexivity|no_match_heading]]).
    rewrite (@keep_shaped in_heading (lit "<p><br>") _ s)
      by (first [exact Hs | eexists; split; [reflexivity|no_match_heading]]).
    apply keep_shaped with (G := in_heading);
      first [exact Hs | eexists; split; [reflexivity|no_match_heading]].
  - unfold wrap_lists.
    apply keep_shaped with (G := in_heading);
      first [exact Hs | eexists; split; [reflexivity|no_match_heading]].
Qed.

(** A line pattern on its line: the group takes the rest of the line. *)
Lemma line_match (marker : string) prev0 t :
  forallb dot t = true ->
  (forall k, rmatch (lit marker) (MState None (str marker ++ t) []) k
             = k (MState prev0 t [])) ->
  exec (line_of [lit marker]) None (str marker ++ t) = Some (str marker ++ t, [(1, t)]).
Proof.
  intros Ht Hm.
  rewrite <- (app_nil_r (str marker ++ t)) at 1.
  apply (@exec_of_rmatch _ None (str marker ++ t) [] [(1, t)] (last_of prev0 t)).
  rewrite app_nil_r. unfold line_of. cbn [app seqs].
  change (rmatch (Seq (Bol true) ?r) (MState None ?s []) ?k)
    with (rmatch r (MState None s []) k).
  change (rmatch (Seq (lit marker) ?r) ?st ?k)
    with (rmatch (lit marker) st (fun st' => rmatch r st' k)).
  rewrite Hm. cbn [rmatch]. unfold star. rewrite rmatch_star. cbn [m_rest].
  rewrite <- (app_nil_r t) at 2.
  apply star_greedy_run; [exact Ht|exact I|lia|].
  cbn [m_rest m_caps m_prev length]. rewrite Nat.sub_0_r, firstn_all. reflexivity.
Qed.

Lemma line_replaced (marker : string) prev0 t tpl p ps :
  forallb dot t = true ->
  (forall k, rmatch (lit marker) (MState None (str marker ++ t) []) k
             = k (MState prev0 t [])) ->
  lead (line_of [lit marker]) = p :: ps ->
  marker <> EmptyString ->
  replace_all (line_of [lit marker]) tpl (str marker ++ t) = subst tpl [(1, t)].
Proof.
  intros Ht Hm Hl Hne. pose proof (line_match marker Ht Hm) as X.
  destruct marker as [|a m]; [contradiction|].
  unfold replace_all, replace_fn, segments.
  change (str (String a m) ++ t) with (N_of_ascii a :: (str m ++ t)) in *.
  rewrite <- (app_nil_r (N_of_ascii a :: (str m ++ t))) at 1.
  rewrite (@scan_match _ None (N_of_ascii a) (str m ++ t) [] [(1, t)])
    by (rewrite app_nil_r; exact X).
  rewrite (@scan_end_lead _ _ p ps Hl). cbn [render flat_map]. apply app_nil_r.
Qed.

Lemma replace_all_no_occurrence r tpl t rest s :
  lead r = one t :: rest ->
  shaped t (fun v => matches rest v = false) [] s ->
  replace_all r tpl s = s.
Proof. apply replace_fn_no_occurrence. Qed.

Lemma hash_free t : Forall (avoids specials) t -> Forall (fun c => c <> ch "#") t.
Proof. apply avoids_neq. simpl. intuition. Qed.

(** The stages before the headings leave a line that starts with [#]
    alone. *)
Lemma heading_source (hashes : string) t :
  In hashes ["# "; "## "; "### "]%string ->
  Forall (avoids specials) t ->
  extract_fences (segments re_fence (str hashes ++ t)) [] = Some ([], str hashes ++ t) /\
  replace_all re_blank_lines [TLit [nl; nl]] (str hashes ++ t) = str hashes ++ t /\
  replace_fn tableRegex render_table (str hashes ++ t) = str hashes ++ t /\
  replace_all re_inline_code (wrap_in "<code class=@inline-code@>" "</code>")
    (str hashes ++ t) = str hashes ++ t /\
  replace_all re_quote (wrap_in "<blockquote>" "</blockquote>") (str hashes ++ t)
    = str hashes ++ t.
Proof.
  intros Hh Ht.
  assert (Ha : Forall (avoids [ch "`"; ch "|"; ch ">"; nl]) (str hashes ++ t)).
  { apply Forall_app. split.
    - destruct Hh as [<-|[<-|[<-|[]]]];
        repeat constructor; intros H; simpl in H; intuition discriminate.
    - eapply avoids_sub; [|exact Ht]. intros x Hx. simpl in *. intuition. }
  repeat split.
  - apply fences_none. eapply avoids_sub; [|exact Ha].
    intros x Hx. simpl in *. intuition.
  - apply (@replace_all_dead (avoids [ch "`"; ch "|"; ch ">"; nl]));
      [prove_dead|exact Ha].
  - apply tables_none. eapply avoids_sub; [|exact Ha].
    intros x Hx. simpl in *. intuition.
  - apply (@replace_all_dead (avoids [ch "`"; ch "|"; ch ">"; nl]));
      [prove_dead|exact Ha].
  - apply (@replace_all_dead (avoids [ch "`"; ch "|"; ch ">"; nl]));
      [prove_dead|exact Ha].
Qed.

Lemma heading_dead d t r tpl :
  In d [ch "1"; ch "2"; ch "3"] ->
  Forall (avoids specials) t ->
  dead (avoids [ch "#"]) r ->
  replace_all r tpl (heading d t) = heading d t.
Proof.
  intros Hd Ht Hr. apply (@replace_all_dead (avoids [ch "#"])); [exact Hr|].
  apply heading_avoids.
  - repeat constructor; intros H; simpl in H; intuition discriminate.
  - destruct Hd as [<-|[<-|[<-|[]]]]; intros H; simpl in H; intuition discriminate.
  - eapply avoids_sub; [|exact Ht]. intros x Hx. simpl in *. intuition.
Qed.

(** X23. A message that is one line of one, two or three [#], a space and a
    plain text without line terminator is rendered as the heading of that
    level, not wrapped in a paragraph. *)
Theorem heading_rendered t :
  line_text t = true ->
  formatMessage (str "# " ++ t) = Some (str "<h1>" ++ t ++ str "</h1>") /\
  formatMessage (str "## " ++ t) = Some (str "<h2>" ++ t ++ str "</h2>") /\
  formatMessage (str "### " ++ t) = Some (str "<h3>" ++ t ++ str "</h3>").
Proof.
  intros H. apply line_text_inv in H as [Ht Hd].
  pose proof (hash_free Ht) as Hh.
  assert (tail : forall d, In d [ch "1"; ch "2"; ch "3"] ->
            wrap_lists (cleanup (wrap (paragraphs
              (replace_all re_link
                [TLit (html "<a href=@"); TGroup 2;
                 TLit (html "@ target=@_blank@ rel=@noopener@>"); TGroup 1;
                 TLit (str "</a>")]
                (replace_all re_numbered (wrap_in "<li class=@numbered@>" "</li>")
                  (replace_all re_item (wrap_in "<li>" "</li>")
                    (replace_all re_rule [TLit (str "<hr />")]
                      (replace_all re_em (wrap_in "<em>" "</em>")
                        (replace_all re_bold (wrap_in "<strong>" "</strong>")
                           (heading d t)))))))))) = heading d t).
  { intros d Hin. destruct (heading_kept Hin Ht) as (E1 & E2 & E3 & E4 & E5).
    rewrite E1, E2, E3, E4. exact E5. }
  split; [|split].
  - destruct (@heading_source "# " t) as (S1 & S2 & S3 & S4 & S5); [simpl; auto|exact Ht|].
    unfold formatMessage. rewrite S1. cbv zeta. rewrite S2, S3.
    unfold inline_markup. cbv zeta. rewrite S4, S5.
    rewrite (@replace_all_no_occurrence re_h3 _ (ch "#") (tl (lead re_h3)) (str "# " ++ t))
      by (first [reflexivity
                | cbn [str app]; apply shaped_hit; [reflexivity|];
                  apply shaped_skip; [discriminate|];
                  rewrite <- (app_nil_r t); apply shaped_plain; [exact Hh|apply shaped_nil]]).
    rewrite (@replace_all_no_occurrence re_h2 _ (ch "#") (tl (lead re_h2)) (str "# " ++ t))
      by (first [reflexivity
                | cbn [str app]; apply shaped_hit; [reflexivity|];
                  apply shaped_skip; [discriminate|];
                  rewrite <- (app_nil_r t); apply shaped_plain; [exact Hh|apply shaped_nil]]).
    unfold re_h1.
    rewrite (@line_replaced "# " (Some (ch " ")) t _ (one (ch "#")) (tl (lead re_h1)))
      by (first [exact Hd | reflexivity | discriminate]).
    change (subst (wrap_in "<h1>" "</h1>") [(1, t)])
      with (str "<h1>" ++ t ++ str "</h1>" ++ []).
    rewrite app_nil_r. change (str "<h1>" ++ t ++ str "</h1>") with (heading (ch "1") t).
    rewrite tail by (simpl; auto). reflexivity.
  - destruct (@heading_source "## " t) as (S1 & S2 & S3 & S4 & S5); [simpl; auto|exact Ht|].
    unfold formatMessage. rewrite S1. cbv zeta. rewrite S2, S3.
    unfold inline_markup. cbv zeta. rewrite S4, S5.
    rewrite (@replace_all_no_occurrence re_h3 _ (ch "#") (tl (lead re_h3)) (str "## " ++ t))
      by (first [reflexivity
                | cbn [str app]; apply shaped_hit; [reflexivity|];
                  apply shaped_hit; [reflexivity|];
                  apply shaped_skip; [discriminate|];
                  rewrite <- (app_nil_r t); apply shaped_plain; [exact Hh|apply shaped_nil]]).
    unfold re_h2.
    rewrite (@line_replaced "## " (Some (ch " ")) t _ (one (ch "#")) (tl (lead re_h2)))
      by (first [exact Hd | reflexivity | discriminate]).
    change (subst (wrap_in "<h2>" "</h2>") [(1, t)])
      with (str "<h2>" ++ t ++ str "</h2>" ++ []).
    rewrite app_nil_r. change (str "<h2>" ++ t ++ str "</h2>") with (heading (ch "2") t).
    rewrite (@heading_dead (ch "2") t re_h1) by (first [exact Ht | prove_dead | simpl; auto]).
    rewrite tail by (simpl; auto). reflexivity.
  - destruct (@heading_source "### " t) as (S1 & S2 & S3 & S4 & S5); [simpl; auto|exact Ht|].
    unfold formatMessage. rewrite S1. cbv zeta. rewrite S2, S3.
    unfold inline_markup. cbv zeta. rewrite S4, S5.
    unfold re_h3.
    rewrite (@line_replaced "### " (Some (ch " ")) t _ (one (ch "#")) (tl (lead re_h3)))
      by (first [exact Hd | reflexivity | discriminate]).
    change (subst (wrap_in "<h3>" "</h3>") [(1, t)])
      with (str "<h3>" ++ t ++ str "</h3>" ++ []).
    rewrite app_nil_r. change (str "<h3>" ++ t ++ str "</h3>") with (heading (ch "3") t).
    rewrite (@heading_dead (ch "3") t re_h2) by (first [exact Ht | prove_dead | simpl; auto]).
    rewrite (@heading_dead (ch "3") t re_h1) by (first [exact Ht | prove_dead | simpl; auto]).
    rewrite tail by (simpl; auto). reflexivity.
Qed.

Lemma heading_rendered_witness :
  formatMessage (str "## Setup and use") = Some (str "<h2>Setup and use</h2>").
Proof.
  apply (proj1 (proj2 (@heading_rendered (str "Setup and use") eq_refl))).
Defined.

Lemma lines_shaped (ls : list jsstring) :
  forallb paragraph ls = true ->
  shaped nl line_starts [] (join [nl] ls).
Proof.
  intros Hls. induction ls as [|p ls IH]; [apply shaped_nil|].
  simpl in Hls. apply andb_true_iff in Hls as [Hp Hls].
  destruct (paragraph_inv _ Hp) as (c & p' & -> & Hc).
  assert (Hnl : Forall (fun x => x <> nl) (c :: p')).
  { apply (avoids_neq nl) in Hc; [exact Hc|]. simpl. intuition. }
  destruct ls as [|q ls].
  - simpl join. rewrite <- (app_nil_r (c :: p')).
    apply shaped_plain; [exact Hnl|apply shaped_nil].
  - rewrite join_cons. apply shaped_plain; [exact Hnl|].
    specialize (IH Hls).
    simpl in Hls. apply andb_true_iff in Hls as [Hq _].
    destruct (paragraph_inv _ Hq) as (d & q' & -> & Hd).
    destruct (join_head [nl] (d :: q') ls) as (rest & Er).
    cbn [app]. apply shaped_hit; [|exact IH].
    rewrite app_nil_r, Er. exists d. eexists. split; [reflexivity|].
    apply (avoids_neq nl) in Hd; [now inversion Hd|]. simpl. intuition.
Qed.

Lemma lines_marks (ls : list jsstring) :
  forallb paragraph ls = true -> Forall (avoids marks) (join [nl] ls).
Proof.
  intros Hls.
  assert (Hnl : Forall (avoids marks) [nl]).
  { repeat constructor; intros H; simpl in H; intuition discriminate. }
  induction ls as [|p ls IH]; [constructor|].
  simpl in Hls. apply andb_true_iff in Hls as [Hp Hls].
  destruct (paragraph_inv _ Hp) as (c & p' & -> & Hc).
  assert (Hm : Forall (avoids marks) (c :: p')).
  { eapply avoids_sub; [|exact Hc]. intros x Hx. simpl in *. intuition. }
  destruct ls as [|q ls]; [exact Hm|].
  rewrite join_cons. apply Forall_app. split; [exact Hm|].
  apply Forall_app. split; [exact Hnl|]. now apply IH.
Qed.

Lemma line_feeds_broken (ls : list jsstring) :
  forallb paragraph ls = true ->
  replace_all (Chr (one nl)) [TLit (str "<br>")] (join [nl] ls) = join (str "<br>") ls.
Proof.
  intros Hls. rewrite replace_one.
  assert (P : forall p, Forall (avoids specials) p ->
            flat_map (fun c => if N.eqb c nl then str "<br>" else [c]) p = p).
  { intros p Hp. apply (avoids_neq nl) in Hp; [|simpl; intuition].
    induction Hp as [|c p Hc _ IH]; [reflexivity|]. cbn [flat_map].
    apply N.eqb_neq in Hc. rewrite Hc, IH. reflexivity. }
  induction ls as [|p ls IH]; [reflexivity|].
  simpl in Hls. apply andb_true_iff in Hls as [Hp Hls].
  destruct (paragraph_inv _ Hp) as (c & p' & -> & Hc).
  destruct ls as [|q ls]; [now apply P|].
  rewrite !join_cons, !flat_map_app.
  apply f_equal2; [exact (P _ Hc)|]. apply f_equal2; [reflexivity|exact (IH Hls)].
Qed.

Lemma broken_lines_shaped (ls : list jsstring) :
  forallb paragraph ls = true ->
  shaped (ch "<") in_lines [] (join (str "<br>") ls ++ str "</p>").
Proof.
  intros Hls.
  assert (Hend : shaped (ch "<") in_lines [] (str "</p>")).
  { apply shaped_hit; [right; left; eexists; reflexivity|].
    do 3 (apply shaped_skip; [discriminate|]). apply shaped_nil. }
  induction ls as [|p ls IH]; [exact Hend|].
  simpl in Hls. apply andb_true_iff in Hls as [Hp Hls].
  destruct (paragraph_inv _ Hp) as (c & p' & -> & Hc).
  apply plain_not_lt in Hc.
  destruct ls as [|q ls].
  - simpl join. apply shaped_plain; [exact Hc|exact Hend].
  - rewrite join_cons, <- !app_assoc. apply shaped_plain; [exact Hc|].
    specialize (IH Hls).
    simpl in Hls. apply andb_true_iff in Hls as [Hq _].
    destruct (paragraph_inv _ Hq) as (d & q' & -> & Hd).
    destruct (join_head (str "<br>") (d :: q') ls) as (rest & Er).
    rewrite Er in *. cbn [str app]. apply shaped_hit.
    + right. right. exists d. eexists. split; [rewrite app_nil_r; reflexivity|].
      apply plain_not_lt in Hd. now inversion Hd.
    + do 3 (apply shaped_skip; [discriminate|]). exact IH.
Qed.

Ltac no_match_lines :=
  let v := fresh "v" in let c := fresh "c" in let Hc := fresh "Hc" in
  let E := fresh "E" in let w := fresh "w" in
  intros v [(c & w & -> & Hc)|[(w & ->)|(c & w & -> & Hc)]];
  [assert (E : N.eqb c 60 = false) by (apply N.eqb_neq; exact Hc);
   cbn; unfold one; rewrite ?E; reflexivity
  |reflexivity
  |assert (E : N.eqb c 60 = false) by (apply N.eqb_neq; exact Hc);
   cbn; unfold one; rewrite ?E; reflexivity].

(** X24. A message of non-empty plain lines separated by single line feeds
    is rendered as one paragraph, with [<br>] for every line feed. *)
Theorem line_breaks (ls : list jsstring) :
  ls <> [] ->
  forallb paragraph ls = true ->
  formatMessage (join [nl] ls) = Some (str "<p>" ++ join (str "<br>") ls ++ str "</p>").
Proof.
  intros Hne Hls.
  pose proof (lines_marks ls Hls) as Hm.
  pose proof (lines_shaped ls Hls) as Hs.
  unfold formatMessage.
  rewrite fences_none
    by (eapply avoids_sub; [|exact Hm]; intros x Hx; simpl in *; intuition).
  cbv zeta.
  rewrite (@replace_all_no_occurrence re_blank_lines _ nl [one nl; one nl] (join [nl] ls))
    by (first [reflexivity
              | eapply shaped_weaken; [|exact Hs];
                intros v (c & w & -> & Hc); apply N.eqb_neq in Hc;
                cbn; unfold one; now rewrite Hc]).
  rewrite tables_none
    by (eapply avoids_sub; [|exact Hm]; intros x Hx; simpl in *; intuition).
  rewrite inline_markup_plain
    by (eapply avoids_sub; [|exact Hm]; intros x Hx; simpl in *; intuition).
  assert (Hlt : Forall (avoids [ch "<"]) (join [nl] ls)).
  { eapply avoids_sub; [|exact Hm]. intros x Hx. simpl in *. intuition. }
  unfold paragraphs. cbv zeta.
  rewrite (@replace_all_no_occurrence re_paragraph _ nl [one nl] (join [nl] ls))
    by (first [reflexivity
              | eapply shaped_weaken; [|exact Hs];
                intros v (c & w & -> & Hc); apply N.eqb_neq in Hc;
                cbn; unfold one; now rewrite Hc]).
  rewrite (@replace_all_dead (avoids [ch "<"]) (before_br re_heading_end) _ (join [nl] ls))
    by (prove_dead || exact Hlt).
  rewrite (@replace_all_dead (avoids [ch "<"]) (before_br (lit "<hr />")) _ (join [nl] ls))
    by (prove_dead || exact Hlt).
  rewrite (@replace_all_dead (avoids [ch "<"]) (before_br (lit "</table>")) _ (join [nl] ls))
    by (prove_dead || exact Hlt).
  rewrite (@replace_all_dead (avoids [ch "<"]) (before_br (lit "</ul>")) _ (join [nl] ls))
    by (prove_dead || exact Hlt).
  rewrite (@replace_all_dead (avoids [ch "<"]) (before_br (lit "</blockquote>")) _ (join [nl] ls))
    by (prove_dead || exact Hlt).
  rewrite line_feeds_broken by exact Hls.
  pose proof (broken_lines_shaped ls Hls) as Hb.
  assert (W : wrap (join (str "<br>") ls) = str "<p>" ++ join (str "<br>") ls ++ str "</p>").
  { destruct ls as [|p ls]; [congruence|].
    simpl in Hls. apply andb_true_iff in Hls as [Hp _].
    destruct (paragraph_inv _ Hp) as (c & p' & -> & Hc).
    apply plain_not_lt in Hc.
    pose proof (@wrap_join (str "<br>") c p' ls []) as X.
    rewrite !app_nil_r in X. apply X. now inversion Hc. }
  rewrite W.
  assert (Hw : shaped (ch "<") in_lines [] (str "<p>" ++ join (str "<br>") ls ++ str "</p>")).
  { destruct ls as [|p ls]; [congruence|].
    pose proof Hls as Hls'.
    simpl in Hls'. apply andb_true_iff in Hls' as [Hp _].
    destruct (paragraph_inv _ Hp) as (c & p' & E & Hc). subst p.
    destruct (join_head (str "<br>") (c :: p') ls) as (rest & Er).
    change (str "<p>" ++ ?x) with (ch "<" :: ch "p" :: ch ">" :: x).
    apply shaped_hit.
    - left. exists c. eexists. split; [rewrite Er; reflexivity|].
      apply plain_not_lt in Hc. now inversion Hc.
    - do 2 (apply shaped_skip; [discriminate|]). exact Hb. }
  unfold cleanup, replace_all.
  rewrite (@keep_shaped in_lines (lit "<p></p>") _ _)
    by (first [exact Hw | eexists; split; [reflexivity|no_match_lines]]).
  rewrite (@keep_shaped in_lines (lit "<p><br></p>") _ _)
    by (first [exact Hw | eexists; split; [reflexivity|no_match_lines]]).
  rewrite (@keep_shaped in_lines (lit "<br><br>") _ _)
    by (first [exact Hw | eexists; split; [reflexivity|no_match_lines]]).
  rewrite (@keep_shaped in_lines (lit "<p><br>") _ _)
    by (first [exact Hw | eexists; split; [reflexivity|no_match_lines]]).
  rewrite (@keep_shaped in_lines (lit "<br></p>") _ _)
    by (first [exact Hw | eexists; split; [reflexivity|no_match_lines]]).
  unfold wrap_lists.
  rewrite (@keep_shaped in_lines re_items _ _)
    by (first [exact Hw | eexists; split; [reflexivity|no_match_lines]]).
  reflexivity.
Qed.

Lemma line_breaks_witness :
  formatMessage (lines ["one"; "two"]%string) = Some (str "<p>one<br>two</p>").
Proof.
  apply (@line_breaks [str "one"; str "two"]); [discriminate|reflexivity].
Defined.

Lemma blank_run_match prev m c u :
  c <> nl ->
  exec re_blank_lines prev (repeat nl (3 + m) ++ c :: u) = Some (repeat nl (3 + m), []).
Proof.
  intros Hc.
  apply (@exec_of_rmatch re_blank_lines prev (repeat nl (3 + m)) (c :: u) [] (Some nl)).
  unfold re_blank_lines, seqs. cbn [Nat.add repeat app].
  change (rmatch (Seq (Chr (one nl)) ?r) (MState ?p (nl :: ?s) ?caps) ?k)
    with (rmatch r (MState (Some nl) s caps) k).
  change (rmatch (Seq (Chr (one nl)) ?r) (MState ?p (nl :: ?s) ?caps) ?k)
    with (rmatch r (MState (Some nl) s caps) k).
  change (rmatch (Seq (Chr (one nl)) ?r) (MState ?p (nl :: ?s) ?caps) ?k)
    with (rmatch r (MState (Some nl) s caps) k).
  unfold star. rewrite rmatch_star. cbn [m_rest].
  apply star_greedy_run.
  - clear. induction m; [reflexivity|]. simpl. exact IHm.
  - unfold one. now apply N.eqb_neq.
  - rewrite length_app, repeat_length. lia.
  - assert (L : last_of (Some nl) (repeat nl m) = Some nl).
    { clear. induction m as [|m IH]; [reflexivity|]. simpl. exact IH. }
    now rewrite L.
Qed.

(** X25. Two plain paragraphs separated by two or more line feeds are
    rendered as two paragraphs, whatever the number of line feeds. *)
Theorem blank_lines_collapse p q n :
  paragraph p = true ->
  paragraph q = true ->
  2 <= n ->
  formatMessage (p ++ repeat nl n ++ q) = Some (blocks [p; q]).
Proof.
  intros Hp Hq Hn.
  assert (Hps : forallb paragraph [p; q] = true) by (simpl; now rewrite Hp, Hq).
  pose proof (@plain_paragraphs [p; q] [] ltac:(discriminate) Hps (or_introl eq_refl)) as H.
  rewrite app_nil_r in H. change (join [nl; nl] [p; q]) with (p ++ [nl; nl] ++ q) in H.
  destruct (Nat.eq_dec n 2) as [->|Hn2]; [exact H|].
  destruct n as [|[|[|m]]]; try lia. clear Hn Hn2.
  destruct (paragraph_inv _ Hp) as (c & p' & Ep & Hc).
  destruct (paragraph_inv _ Hq) as (d & q' & Eq & Hd).
  assert (Hpn : Forall (fun x => x <> nl) p).
  { rewrite Ep. apply (avoids_neq nl) in Hc; [exact Hc|]. simpl. intuition. }
  assert (Hqn : Forall (fun x => x <> nl) q).
  { rewrite Eq. apply (avoids_neq nl) in Hd; [exact Hd|]. simpl. intuition. }
  assert (Hm : forall k, Forall (avoids [ch "`"]) (p ++ repeat nl k ++ q)).
  { intros k. apply Forall_app. split; [|apply Forall_app; split].
    - rewrite Ep. eapply avoids_sub; [|exact Hc]. intros x Hx. simpl in *. intuition.
    - clear. induction k; simpl; constructor; auto.
      intros H. simpl in H. intuition discriminate.
    - rewrite Eq. eapply avoids_sub; [|exact Hd]. intros x Hx. simpl in *. intuition. }
  assert (S2 : replace_all re_blank_lines [TLit [nl; nl]] (p ++ repeat nl (S (S (S m))) ++ q)
               = p ++ [nl; nl] ++ q).
  { change (S (S (S m))) with (3 + m). unfold replace_all, replace_fn, segments.
    rewrite (@scan_over_plain re_blank_lines nl [one nl; one nl] p _ None eq_refl Hpn).
    rewrite render_app, render_chars. f_equal.
    assert (X : exec re_blank_lines (last_of None p) (repeat nl (3 + m) ++ q)
                = Some (repeat nl (3 + m), [])).
    { rewrite Eq. apply blank_run_match. inversion Hqn as [|? ? Hx _]; congruence. }
    change (repeat nl (3 + m)) with (nl :: repeat nl (2 + m)) in *.
    rewrite (@scan_match re_blank_lines _ nl (repeat nl (2 + m)) q [] X).
    rewrite <- (app_nil_r q) at 1.
    rewrite (@scan_over_plain re_blank_lines nl [one nl; one nl] q [] _ eq_refl Hqn).
    rewrite (@scan_end_lead re_blank_lines _ (one nl) [one nl; one nl] eq_refl).
    cbn [render flat_map subst app]. rewrite app_nil_r.
    change (flat_map _ (map SChar q)) with
      (render (fun (_ : jsstring) caps => subst [TLit [nl; nl]] caps) (map SChar q)).
    now rewrite render_chars. }
  unfold formatMessage in *.
  rewrite fences_none in * by (apply (Hm 2) || apply Hm).
  cbv zeta in *. rewrite S2.
  pose proof (@blank_lines_kept [p; q] [] Hps (or_introl eq_refl)) as K.
  rewrite app_nil_r in K. change (join [nl; nl] [p; q]) with (p ++ [nl; nl] ++ q) in K.
  rewrite K in H. exact H.
Qed.

Lemma blank_lines_collapse_witness :
  formatMessage (str "one" ++ repeat nl 5 ++ str "two") = Some (str "<p>one</p><p>two</p>").
Proof.
  apply (@blank_lines_collapse (str "one") (str "two") 5); [reflexivity|reflexivity|lia].
Defined.

Ltac no_match_inline :=
  let v := fresh "v" in let x := fresh "x" in let w := fresh "w" in
  let H := fresh "H" in let E := fresh "E" in
  intros v [(x & w & -> & H)|[(x & w & -> & H)|[(x & w & -> & H)|(x & w & -> & H)]]];
  [ simpl in H; destruct H as [H|[H|[H|[H|[]]]]]; subst; reflexivity
  | simpl in H; destruct H as [H|[H|[H|[H|[H|[]]]]]]; subst; reflexivity
  | assert (E : N.eqb x 60 = false) by (apply N.eqb_neq; exact H);
    cbn; unfold one; rewrite ?E; reflexivity
  | simpl in H; destruct H as [H|[H|[H|[H|[]]]]]; subst; reflexivity ].

(** The stages after the inline markup, on a text where every [<] opens
    or closes an inline element. *)
Lemma inline_tail s :
  shaped (ch "<") in_inline [] s ->
  shaped (ch "<") in_inline [] (str "<p>" ++ s ++ str "</p>") ->
  Forall (avoids [nl]) s ->
  wrap s = str "<p>" ++ s ++ str "</p>" ->
  wrap_lists (cleanup (wrap (paragraphs s))) = str "<p>" ++ s ++ str "</p>".
Proof.
  intros Hs Hw Hn W.
  assert (P : paragraphs s = s).
  { unfold paragraphs. cbv zeta.
    rewrite (@replace_all_dead (avoids [nl]) re_paragraph _ s) by (prove_dead || exact Hn).
    unfold replace_all.
    rewrite (@keep_shaped in_inline (before_br re_heading_end) _ s)
      by (first [exact Hs | eexists; split; [reflexivity|no_match_inline]]).
    rewrite (@keep_shaped in_inline (before_br (lit "<hr />")) _ s)
      by (first [exact Hs | eexists; split; [reflexivity|no_match_inline]]).
    rewrite (@keep_shaped in_inline (before_br (lit "</table>")) _ s)
      by (first [exact Hs | eexists; split; [reflexivity|no_match_inline]]).
    rewrite (@keep_shaped in_inline (before_br (lit "</ul>")) _ s)
      by (first [exact Hs | eexists; split; [reflexivity|no_match_inline]]).
    rewrite (@keep_shaped in_inline (before_br (lit "</blockquote>")) _ s)
      by (first [exact Hs | eexists; split; [reflexivity|no_match_inline]]).
    apply (@replace_fn_dead (avoids [nl]) (Chr (one nl)) _ s); [prove_dead|exact Hn]. }
  rewrite P, W. unfold cleanup, replace_all.
  rewrite (@keep_shaped in_inline (lit "<p></p>") _ _)
    by (first [exact Hw | eexists; split; [reflexivity|no_match_inline]]).
  rewrite (@keep_shaped in_inline (lit "<p><br></p>") _ _)
    by (first [exact Hw | eexists; split; [reflexivity|no_match_inline]]).
  rewrite (@keep_shaped in_inline (lit "<br><br>") _ _)
    by (first [exact Hw | eexists; split; [reflexivity|no_match_inline]]).
  rewrite (@keep_shaped in_inline (lit "<p><br>") _ _)
    by (first [exact Hw | eexists; split; [reflexivity|no_match_inline]]).
  rewrite (@keep_shaped in_inline (lit "<br></p>") _ _)
    by (first [exact Hw | eexists; split; [reflexivity|no_match_inline]]).
  unfold wrap_lists.
  apply keep_shaped with (G := in_inline);
    first [exact Hw | eexists; split; [reflexivity|no_match_inline]].
Qed.

Lemma shaped_app t (G : jsstring -> Prop) tail s1 s2 :
  shaped t G (s2 ++ tail) s1 -> shaped t G tail s2 -> shaped t G tail (s1 ++ s2).
Proof.
  intros H1 H2. induction H1 as [|c s Hc _ IH|s Hg _ IH]; simpl.
  - exact H2.
  - apply shaped_skip; assumption.
  - apply shaped_hit; [now rewrite <- app_assoc|assumption].
Qed.

Lemma shaped_free t (G : jsstring -> Prop) tail s :
  Forall (fun c => c <> t) s -> shaped t G tail s.
Proof.
  intros H. rewrite <- (app_nil_r s). apply shaped_plain; [exact H|apply shaped_nil].
Qed.

Lemma letter_not_lt x : In x (ch "p" :: tag_letters) -> x <> ch "<".
Proof. simpl. intros [<-|[<-|[<-|[<-|[<-|[]]]]]]; discriminate. Qed.

(** A text with one inline element [<x...>t</y...>]. *)
Lemma element_shaped a x ro t y rc b tail :
  In x tag_letters -> In y tag_letters ->
  Forall (fun c => c <> ch "<") a -> Forall (fun c => c <> ch "<") ro ->
  Forall (fun c => c <> ch "<") t -> Forall (fun c => c <> ch "<") rc ->
  Forall (fun c => c <> ch "<") b ->
  shaped (ch "<") in_inline tail
    (a ++ (ch "<" :: x :: ro) ++ t ++ (ch "<" :: ch "/" :: y :: rc) ++ b).
Proof.
  intros Hx Hy Ha Hro Ht Hrc Hb.
  apply shaped_plain; [exact Ha|]. cbn [app]. apply shaped_hit.
  { left. exists x. eexists. split; [reflexivity|exact Hx]. }
  apply shaped_skip; [apply letter_not_lt; now right|].
  apply shaped_plain; [exact Hro|]. apply shaped_plain; [exact Ht|].
  cbn [app]. apply shaped_hit.
  { right. left. exists y. eexists. split; [reflexivity|now right]. }
  apply shaped_skip; [discriminate|].
  apply shaped_skip; [apply letter_not_lt; now right|].
  apply shaped_plain; [exact Hrc|]. now apply shaped_free.
Qed.

Lemma element_wrapped a x ro t y rc b :
  In x tag_letters -> In y tag_letters ->
  Forall (fun c => c <> ch "<") a -> Forall (fun c => c <> ch "<") ro ->
  Forall (fun c => c <> ch "<") t -> Forall (fun c => c <> ch "<") rc ->
  Forall (fun c => c <> ch "<") b ->
  let s := a ++ (ch "<" :: x :: ro) ++ t ++ (ch "<" :: ch "/" :: y :: rc) ++ b in
  shaped (ch "<") in_inline [] (str "<p>" ++ s ++ str "</p>") /\
  wrap s = str "<p>" ++ s ++ str "</p>".
Proof.
  intros Hx Hy Ha Hro Ht Hrc Hb s. split.
  - change (str "<p>" ++ s ++ str "</p>")
      with (ch "<" :: ch "p" :: ch ">" :: s ++ str "</p>").
    apply shaped_hit.
    { rewrite app_nil_r. unfold s. destruct a as [|c a'].
      - right. right. right. exists x. eexists. split; [reflexivity|exact Hx].
      - right. right. left. exists c. eexists. split; [reflexivity|now inversion Ha]. }
    do 2 (apply shaped_skip; [discriminate|]).
    apply shaped_app; [now apply element_shaped|].
    apply shaped_hit.
    { right. left. exists (ch "p"). eexists. split; [reflexivity|now left]. }
    do 3 (apply shaped_skip; [discriminate|]). apply shaped_nil.
  - unfold s. destruct a as [|c a'].
    + unfold wrap. cbn [app startsWith str].
      simpl in Hx. destruct Hx as [<-|[<-|[<-|[<-|[]]]]]; reflexivity.
    + apply wrap_text. now inversion Ha.
Qed.

Lemma element_replaced r tpl a k w caps b rest :
  lead r = one k :: rest ->
  Forall (fun c => c <> k) a -> Forall (fun c => c <> k) b ->
  (forall prev, exec r prev ((k :: w) ++ b) = Some (k :: w, caps)) ->
  replace_all r tpl (a ++ (k :: w) ++ b) = a ++ subst tpl caps ++ b.
Proof.
  intros Hl Ha Hb Hx. unfold replace_all, replace_fn, segments.
  rewrite (@scan_over_plain r k rest a _ None Hl Ha).
  rewrite render_app, render_chars. f_equal.
  rewrite (@scan_match r _ k w b caps (Hx _)).
  rewrite <- (app_nil_r b) at 1.
  rewrite (@scan_over_plain r k rest b [] _ Hl Hb).
  rewrite (@scan_end_lead r _ (one k) rest Hl), app_nil_r.
  cbn [render flat_map]. f_equal.
  change (flat_map _ (map SChar b)) with
    (render (fun (_ : jsstring) caps0 => subst tpl caps0) (map SChar b)).
  apply render_chars.
Qed.

(** A delimiter, a lazy run of [.], the delimiter again: the group takes
    the text up to the first delimiter. *)
Lemma emphasis_match (delim : string) prev c t u :
  (forall p s caps k,
     rmatch (lit delim) (MState p (str delim ++ s) caps) k
     = k (MState (Some (ch "*")) s caps)) ->
  (forall p x s caps k, x <> ch "*" ->
     rmatch (lit delim) (MState p (x :: s) caps) k = None) ->
  forallb dot (c :: t) = true ->
  Forall (fun x => x <> ch "*") (c :: t) ->
  rmatch (seqs [lit delim; Group 1 (lazy_plus (Chr dot)); lit delim])
         (MState prev (str delim ++ (c :: t) ++ str delim ++ u) []) Some
  = Some (MState (Some (ch "*")) u [(1, c :: t)]).
Proof.
  intros Hin Hout Hd Hs. cbn [seqs].
  change (rmatch (Seq (lit delim) ?r) ?st ?k)
    with (rmatch (lit delim) st (fun st' => rmatch r st' k)).
  rewrite Hin.
  change (lazy_plus (Chr dot)) with (Seq (Chr dot) (lazy_star (Chr dot))).
  cbn [rmatch m_rest app].
  cbn [forallb] in Hd. apply andb_true_iff in Hd as [Hc Hd]. rewrite Hc.
  unfold lazy_star. rewrite rmatch_star. cbn [m_rest].
  inversion Hs as [|? ? Hcs Hts]; subst.
  apply star_lazy_until; [exact Hd| |rewrite length_app; lia|].
  - intros a1 x a2 E. cbn [m_rest m_caps m_prev]. apply Hout.
    rewrite E in Hts. apply Forall_app in Hts as [_ Hts]. now inversion Hts.
  - cbn [m_rest m_caps m_prev]. rewrite Hin. f_equal. f_equal. f_equal. f_equal.
    change (c :: t ++ str delim ++ u) with ((c :: t) ++ str delim ++ u).
    apply firstn_grown.
Qed.

Lemma emphasis_exec (delim : string) prev c t u :
  (forall p s caps k,
     rmatch (lit delim) (MState p (str delim ++ s) caps) k
     = k (MState (Some (ch "*")) s caps)) ->
  (forall p x s caps k, x <> ch "*" ->
     rmatch (lit delim) (MState p (x :: s) caps) k = None) ->
  forallb dot (c :: t) = true ->
  Forall (fun x => x <> ch "*") (c :: t) ->
  exec (seqs [lit delim; Group 1 (lazy_plus (Chr dot)); lit delim]) prev
       ((str delim ++ (c :: t) ++ str delim) ++ u)
  = Some (str delim ++ (c :: t) ++ str delim, [(1, c :: t)]).
Proof.
  intros Hin Hout Hd Hs.
  apply (@exec_of_rmatch _ prev _ u _ (Some (ch "*"))).
  rewrite <- (@emphasis_match delim prev c t u Hin Hout Hd Hs).
  f_equal. f_equal. now rewrite <- !app_assoc.
Qed.

Lemma bold_delimiter :
  (forall p s caps k,
     rmatch (lit "**") (MState p (str "**" ++ s) caps) k
     = k (MState (Some (ch "*")) s caps)) /\
  (forall p x s caps k, x <> ch "*" ->
     rmatch (lit "**") (MState p (x :: s) caps) k = None).
Proof.
  split; [reflexivity|]. intros p x s caps k Hx. apply lead_sound.
  cbn [lead lit str map seqs fixed app andb m_rest matches]. unfold one at 1.
  apply N.eqb_neq in Hx. change (N_of_ascii "*") with (ch "*"). now rewrite Hx.
Qed.

Lemma em_delimiter :
  (forall p s caps k,
     rmatch (lit "*") (MState p (str "*" ++ s) caps) k
     = k (MState (Some (ch "*")) s caps)) /\
  (forall p x s caps k, x <> ch "*" ->
     rmatch (lit "*") (MState p (x :: s) caps) k = None).
Proof.
  split; [reflexivity|]. intros p x s caps k Hx. apply lead_sound.
  cbn [lead lit str map seqs fixed app andb m_rest matches]. unfold one at 1.
  apply N.eqb_neq in Hx. change (N_of_ascii "*") with (ch "*"). now rewrite Hx.
Qed.

Lemma plain_free k s :
  In k specials -> plain_text s = true -> Forall (fun c => c <> k) s.
Proof. intros Hk H. apply (@avoids_neq specials k); [exact Hk|now apply plain_avoids]. Qed.

Lemma app_avoids bad (l : list jsstring) :
  Forall (Forall (avoids bad)) l -> Forall (avoids bad) (concat l).
Proof.
  induction 1 as [|x l Hx _ IH]; simpl; [constructor|]. now apply Forall_app.
Qed.

Ltac avoid_chars :=
  repeat constructor; intros ?H; simpl in *; intuition discriminate.

Ltac avoid_plain H :=
  eapply avoids_sub; [|apply plain_avoids; exact H];
  intros ?x ?Hx; simpl in *; intuition.

Ltac same_text :=
  repeat (progress (cbn [str html map app subst wrap_in flat_map capture Nat.eqb];
                    rewrite <- ?app_assoc));
  reflexivity.

(** X26. In a line of plain text, [**t**] is rendered as [<strong>t</strong>]
    and [*t*] as [<em>t</em>], for a non-empty plain text [t] without line
    terminator; the text before and after is unchanged and the whole is one
    paragraph. *)
Theorem emphasis_rendered a t b :
  plain_text a = true ->
  line_text t = true -> t <> [] ->
  plain_text b = true ->
  formatMessage (a ++ str "**" ++ t ++ str "**" ++ b)
    = Some (str "<p>" ++ a ++ str "<strong>" ++ t ++ str "</strong>" ++ b ++ str "</p>") /\
  formatMessage (a ++ str "*" ++ t ++ str "*" ++ b)
    = Some (str "<p>" ++ a ++ str "<em>" ++ t ++ str "</em>" ++ b ++ str "</p>").
Proof.
  intros Ha Ht Hne Hb.
  unfold line_text in Ht. apply andb_true_iff in Ht as [Ht Hd].
  destruct t as [|c t]; [congruence|]. clear Hne.
  assert (Hlt : forall s, plain_text s = true -> Forall (fun x => x <> ch "<") s).
  { intros s Hs. apply plain_free; [simpl; intuition|exact Hs]. }
  assert (Hst : forall s, plain_text s = true -> Forall (fun x => x <> ch "*") s).
  { intros s Hs. apply plain_free; [simpl; intuition|exact Hs]. }
  assert (front : forall delim : string, In delim ["**"; "*"]%string ->
    let src := a ++ str delim ++ (c :: t) ++ str delim ++ b in
    extract_fences (segments re_fence src) [] = Some ([], src) /\
    replace_all re_blank_lines [TLit [nl; nl]] src = src /\
    replace_fn tableRegex render_table src = src /\
    replace_all re_inline_code (wrap_in "<code class=@inline-code@>" "</code>") src = src /\
    replace_all re_quote (wrap_in "<blockquote>" "</blockquote>") src = src /\
    replace_all re_h3 (wrap_in "<h3>" "</h3>") src = src /\
    replace_all re_h2 (wrap_in "<h2>" "</h2>") src = src /\
    replace_all re_h1 (wrap_in "<h1>" "</h1>") src = src).
  { intros delim Hin src.
    assert (A : Forall (avoids [ch "`"; ch "|"; ch ">"; ch "#"; nl]) src).
    { unfold src.
      assert (D : Forall (avoids [ch "`"; ch "|"; ch ">"; ch "#"; nl]) (str delim)).
      { destruct Hin as [<-|[<-|[]]]; avoid_chars. }
      repeat (apply Forall_app; split); try exact D; avoid_plain Ha || avoid_plain Ht
        || avoid_plain Hb. }
    repeat split.
    - apply fences_none. eapply avoids_sub; [|exact A]. intros x Hx. simpl in *. intuition.
    - apply (@replace_all_dead (avoids [ch "`"; ch "|"; ch ">"; ch "#"; nl]));
        [prove_dead|exact A].
    - apply tables_none. eapply avoids_sub; [|exact A]. intros x Hx. simpl in *. intuition.
    - apply (@replace_all_dead (avoids [ch "`"; ch "|"; ch ">"; ch "#"; nl]));
        [prove_dead|exact A].
    - apply (@replace_all_dead (avoids [ch "`"; ch "|"; ch ">"; ch "#"; nl]));
        [prove_dead|exact A].
    - apply (@replace_all_dead (avoids [ch "`"; ch "|"; ch ">"; ch "#"; nl]));
        [prove_dead|exact A].
    - apply (@replace_all_dead (avoids [ch "`"; ch "|"; ch ">"; ch "#"; nl]));
        [prove_dead|exact A].
    - apply (@replace_all_dead (avoids [ch "`"; ch "|"; ch ">"; ch "#"; nl]));
        [prove_dead|exact A]. }
  assert (back : forall x ro, In x tag_letters ->
    Forall (avoids [ch "*"; ch "-"; ch "."; ch "["; nl; ch "<"]) ro ->
    let out := a ++ (ch "<" :: x :: ro) ++ (c :: t) ++ (ch "<" :: ch "/" :: x :: ro) ++ b in
    replace_all re_em (wrap_in "<em>" "</em>") out = out /\
    wrap_lists (cleanup (wrap (paragraphs
      (replace_all re_link
        [TLit (html "<a href=@"); TGroup 2;
         TLit (html "@ target=@_blank@ rel=@noopener@>"); TGroup 1;
         TLit (str "</a>")]
        (replace_all re_numbered (wrap_in "<li class=@numbered@>" "</li>")
          (replace_all re_item (wrap_in "<li>" "</li>")
            (replace_all re_rule [TLit (str "<hr />")] out)))))))
    = str "<p>" ++ out ++ str "</p>").
  { intros x ro Hx Hro out.
    assert (Hro' : Forall (fun y => y <> ch "<") ro).
    { apply (@avoids_neq [ch "*"; ch "-"; ch "."; ch "["; nl; ch "<"]); [|exact Hro].
      simpl. intuition. }
    assert (Hxa : forall bad, ~ In x bad -> avoids bad x) by (intros bad H; exact H).
    assert (A : Forall (avoids [ch "*"; ch "-"; ch "."; ch "["; nl]) out).
    { assert (Hx' : avoids [ch "*"; ch "-"; ch "."; ch "["; nl] x).
      { simpl in Hx. destruct Hx as [<-|[<-|[<-|[<-|[]]]]]; intros H; simpl in H;
          intuition discriminate. }
      assert (R : Forall (avoids [ch "*"; ch "-"; ch "."; ch "["; nl]) ro).
      { eapply avoids_sub; [|exact Hro]. intros y Hy. simpl in *. intuition. }
      unfold out. apply Forall_app. split; [avoid_plain Ha|].
      apply Forall_app. split.
      { apply Forall_cons; [intros H; simpl in H; intuition discriminate|].
        apply Forall_cons; [exact Hx'|exact R]. }
      apply Forall_app. split; [avoid_plain Ht|].
      apply Forall_app. split; [|avoid_plain Hb].
      apply Forall_cons; [intros H; simpl in H; intuition discriminate|].
      apply Forall_cons; [intros H; simpl in H; intuition discriminate|].
      apply Forall_cons; [exact Hx'|exact R]. }
    split.
    { apply (@replace_all_dead (avoids [ch "*"; ch "-"; ch "."; ch "["; nl]));
        [prove_dead|exact A]. }
    rewrite (@replace_all_dead (avoids [ch "*"; ch "-"; ch "."; ch "["; nl]) re_rule _ out)
      by (prove_dead || exact A).
    rewrite (@replace_all_dead (avoids [ch "*"; ch "-"; ch "."; ch "["; nl]) re_item _ out)
      by (prove_dead || exact A).
    rewrite (@replace_all_dead (avoids [ch "*"; ch "-"; ch "."; ch "["; nl]) re_numbered _ out)
      by (prove_dead || exact A).
    rewrite (@replace_all_dead (avoids [ch "*"; ch "-"; ch "."; ch "["; nl]) re_link _ out)
      by (prove_dead || exact A).
    destruct (@element_wrapped a x ro (c :: t) x ro b Hx Hx (Hlt _ Ha) Hro' (Hlt _ Ht)
                Hro' (Hlt _ Hb)) as [Hw W].
    apply inline_tail; [|exact Hw| |exact W].
    - apply element_shaped; auto.
    - eapply avoids_sub; [|exact A]. intros y Hy. simpl in *. intuition. }
  split.
  - destruct (front "**"%string) as (S1 & S2 & S3 & S4 & S5 & S6 & S7 & S8); [simpl; auto|].
    unfold formatMessage. rewrite S1. cbv zeta. rewrite S2, S3.
    unfold inline_markup. cbv zeta. rewrite S4, S5, S6, S7, S8.
    destruct (back (ch "s") (str "trong>")) as [E T]; [simpl; auto|avoid_chars|].
    assert (B : replace_all re_bold (wrap_in "<strong>" "</strong>")
                  (a ++ str "**" ++ (c :: t) ++ str "**" ++ b)
                = a ++ (ch "<" :: ch "s" :: str "trong>") ++ (c :: t) ++
                  (ch "<" :: ch "/" :: ch "s" :: str "trong>") ++ b).
    { replace (a ++ str "**" ++ (c :: t) ++ str "**" ++ b)
        with (a ++ (ch "*" :: (ch "*" :: (c :: t) ++ str "**")) ++ b)
        by same_text.
      rewrite (@element_replaced re_bold _ a (ch "*") (ch "*" :: (c :: t) ++ str "**")
                 [(1, c :: t)] b (tl (lead re_bold)) eq_refl (Hst _ Ha) (Hst _ Hb)).
      - f_equal. same_text.
      - intros prev.
        exact (@emphasis_exec "**" prev c t b (proj1 bold_delimiter) (proj2 bold_delimiter)
                 Hd (Hst _ Ht)). }
    rewrite B, E, T. f_equal. same_text.
  - destruct (front "*"%string) as (S1 & S2 & S3 & S4 & S5 & S6 & S7 & S8); [simpl; auto|].
    unfold formatMessage. rewrite S1. cbv zeta. rewrite S2, S3.
    unfold inline_markup. cbv zeta. rewrite S4, S5, S6, S7, S8.
    destruct (back (ch "e") (str "m>")) as [_ T]; [simpl; auto|avoid_chars|].
    assert (N : replace_all re_bold (wrap_in "<strong>" "</strong>")
                  (a ++ str "*" ++ (c :: t) ++ str "*" ++ b)
                = a ++ str "*" ++ (c :: t) ++ str "*" ++ b).
    { apply (@replace_all_no_occurrence re_bold _ (ch "*") (tl (lead re_bold))); [reflexivity|].
      pose proof (Hst _ Ht) as Hc. inversion Hc as [|? ? Hc1 Hc2]; subst.
      apply shaped_plain; [exact (Hst _ Ha)|]. cbn [str app]. apply shaped_hit.
      { apply N.eqb_neq in Hc1. change (ch "*") with 42%N in Hc1.
        cbn. unfold one. now rewrite Hc1. }
      apply shaped_skip; [exact Hc1|].
      apply shaped_plain; [exact Hc2|]. apply shaped_hit.
      { rewrite app_nil_r. pose proof (Hst _ Hb) as Hb'. destruct b as [|y b']; [reflexivity|].
        inversion Hb' as [|? ? Hy _]; subst.
        apply N.eqb_neq in Hy. change (ch "*") with 42%N in Hy.
        cbn. unfold one. now rewrite Hy. }
      apply shaped_free. exact (Hst _ Hb). }
    assert (B : replace_all re_em (wrap_in "<em>" "</em>")
                  (a ++ str "*" ++ (c :: t) ++ str "*" ++ b)
                = a ++ (ch "<" :: ch "e" :: str "m>") ++ (c :: t) ++
                  (ch "<" :: ch "/" :: ch "e" :: str "m>") ++ b).
    { replace (a ++ str "*" ++ (c :: t) ++ str "*" ++ b)
        with (a ++ (ch "*" :: (c :: t) ++ str "*") ++ b)
        by same_text.
      rewrite (@element_replaced re_em _ a (ch "*") ((c :: t) ++ str "*")
                 [(1, c :: t)] b (tl (lead re_em)) eq_refl (Hst _ Ha) (Hst _ Hb)).
      - f_equal. same_text.
      - intros prev.
        exact (@emphasis_exec "*" prev c t b (proj1 em_delimiter) (proj2 em_delimiter)
                 Hd (Hst _ Ht)). }
    rewrite N, B, T. f_equal. same_text.
Qed.

Lemma emphasis_rendered_witness :
  formatMessage (str "a **b c** d") = Some (str "<p>a <strong>b c</strong> d</p>") /\
  formatMessage (str "*b*") = Some (str "<p><em>b</em></p>").
Proof.
  split.
  - apply (proj1 (@emphasis_rendered (str "a ") (str "b c") (str " d") eq_refl eq_refl
                    ltac:(discriminate) eq_refl)).
  - apply (proj2 (@emphasis_rendered [] (str "b") [] eq_refl eq_refl
                    ltac:(discriminate) eq_refl)).
Defined.

(** A scan that finds no match anywhere. *)
Lemma scan_none r s : forall prev,
  (forall pre x post, s = pre ++ x :: post ->
     exec r (last_of prev pre) (x :: post) = None) ->
  exec r (last_of prev s) [] = None ->
  scan r 0 prev s = map SChar s.
Proof.
  induction s as [|c s IH]; intros prev Hin Hend.
  - simpl in *. now rewrite Hend.
  - pose proof (Hin [] c s eq_refl) as H0. cbn [last_of fold_left] in H0.
    cbn [scan]. rewrite H0. cbn [map]. f_equal.
    apply IH; [|exact Hend].
    intros pre x post E. apply (Hin (c :: pre) x post). now rewrite E.
Qed.

Lemma last_of_app prev a b : last_of prev (a ++ b) = last_of (last_of prev a) b.
Proof. unfold last_of. apply fold_left_app. Qed.

Lemma last_of_in prev s c :
  last_of prev s = Some c -> prev = Some c \/ In c s.
Proof.
  revert prev. induction s as [|x s IH]; intros prev H; [now left|].
  simpl in H. apply IH in H as [H|H]; [injection H as <-; right; now left|].
  right. now right.
Qed.

Lemma last_of_some y s : last_of (Some y) s <> None.
Proof.
  revert y. induction s as [|x s IH]; intros y; [discriminate|]. simpl. apply IH.
Qed.

(** A pattern anchored at the start of a line finds nothing in a text of
    one line that does not start as the pattern does. *)
Lemma anchored_kept r tpl s :
  forallb dot s = true ->
  matches (lead r) s = false ->
  replace_all (Seq (Bol true) r) tpl s = s.
Proof.
  intros Hd Hl. unfold replace_all, replace_fn, segments.
  rewrite scan_none; [apply render_chars| |].
  - intros pre x post E. destruct pre as [|y pre].
    + simpl in E. subst s. apply exec_none_lead. exact Hl.
    + destruct (last_of None (y :: pre)) as [c|] eqn:L.
      * apply last_of_in in L as [L|L]; [discriminate L|].
        assert (D : dot c = true).
        { rewrite forallb_forall in Hd. apply Hd. rewrite E. apply in_or_app. now left. }
        unfold exec. cbn [rmatch]. unfold at_bol. cbn [m_prev].
        unfold dot in D. apply negb_true_iff in D. now rewrite D.
      * exfalso. simpl in L. now apply last_of_some in L.
  - destruct s as [|y s']; [now apply exec_none_lead|].
    destruct (last_of None (y :: s')) as [c|] eqn:L.
    + apply last_of_in in L as [L|L]; [discriminate L|].
      assert (D : dot c = true) by (rewrite forallb_forall in Hd; now apply Hd).
      unfold exec. cbn [rmatch]. unfold at_bol. cbn [m_prev].
      unfold dot in D. apply negb_true_iff in D. now rewrite D.
    + exfalso. simpl in L. now apply last_of_some in L.
Qed.

Lemma extract_chars s : forall blocks,
  extract_fences (map SChar s) blocks = Some (blocks, s).
Proof.
  induction s as [|c s IH]; intros blocks; simpl; [reflexivity|]. now rewrite IH.
Qed.

(** A backquote, a greedy run without backquote, a backquote. *)
Lemma inline_code_exec prev c t u :
  Forall (fun x => x <> ch "`") (c :: t) ->
  exec re_inline_code prev ((ch "`" :: (c :: t) ++ str "`") ++ u)
  = Some (ch "`" :: (c :: t) ++ str "`", [(1, c :: t)]).
Proof.
  intros Hs. inversion Hs as [|? ? Hc Ht]; subst.
  assert (P : forall s, Forall (fun x => x <> ch "`") s ->
            forallb (other_than (ch "`")) s = true).
  { intros s H. rewrite forallb_forall. intros x Hx.
    rewrite Forall_forall in H. unfold other_than.
    apply negb_true_iff, N.eqb_neq. now apply H. }
  apply (@exec_of_rmatch _ prev _ u _ (Some (ch "`"))).
  unfold re_inline_code. cbn [seqs].
  change (plus (Chr (other_than (ch "`"))))
    with (Seq (Chr (other_than (ch "`"))) (star (Chr (other_than (ch "`"))))).
  cbn [app]. rewrite <- app_assoc.
  change (rmatch (Seq (lit "`") ?r) (MState prev (ch "`" :: ?s) []) ?k)
    with (rmatch r (MState (Some (ch "`")) s []) k).
  cbn [rmatch m_rest]. pose proof (P [c] ltac:(now constructor)) as Pc.
  cbn [forallb] in Pc. rewrite andb_true_r in Pc. rewrite Pc.
  unfold star. rewrite rmatch_star. cbn [m_rest].
  apply star_greedy_run; [now apply P|reflexivity|rewrite length_app; lia|].
  cbn [m_rest m_caps m_prev].
  change (c :: t ++ str "`" ++ u) with ((c :: t) ++ str "`" ++ u).
  rewrite firstn_grown. reflexivity.
Qed.

(** X27. In a line of plain text, a non-empty plain text between two
    backquotes is rendered inside a [code] element of class inline-code; the text
    before and after is unchanged and the whole is one paragraph. *)
Theorem inline_code_rendered a t b :
  line_text a = true ->
  line_text t = true -> t <> [] ->
  line_text b = true ->
  formatMessage (a ++ str "`" ++ t ++ str "`" ++ b)
    = Some (str "<p>" ++ a ++ html "<code class=@inline-code@>" ++ t ++
            str "</code>" ++ b ++ str "</p>").
Proof.
  intros Ha Ht Hne Hb.
  unfold line_text in *.
  apply andb_true_iff in Ha as [Ha Da]. apply andb_true_iff in Ht as [Ht Dt].
  apply andb_true_iff in Hb as [Hb Db].
  destruct t as [|c t]; [congruence|]. clear Hne.
  assert (Hlt : forall s, plain_text s = true -> Forall (fun x => x <> ch "<") s).
  { intros s Hs. apply plain_free; [simpl; intuition|exact Hs]. }
  assert (Hbq : forall s, plain_text s = true -> Forall (fun x => x <> ch "`") s).
  { intros s Hs. apply plain_free; [simpl; intuition|exact Hs]. }
  set (src := a ++ str "`" ++ (c :: t) ++ str "`" ++ b).
  set (ro := html "ode class=@inline-code@>").
  set (out := a ++ (ch "<" :: ch "c" :: ro) ++ (c :: t) ++
              (ch "<" :: ch "/" :: ch "c" :: str "ode>") ++ b).
  assert (A : Forall (avoids [ch "|"; nl]) src).
  { unfold src. repeat (apply Forall_app; split);
      try (avoid_plain Ha || avoid_plain Ht || avoid_plain Hb); avoid_chars. }
  assert (S1 : extract_fences (segments re_fence src) [] = Some ([], src)).
  { unfold segments. rewrite <- (app_nil_r src) at 1.
    rewrite (@scan_no_occurrence re_fence (ch "`") [one (ch "`"); one (ch "`")] [] src None
               eq_refl).
    - rewrite (@scan_end_lead re_fence _ (one (ch "`")) [one (ch "`"); one (ch "`")] eq_refl).
      rewrite app_nil_r. apply extract_chars.
    - unfold src. pose proof (Hbq _ Ht) as Hc. inversion Hc as [|? ? Hc1 Hc2]; subst.
      apply shaped_plain; [exact (Hbq _ Ha)|]. cbn [str app]. apply shaped_hit.
      { apply N.eqb_neq in Hc1. change (ch "`") with 96%N in Hc1.
        cbn. unfold one. now rewrite Hc1. }
      apply shaped_skip; [exact Hc1|].
      apply shaped_plain; [exact Hc2|]. apply shaped_hit.
      { rewrite app_nil_r. pose proof (Hbq _ Hb) as Hb'. destruct b as [|y b']; [reflexivity|].
        inversion Hb' as [|? ? Hy _]; subst.
        apply N.eqb_neq in Hy. change (ch "`") with 96%N in Hy.
        cbn. unfold one. now rewrite Hy. }
      apply shaped_free. exact (Hbq _ Hb). }
  assert (S4 : replace_all re_inline_code (wrap_in "<code class=@inline-code@>" "</code>") src
               = out).
  { unfold src, out.
    replace (a ++ str "`" ++ (c :: t) ++ str "`" ++ b)
      with (a ++ (ch "`" :: (c :: t) ++ str "`") ++ b) by same_text.
    rewrite (@element_replaced re_inline_code _ a (ch "`") ((c :: t) ++ str "`")
               [(1, c :: t)] b (tl (lead re_inline_code)) eq_refl (Hbq _ Ha) (Hbq _ Hb)).
    - f_equal. unfold ro. same_text.
    - intros prev. apply inline_code_exec. exact (Hbq _ Ht). }
  assert (O : Forall (avoids [ch "#"; ch "*"; ch "."; ch "["; nl]) out).
  { unfold out, ro. repeat (apply Forall_app; split);
      try (avoid_plain Ha || avoid_plain Ht || avoid_plain Hb); avoid_chars. }
  assert (Do : forallb dot out = true).
  { unfold out, ro. rewrite !forallb_app, Da, Dt, Db. reflexivity. }
  assert (F : forall x, matches [one x] out = false \/ x = ch "<" \/ In x specials -> x <> ch "<" ->
              matches [one x] out = false).
  { intros x [H|[H|H]] Hx; [exact H|contradiction|].
    unfold out. destruct a as [|y a'].
    - cbn [app matches]. unfold one. rewrite andb_true_r. apply N.eqb_neq. congruence.
    - cbn [app matches]. unfold one. rewrite andb_true_r.
      pose proof (@plain_free x _ H Ha) as Hy.
      inversion Hy as [|? ? Hy1 _]; subst. now apply N.eqb_neq. }
  assert (Q : forall r tpl x rest, lead r = one x :: rest -> In x specials -> x <> ch "<" ->
              replace_all (Seq (Bol true) r) tpl out = out).
  { intros r tpl x rest Hl Hx Hn. apply anchored_kept; [exact Do|]. rewrite Hl.
    pose proof (F x (or_intror (or_intror Hx)) Hn) as M. cbn [matches] in *.
    destruct out as [|o out']; [reflexivity|]. rewrite andb_true_r in M. now rewrite M. }
  unfold formatMessage. rewrite S1. cbv zeta.
  rewrite (@replace_all_dead (avoids [ch "|"; nl]) re_blank_lines _ src)
    by (prove_dead || exact A).
  rewrite tables_none
    by (eapply avoids_sub; [|exact A]; intros x Hx; simpl in *; intuition).
  unfold inline_markup. cbv zeta. rewrite S4.
  change re_quote with (Seq (Bol true) (seqs [lit "> "; Group 1 (star (Chr dot)); Eol true])).
  rewrite (Q (seqs [lit "> "; Group 1 (star (Chr dot)); Eol true]) _
             (ch ">") [one (ch " ")] eq_refl) by (simpl; intuition discriminate).
  rewrite (@replace_all_dead (avoids [ch "#"; ch "*"; ch "."; ch "["; nl]) re_h3 _ out)
    by (prove_dead || exact O).
  rewrite (@replace_all_dead (avoids [ch "#"; ch "*"; ch "."; ch "["; nl]) re_h2 _ out)
    by (prove_dead || exact O).
  rewrite (@replace_all_dead (avoids [ch "#"; ch "*"; ch "."; ch "["; nl]) re_h1 _ out)
    by (prove_dead || exact O).
  rewrite (@replace_all_dead (avoids [ch "#"; ch "*"; ch "."; ch "["; nl]) re_bold _ out)
    by (prove_dead || exact O).
  rewrite (@replace_all_dead (avoids [ch "#"; ch "*"; ch "."; ch "["; nl]) re_em _ out)
    by (prove_dead || exact O).
  change re_rule with (Seq (Bol true) (seqs [lit "---"; Eol true])).
  rewrite (Q (seqs [lit "---"; Eol true]) _ (ch "-") [one (ch "-"); one (ch "-")] eq_refl)
    by (simpl; intuition discriminate).
  change re_item with (Seq (Bol true) (seqs [lit "- "; Group 1 (star (Chr dot)); Eol true])).
  rewrite (Q (seqs [lit "- "; Group 1 (star (Chr dot)); Eol true]) _
             (ch "-") [one (ch " ")] eq_refl) by (simpl; intuition discriminate).
  rewrite (@replace_all_dead (avoids [ch "#"; ch "*"; ch "."; ch "["; nl]) re_numbered _ out)
    by (prove_dead || exact O).
  rewrite (@replace_all_dead (avoids [ch "#"; ch "*"; ch "."; ch "["; nl]) re_link _ out)
    by (prove_dead || exact O).
  assert (Hro : Forall (fun y => y <> ch "<") ro) by (unfold ro; avoid_chars).
  assert (Hrc : Forall (fun y => y <> ch "<") (str "ode>")) by avoid_chars.
  assert (Hc : In (ch "c") tag_letters) by (simpl; auto).
  destruct (@element_wrapped a (ch "c") ro (c :: t) (ch "c") (str "ode>") b Hc Hc
              (Hlt _ Ha) Hro (Hlt _ Ht) Hrc (Hlt _ Hb)) as [Hw W].
  fold out in Hw, W.
  rewrite inline_tail; [|unfold out; apply element_shaped; auto|exact Hw| |exact W].
  - f_equal. unfold out, ro. same_text.
  - eapply avoids_sub; [|exact O]. intros y Hy. simpl in *. intuition.
Qed.

Lemma inline_code_rendered_witness :
  formatMessage (str "run `npm test` now")
  = Some (html "<p>run <code class=@inline-code@>npm test</code> now</p>").
Proof.
  apply (@inline_code_rendered (str "run ") (str "npm test") (str " now"));
    [reflexivity|reflexivity|discriminate|reflexivity].
Defined.

Ltac no_match_list :=
  let v := fresh "v" in let w := fresh "w" in
  intros v [(w & ->)|[(w & ->)|[(w & ->)|[(w & ->)| ->]]]]; reflexivity.

Lemma line_text_parts i :
  line_text i = true ->
  Forall (avoids specials) i /\ forallb dot i = true.
Proof. apply line_text_inv. Qed.

(** One line of a list: the item pattern takes the line. *)
Lemma item_exec prev i rest :
  at_bol true (MState prev [] []) = true ->
  forallb dot i = true ->
  match rest with [] => True | c :: _ => c = nl end ->
  exec re_item prev ((ch "-" :: ch " " :: i) ++ rest)
  = Some (ch "-" :: ch " " :: i, [(1, i)]).
Proof.
  intros Hp Hi Hr.
  apply (@exec_of_rmatch _ prev _ rest _ (last_of (Some (ch " ")) i)).
  unfold re_item, line_of. cbn [app seqs].
  cbn [rmatch]. unfold at_bol in *. cbn [m_prev] in *. rewrite Hp.
  change (rmatch (lit "- ") (MState prev (ch "-" :: ch " " :: ?s) []) ?k)
    with (k (MState (Some (ch " ")) s [])).
  cbn beta. unfold star. rewrite rmatch_star. cbn [m_rest].
  apply star_greedy_run; [exact Hi| |rewrite length_app; lia|].
  - destruct rest as [|c r]; [exact I|]. now subst c.
  - cbn [m_rest m_caps m_prev]. rewrite firstn_grown.
    unfold at_eol. cbn [m_rest]. destruct rest as [|c r]; [reflexivity|]. now subst c.
Qed.

Lemma bullets_cons i j more :
  bullets (i :: j :: more) = (ch "-" :: ch " " :: i) ++ nl :: bullets (j :: more).
Proof. unfold bullets. cbn [map]. rewrite join_cons. reflexivity. Qed.

Lemma item_li_join i j more :
  join [nl] (map item_li (i :: j :: more))
  = item_li i ++ nl :: join [nl] (map item_li (j :: more)).
Proof. cbn [map]. rewrite join_cons. reflexivity. Qed.

(** The item stage, line by line. *)
Lemma items_replaced items : forall prev,
  at_bol true (MState prev [] []) = true ->
  items <> [] ->
  forallb line_text items = true ->
  render (fun (_ : jsstring) caps => subst (wrap_in "<li>" "</li>") caps)
         (scan re_item 0 prev (bullets items))
  = join [nl] (map item_li items).
Proof.
  induction items as [|i items IH]; intros prev Hp Hne Hl; [congruence|].
  cbn [forallb] in Hl. apply andb_true_iff in Hl as [Hi Hl].
  destruct (line_text_parts _ Hi) as [_ Di].
  destruct items as [|j more].
  - unfold bullets. cbn [map join].
    change (str "- " ++ i) with (ch "-" :: ch " " :: i).
    rewrite <- (app_nil_r (ch "-" :: ch " " :: i)) at 1.
    rewrite (@scan_match re_item prev (ch "-") (ch " " :: i) [] [(1, i)])
      by (apply item_exec; [exact Hp|exact Di|exact I]).
    rewrite (@scan_end_lead re_item _ (one (ch "-")) [one (ch " ")] eq_refl).
    cbn [render flat_map]. rewrite app_nil_r. unfold item_li. same_text.
  - rewrite bullets_cons, item_li_join.
    rewrite (@scan_match re_item prev (ch "-") (ch " " :: i) (nl :: bullets (j :: more))
               [(1, i)])
      by (apply item_exec; [exact Hp|exact Di|reflexivity]).
    cbn [scan]. rewrite exec_none_lead by reflexivity.
    cbn [render flat_map].
    change (flat_map _ (scan re_item 0 (Some nl) ?s))
      with (render (fun (_ : jsstring) caps => subst (wrap_in "<li>" "</li>") caps)
                   (scan re_item 0 (Some nl) s)).
    rewrite IH by (first [reflexivity | discriminate | exact Hl]).
    unfold item_li. same_text.
Qed.

Lemma items_plain k items :
  In k specials ->
  forallb line_text items = true ->
  Forall (fun i => Forall (fun c => c <> k) i) items.
Proof.
  intros Hk Hl. apply Forall_forall. intros i Hi.
  rewrite forallb_forall in Hl. specialize (Hl i Hi).
  destruct (line_text_parts _ Hl) as [Hp _].
  apply (@avoids_neq specials k); [exact Hk|exact Hp].
Qed.

(** After a line feed of the list comes the hyphen of the next item. *)
Lemma bullets_lines items :
  forallb line_text items = true ->
  shaped nl line_starts [] (bullets items).
Proof.
  intros Hl. pose proof (@items_plain nl items ltac:(simpl; intuition) Hl) as Hn.
  clear Hl. induction Hn as [|i items Hi _ IH]; [apply shaped_nil|].
  destruct items as [|j more].
  - unfold bullets. cbn [map join]. apply shaped_free.
    change (str "- " ++ i) with (ch "-" :: ch " " :: i).
    repeat (apply Forall_cons; [discriminate|]). exact Hi.
  - rewrite bullets_cons. cbn [app].
    do 2 (apply shaped_skip; [discriminate|]).
    apply shaped_plain; [exact Hi|]. apply shaped_hit; [|exact IH].
    rewrite app_nil_r. unfold bullets. cbn [map].
    destruct (join_head [nl] (str "- " ++ j) (map (fun i0 => str "- " ++ i0) more))
      as (rest & E).
    exists (ch "-"), (ch " " :: j ++ rest). split; [exact E|discriminate].
Qed.

Lemma bullets_hyphens items :
  forallb line_text items = true ->
  shaped (ch "-") (fun v => matches [one (ch "-"); one (ch "-")] v = false) []
         (bullets items).
Proof.
  intros Hl. pose proof (@items_plain (ch "-") items ltac:(simpl; intuition) Hl) as Hn.
  clear Hl. induction Hn as [|i items Hi _ IH]; [apply shaped_nil|].
  destruct items as [|j more].
  - unfold bullets. cbn [map join].
    change (str "- " ++ i) with (ch "-" :: ch " " :: i).
    apply shaped_hit; [reflexivity|]. apply shaped_skip; [discriminate|].
    now apply shaped_free.
  - rewrite bullets_cons. cbn [app].
    apply shaped_hit; [reflexivity|]. apply shaped_skip; [discriminate|].
    apply shaped_plain; [exact Hi|]. apply shaped_skip; [discriminate|]. exact IH.
Qed.

Lemma bullets_avoid items :
  forallb line_text items = true ->
  Forall (avoids [ch "`"; ch "|"; ch ">"; ch "#"; ch "*"]) (bullets items).
Proof.
  intros Hl.
  assert (H : Forall (fun i => Forall (avoids [ch "`"; ch "|"; ch ">"; ch "#"; ch "*"]) i)
                     items).
  { apply Forall_forall. intros i Hi. rewrite forallb_forall in Hl.
    destruct (line_text_parts _ (Hl i Hi)) as [Hp _].
    eapply avoids_sub; [|exact Hp]. intros x Hx. simpl in *. intuition. }
  clear Hl. induction H as [|i items Hi _ IH]; [constructor|].
  destruct items as [|j more].
  - unfold bullets. cbn [map join]. apply Forall_app. split; [avoid_chars|exact Hi].
  - rewrite bullets_cons. apply Forall_app. split.
    + change (ch "-" :: ch " " :: i) with (str "- " ++ i).
      apply Forall_app. split; [avoid_chars|exact Hi].
    + apply Forall_cons; [intros H; simpl in H; intuition discriminate|exact IH].
Qed.

(** The list after the item stage: items in [<li>], one per line. *)
Lemma listed_avoid items :
  forallb line_text items = true ->
  Forall (avoids [ch "."; ch "["]) (join [nl] (map item_li items)).
Proof.
  intros Hl.
  assert (H : Forall (fun i => Forall (avoids [ch "."; ch "["]) i) items).
  { apply Forall_forall. intros i Hi. rewrite forallb_forall in Hl.
    destruct (line_text_parts _ (Hl i Hi)) as [Hp _].
    eapply avoids_sub; [|exact Hp]. intros x Hx. simpl in *. intuition. }
  clear Hl. induction H as [|i items Hi _ IH]; [constructor|].
  assert (L : Forall (avoids [ch "."; ch "["]) (item_li i)).
  { unfold item_li. repeat (apply Forall_app; split); try exact Hi; avoid_chars. }
  destruct items as [|j more]; [exact L|].
  rewrite item_li_join. apply Forall_app. split; [exact L|].
  apply Forall_cons; [intros H; simpl in H; intuition discriminate|exact IH].
Qed.

Lemma listed_lines items :
  forallb line_text items = true ->
  shaped nl line_starts [] (join [nl] (map item_li items)).
Proof.
  intros Hl. pose proof (@items_plain nl items ltac:(simpl; intuition) Hl) as Hn.
  clear Hl. induction Hn as [|i items Hi _ IH]; [apply shaped_nil|].
  assert (L : Forall (fun c => c <> nl) (item_li i)).
  { unfold item_li. repeat (apply Forall_app; split); try exact Hi;
      repeat (apply Forall_cons; [discriminate|]); constructor. }
  destruct items as [|j more]; [now apply shaped_free|].
  rewrite item_li_join. apply shaped_plain; [exact L|].
  apply shaped_hit; [|exact IH]. rewrite app_nil_r. cbn [map].
  destruct (join_head [nl] (item_li j) (map item_li more)) as (rest & E).
  exists (ch "<"), (str "li>" ++ (j ++ str "</li>") ++ rest).
  split; [exact E|discriminate].
Qed.

Lemma listed_shaped items tail :
  forallb line_text items = true ->
  shaped (ch "<") in_list tail (join [nl] (map item_li items)).
Proof.
  intros Hl. pose proof (@items_plain (ch "<") items ltac:(simpl; intuition) Hl) as Hn.
  clear Hl. induction Hn as [|i items Hi _ IH]; [apply shaped_nil|].
  assert (L : forall tl, shaped (ch "<") in_list tl (item_li i)).
  { intros tl. unfold item_li. cbn [str app].
    apply shaped_hit; [left; eexists; reflexivity|].
    do 3 (apply shaped_skip; [discriminate|]).
    apply shaped_plain; [exact Hi|].
    apply shaped_hit; [right; left; eexists; reflexivity|].
    do 4 (apply shaped_skip; [discriminate|]). apply shaped_nil. }
  destruct items as [|j more]; [apply L|].
  rewrite item_li_join. apply shaped_app; [apply L|].
  apply shaped_skip; [discriminate|]. exact IH.
Qed.

Lemma line_feeds_joined (ls : list jsstring) :
  Forall (fun l => Forall (fun c => c <> nl) l) ls ->
  replace_all (Chr (one nl)) [TLit (str "<br>")] (join [nl] ls) = join (str "<br>") ls.
Proof.
  intros Hls. rewrite replace_one.
  assert (P : forall p : jsstring, Forall (fun c => c <> nl) p ->
            flat_map (fun c => if N.eqb c nl then str "<br>" else [c]) p = p).
  { intros p Hp. induction Hp as [|c p Hc _ IH]; [reflexivity|]. cbn [flat_map].
    apply N.eqb_neq in Hc. rewrite Hc, IH. reflexivity. }
  induction Hls as [|l ls Hl _ IH]; [reflexivity|].
  destruct ls as [|q ls]; [exact (P _ Hl)|].
  rewrite !join_cons, !flat_map_app.
  apply f_equal2; [exact (P _ Hl)|]. apply f_equal2; [reflexivity|exact IH].
Qed.

(** *** The list pattern on a run of items *)

Lemma run_join items : join (str "<br>") (map item_li items) = run items.
Proof.
  induction items as [|i items IH]; [reflexivity|].
  destruct items as [|j more]; [reflexivity|].
  cbn [map] in *. rewrite join_cons, IH. reflexivity.
Qed.

Lemma re_items_plus : re_items = Seq re_one_item (Star true re_one_item).
Proof. reflexivity. Qed.

(** One item, and the [<br>] after it if there is one. *)
Lemma one_item_match K prev i sep rest caps final :
  forallb dot i = true ->
  Forall (fun c => c <> ch "<") i ->
  (sep = str "<br>" \/ (sep = [] /\ matches (lead (lit "<br>")) rest = false)) ->
  reaches K (Some (ch ">")) rest final ->
  exists st',
    rmatch re_one_item (MState prev (item_li i ++ sep ++ rest) caps) K = Some st' /\
    m_rest st' = final.
Proof.
  intros Hd Hi Hsep HK. unfold re_one_item. cbn [seqs].
  set (body := Seq (lit "</li>") (opt (Group 2 (lit "<br>")))).
  set (st0 := MState prev (item_li i ++ sep ++ rest) caps).
  set (K1 := fun st' : mstate =>
               K (MState (m_prev st') (m_rest st')
                    ((1, firstn (length (m_rest st0) - length (m_rest st')) (m_rest st0))
                       :: m_caps st'))).
  change (rmatch (Group 1 ?r) st0 K) with (rmatch r st0 K1).
  unfold st0 at 1. unfold item_li. rewrite <- !app_assoc.
  change (rmatch (Seq (lit "<li>") ?r) (MState prev (str "<li>" ++ ?s) caps) ?k)
    with (rmatch r (MState (Some (ch ">")) s caps) k).
  change (rmatch (Seq (lazy_star (Chr dot)) body) ?st ?k)
    with (rmatch (lazy_star (Chr dot)) st (fun st' => rmatch body st' k)).
  unfold lazy_star. rewrite rmatch_star. cbn [m_rest].
  assert (E : exists st', rmatch body
                (MState (last_of (Some (ch ">")) i) (str "</li>" ++ sep ++ rest) caps) K1
                = Some st' /\ m_rest st' = final).
  { unfold body.
    change (rmatch (Seq (lit "</li>") ?r) (MState ?p (str "</li>" ++ ?s) caps) ?k)
      with (rmatch r (MState (Some (ch ">")) s caps) k).
    unfold opt. cbn [rmatch].
    destruct Hsep as [->|[-> Hn]].
    - change (rmatch (lit "<br>") (MState (Some (ch ">")) (str "<br>" ++ rest) caps) ?k)
        with (k (MState (Some (ch ">")) rest caps)).
      cbn beta. cbn [m_rest m_caps m_prev]. unfold K1. cbn [m_rest m_caps m_prev].
      match goal with
      | |- context [K (MState _ _ ?c)] => destruct (HK c) as (st' & Hk & Hf)
      end.
      exists st'. rewrite Hk. auto.
    - cbn [app]. rewrite lead_sound by exact Hn.
      unfold K1. cbn [m_rest m_caps m_prev].
      match goal with
      | |- context [K (MState _ _ ?c)] => destruct (HK c) as (st' & Hk & Hf)
      end.
      exists st'. rewrite Hk. auto. }
  destruct E as (st' & E & Hf). exists st'. split; [|exact Hf].
  apply star_lazy_until; [exact Hd| |rewrite length_app; lia|exact E].
  intros a1 c a2 Ei. apply lead_sound. cbn [m_rest].
  assert (Hc : c <> ch "<").
  { rewrite Ei in Hi. apply Forall_app in Hi as [_ Hi]. now inversion Hi. }
  apply N.eqb_neq in Hc. unfold body.
  cbn [lead lit str map seqs fixed app andb matches]. unfold one at 1.
  change (N_of_ascii "<") with (ch "<"). now rewrite Hc.
Qed.

Lemma run_cons i j more : run (i :: j :: more) = item_li i ++ str "<br>" ++ run (j :: more).
Proof. reflexivity. Qed.

Lemma run_head i more : exists rest, run (i :: more) = str "<li>" ++ rest.
Proof.
  destruct more as [|j more]; [|rewrite run_cons]; unfold item_li;
    rewrite <- ?app_assoc; eexists; reflexivity.
Qed.

(** The greedy repetition goes through all the items that are left. *)
Lemma loop_reaches items : forall prev fuel,
  forallb line_text items = true ->
  length (run items ++ str "</p>") <= fuel ->
  reaches (star_loop true re_one_item Some fuel) prev (run items ++ str "</p>")
          (str "</p>").
Proof.
  induction items as [|i items IH]; intros prev fuel Hl Hf caps.
  - cbn [run app]. destruct fuel as [|f]; [eexists; split; reflexivity|].
    rewrite star_loop_S. cbv zeta. rewrite lead_sound by reflexivity.
    eexists; split; reflexivity.
  - cbn [forallb] in Hl. apply andb_true_iff in Hl as [Hi Hl].
    destruct (line_text_parts _ Hi) as [Pi Di].
    assert (Li : Forall (fun c => c <> ch "<") i).
    { apply (@avoids_neq specials (ch "<")); [simpl; intuition|exact Pi]. }
    destruct fuel as [|f].
    { exfalso. destruct (run_head i items) as (rest & E). rewrite E in Hf.
      simpl in Hf. lia. }
    rewrite star_loop_S. cbv zeta.
    set (st := MState prev (run (i :: items) ++ str "</p>") caps).
    set (K := fun st' : mstate =>
                if length (m_rest st') <? length (m_rest st)
                then star_loop true re_one_item Some f st' else None).
    assert (R : forall rest, length rest < length (m_rest st) -> length rest <= f ->
                reaches (star_loop true re_one_item Some f) (Some (ch ">")) rest (str "</p>") ->
                reaches K (Some (ch ">")) rest (str "</p>")).
    { intros rest L1 L2 H caps'. unfold K. cbn [m_rest].
      apply Nat.ltb_lt in L1. cbn [m_rest] in L1. rewrite L1. apply H. }
    assert (X : exists st', rmatch re_one_item st K = Some st' /\ m_rest st' = str "</p>").
    { destruct items as [|j more].
      - assert (L : length (m_rest st) = length i + 13).
        { unfold st. cbn [m_rest run]. unfold item_li. rewrite !length_app. simpl. lia. }
        assert (Hf' : length i + 13 <= S f).
        { cbn [run] in Hf. unfold item_li in Hf. rewrite !length_app in Hf.
          simpl in Hf. lia. }
        unfold st. cbn [run]. rewrite <- (app_nil_l (str "</p>")).
        apply one_item_match; [exact Di|exact Li|right; split; reflexivity|].
        apply R; [rewrite L; simpl; lia|simpl; lia|].
        apply (IH (Some (ch ">")) f Hl). simpl. lia.
      - assert (L : length (m_rest st) = length i + 13 + length (run (j :: more) ++ str "</p>")).
        { unfold st. cbn [m_rest]. rewrite run_cons. unfold item_li.
          rewrite !length_app. simpl. lia. }
        assert (Hf' : length i + 13 + length (run (j :: more) ++ str "</p>") <= S f).
        { rewrite run_cons in Hf. unfold item_li in Hf. rewrite !length_app in Hf.
          rewrite length_app. simpl in *. lia. }
        unfold st. rewrite run_cons, <- !app_assoc.
        apply one_item_match; [exact Di|exact Li|now left|].
        apply R; [rewrite L; lia|lia|].
        apply (IH (Some (ch ">")) f Hl). lia. }
    destruct X as (st' & -> & Hr). exists st'. auto.
Qed.

(** The list pattern takes the whole run. *)
Lemma list_exec items prev :
  items <> [] ->
  forallb line_text items = true ->
  exists caps, exec re_items prev (run items ++ str "</p>") = Some (run items, caps).
Proof.
  intros Hne Hl. destruct items as [|i items]; [congruence|].
  pose proof Hl as Hl0.
  cbn [forallb] in Hl. apply andb_true_iff in Hl as [Hi Hl].
  destruct (line_text_parts _ Hi) as [Pi Di].
  assert (Li : Forall (fun c => c <> ch "<") i).
  { apply (@avoids_neq specials (ch "<")); [simpl; intuition|exact Pi]. }
  assert (K : forall rest, reaches (star_loop true re_one_item Some (length rest))
                             (Some (ch ">")) rest (str "</p>") ->
              reaches (fun st' => rmatch (Star true re_one_item) st' Some)
                      (Some (ch ">")) rest (str "</p>")).
  { intros rest H caps. rewrite rmatch_star. apply H. }
  assert (X : exists st',
            rmatch re_items (MState prev (run (i :: items) ++ str "</p>") []) Some = Some st' /\
            m_rest st' = str "</p>").
  { rewrite re_items_plus.
    change (rmatch (Seq re_one_item ?r) ?st ?k)
      with (rmatch re_one_item st (fun st' => rmatch r st' k)).
    destruct items as [|j more].
    - cbn [run]. rewrite <- (app_nil_l (str "</p>")).
      apply one_item_match; [exact Di|exact Li|right; split; reflexivity|].
      apply K. apply (@loop_reaches [] (Some (ch ">")) _ eq_refl). reflexivity.
    - rewrite run_cons, <- !app_assoc.
      apply one_item_match; [exact Di|exact Li|now left|].
      apply K. apply (@loop_reaches (j :: more) (Some (ch ">")) _ Hl). reflexivity. }
  destruct X as (st' & E & Hr). exists (m_caps st').
  unfold exec. rewrite E, Hr. f_equal. f_equal. apply firstn_grown.
Qed.

Lemma item_shaped (G : jsstring -> Prop) i tail :
  Forall (fun c => c <> ch "<") i ->
  (forall w, G (str "li>" ++ w)) -> (forall w, G (str "/li>" ++ w)) ->
  shaped (ch "<") G tail (item_li i).
Proof.
  intros Hi G1 G2. unfold item_li.
  change (str "<li>" ++ ?x) with (ch "<" :: str "li>" ++ x).
  apply shaped_hit; [rewrite <- app_assoc; apply G1|].
  do 3 (apply shaped_skip; [discriminate|]).
  apply shaped_plain; [exact Hi|].
  apply shaped_hit; [apply G2|].
  do 4 (apply shaped_skip; [discriminate|]). apply shaped_nil.
Qed.

(** [match.replace(/<br>/g, '')] on a run of items. *)
Lemma breaks_removed items :
  forallb line_text items = true ->
  replace_all (lit "<br>") [] (run items) = concat (map item_li items).
Proof.
  intros Hl. pose proof (@items_plain (ch "<") items ltac:(simpl; intuition) Hl) as Hn.
  clear Hl. unfold replace_all, replace_fn, segments. generalize (@None char) as prev.
  induction Hn as [|i items Hi _ IH]; intros prev; [reflexivity|].
  assert (S : forall tail p,
            scan (lit "<br>") 0 p (item_li i ++ tail)
            = map SChar (item_li i) ++ scan (lit "<br>") 0 (last_of p (item_li i)) tail).
  { intros tail p.
    apply (@scan_no_occurrence (lit "<br>") (ch "<") (tl (lead (lit "<br>")))); [reflexivity|].
    apply item_shaped; [exact Hi|reflexivity|reflexivity]. }
  destruct items as [|j more].
  - cbn [run map concat]. rewrite app_nil_r. rewrite <- (app_nil_r (item_li i)) at 1.
    rewrite S, (@scan_end_lead (lit "<br>") _ (one (ch "<")) (tl (lead (lit "<br>"))) eq_refl).
    rewrite app_nil_r. apply render_chars.
  - rewrite run_cons, S, render_app, render_chars. cbn [map concat]. f_equal.
    change (str "<br>" ++ run (j :: more)) with ((ch "<" :: str "br>") ++ run (j :: more)).
    rewrite (@scan_match (lit "<br>") _ (ch "<") (str "br>") (run (j :: more)) []).
    + cbn [render flat_map subst app].
      change (flat_map _ (scan (lit "<br>") 0 ?p ?s))
        with (render (fun (_ : jsstring) caps => subst [] caps) (scan (lit "<br>") 0 p s)).
      apply IH.
    + apply (@exec_of_rmatch (lit "<br>") _ (str "<br>") (run (j :: more)) [] (Some (ch ">"))).
      reflexivity.
Qed.

Lemma wrapped_list_shaped items :
  items <> [] ->
  forallb line_text items = true ->
  shaped (ch "<") in_list [] (str "<p>" ++ run items ++ str "</p>").
Proof.
  intros Hne Hl. pose proof (@items_plain (ch "<") items ltac:(simpl; intuition) Hl) as Hn.
  clear Hl.
  assert (R : shaped (ch "<") in_list (str "</p>") (run items)).
  { clear Hne. induction Hn as [|i items Hi _ IH]; [apply shaped_nil|].
    assert (L : forall tl, shaped (ch "<") in_list tl (item_li i)).
    { intros tl. apply item_shaped; [exact Hi| |].
      - intros w. left. eexists. reflexivity.
      - intros w. right. left. eexists. reflexivity. }
    destruct items as [|j more]; [apply L|].
    rewrite run_cons. apply shaped_app; [apply L|].
    change (str "<br>" ++ ?x) with (ch "<" :: str "br>" ++ x).
    apply shaped_hit.
    { right. right. left. destruct (run_head j more) as (rest & ->).
      rewrite <- !app_assoc. eexists. reflexivity. }
    do 3 (apply shaped_skip; [discriminate|]). exact IH. }
  destruct items as [|i items]; [congruence|].
  change (str "<p>" ++ ?x) with (ch "<" :: str "p>" ++ x).
  apply shaped_hit.
  { right. right. right. left. destruct (run_head i items) as (rest & ->).
    rewrite <- !app_assoc. eexists. reflexivity. }
  do 2 (apply shaped_skip; [discriminate|]).
  apply shaped_app; [rewrite app_nil_r; exact R|].
  apply shaped_hit; [right; right; right; right; reflexivity|].
  do 3 (apply shaped_skip; [discriminate|]). apply shaped_nil.
Qed.

(** X28. A message of one or more lines [- item], the items plain text
    without line terminator (possibly empty), is rendered as one [<ul>] of
    [<li>] items in the same order, without [<br>] between them, inside a
    paragraph. *)
Theorem list_rendered items :
  items <> [] ->
  forallb line_text items = true ->
  formatMessage (bullets items)
  = Some (str "<p><ul>" ++ concat (map item_li items) ++ str "</ul></p>").
Proof.
  intros Hne Hl.
  pose proof (bullets_avoid items Hl) as A.
  pose proof (listed_avoid items Hl) as B.
  unfold formatMessage.
  rewrite fences_none
    by (eapply avoids_sub; [|exact A]; intros x Hx; simpl in *; intuition).
  cbv zeta.
  rewrite (@replace_all_no_occurrence re_blank_lines _ nl [one nl; one nl] (bullets items))
    by (first [reflexivity
              | eapply shaped_weaken; [|apply bullets_lines; exact Hl];
                intros v (c & w & -> & Hc); apply N.eqb_neq in Hc;
                cbn; unfold one; now rewrite Hc]).
  rewrite tables_none
    by (eapply avoids_sub; [|exact A]; intros x Hx; simpl in *; intuition).
  unfold inline_markup. cbv zeta.
  rewrite (@replace_all_dead (avoids [ch "`"; ch "|"; ch ">"; ch "#"; ch "*"])
             re_inline_code _ (bullets items)) by (prove_dead || exact A).
  rewrite (@replace_all_dead (avoids [ch "`"; ch "|"; ch ">"; ch "#"; ch "*"])
             re_quote _ (bullets items)) by (prove_dead || exact A).
  rewrite (@replace_all_dead (avoids [ch "`"; ch "|"; ch ">"; ch "#"; ch "*"])
             re_h3 _ (bullets items)) by (prove_dead || exact A).
  rewrite (@replace_all_dead (avoids [ch "`"; ch "|"; ch ">"; ch "#"; ch "*"])
             re_h2 _ (bullets items)) by (prove_dead || exact A).
  rewrite (@replace_all_dead (avoids [ch "`"; ch "|"; ch ">"; ch "#"; ch "*"])
             re_h1 _ (bullets items)) by (prove_dead || exact A).
  rewrite (@replace_all_dead (avoids [ch "`"; ch "|"; ch ">"; ch "#"; ch "*"])
             re_bold _ (bullets items)) by (prove_dead || exact A).
  rewrite (@replace_all_dead (avoids [ch "`"; ch "|"; ch ">"; ch "#"; ch "*"])
             re_em _ (bullets items)) by (prove_dead || exact A).
  rewrite (@replace_all_no_occurrence re_rule _ (ch "-") [one (ch "-"); one (ch "-")]
             (bullets items))
    by (first [reflexivity | apply bullets_hyphens; exact Hl]).
  assert (I : replace_all re_item (wrap_in "<li>" "</li>") (bullets items)
              = join [nl] (map item_li items)).
  { unfold replace_all, replace_fn, segments.
    apply items_replaced; [reflexivity|exact Hne|exact Hl]. }
  rewrite I.
  rewrite (@replace_all_dead (avoids [ch "."; ch "["]) re_numbered _ _)
    by (prove_dead || exact B).
  rewrite (@replace_all_dead (avoids [ch "."; ch "["]) re_link _ _)
    by (prove_dead || exact B).
  assert (P : paragraphs (join [nl] (map item_li items)) = run items).
  { unfold paragraphs. cbv zeta.
    rewrite (@replace_all_no_occurrence re_paragraph _ nl [one nl] _)
      by (first [reflexivity
                | eapply shaped_weaken; [|apply listed_lines; exact Hl];
                  intros v (c & w & -> & Hc); apply N.eqb_neq in Hc;
                  cbn; unfold one; now rewrite Hc]).
    pose proof (@listed_shaped items [] Hl) as Hs.
    unfold replace_all at 2 3 4 5 6.
    rewrite (@keep_shaped in_list (before_br re_heading_end) _ _)
      by (first [exact Hs | eexists; split; [reflexivity|no_match_list]]).
    rewrite (@keep_shaped in_list (before_br (lit "<hr />")) _ _)
      by (first [exact Hs | eexists; split; [reflexivity|no_match_list]]).
    rewrite (@keep_shaped in_list (before_br (lit "</table>")) _ _)
      by (first [exact Hs | eexists; split; [reflexivity|no_match_list]]).
    rewrite (@keep_shaped in_list (before_br (lit "</ul>")) _ _)
      by (first [exact Hs | eexists; split; [reflexivity|no_match_list]]).
    rewrite (@keep_shaped in_list (before_br (lit "</blockquote>")) _ _)
      by (first [exact Hs | eexists; split; [reflexivity|no_match_list]]).
    rewrite line_feeds_joined; [apply run_join|].
    apply Forall_forall. intros l Hin. apply in_map_iff in Hin as (i & <- & Hi).
    pose proof (@items_plain nl items ltac:(simpl; intuition) Hl) as Hn.
    rewrite Forall_forall in Hn. specialize (Hn i Hi).
    unfold item_li. repeat (apply Forall_app; split); try exact Hn;
      repeat (apply Forall_cons; [discriminate|]); constructor. }
  rewrite P.
  assert (W : wrap (run items) = str "<p>" ++ run items ++ str "</p>").
  { destruct items as [|i items]; [congruence|].
    destruct (run_head i items) as (rest & ->). reflexivity. }
  rewrite W.
  pose proof (wrapped_list_shaped Hne Hl) as Hw.
  unfold cleanup, replace_all.
  rewrite (@keep_shaped in_list (lit "<p></p>") _ _)
    by (first [exact Hw | eexists; split; [reflexivity|no_match_list]]).
  rewrite (@keep_shaped in_list (lit "<p><br></p>") _ _)
    by (first [exact Hw | eexists; split; [reflexivity|no_match_list]]).
  rewrite (@keep_shaped in_list (lit "<br><br>") _ _)
    by (first [exact Hw | eexists; split; [reflexivity|no_match_list]]).
  rewrite (@keep_shaped in_list (lit "<p><br>") _ _)
    by (first [exact Hw | eexists; split; [reflexivity|no_match_list]]).
  rewrite (@keep_shaped in_list (lit "<br></p>") _ _)
    by (first [exact Hw | eexists; split; [reflexivity|no_match_list]]).
  unfold wrap_lists, replace_fn, segments.
  rewrite (@scan_no_occurrence re_items (ch "<") (tl (lead re_items))
             (run items ++ str "</p>") (str "<p>") None eq_refl)
    by (apply shaped_hit; [reflexivity|];
        do 2 (apply shaped_skip; [discriminate|]); apply shaped_nil).
  destruct (@list_exec items (last_of None (str "<p>")) Hne Hl) as (caps & E).
  destruct items as [|i items]; [congruence|].
  destruct (run_head i items) as (rest & Er).
  assert (M : scan re_items 0 (last_of None (str "<p>")) (run (i :: items) ++ str "</p>")
              = SMatch (run (i :: items)) caps
                  :: scan re_items 0 (last_of (last_of None (str "<p>")) (run (i :: items)))
                       (str "</p>")).
  { rewrite Er in *. apply (@scan_match re_items _ (ch "<") (str "li>" ++ rest)). exact E. }
  rewrite M.
  rewrite <- (app_nil_r (str "</p>")) at 1.
  rewrite (@scan_no_occurrence re_items (ch "<") (tl (lead re_items)) [] (str "</p>") _ eq_refl)
    by (apply shaped_hit; [reflexivity|];
        do 3 (apply shaped_skip; [discriminate|]); apply shaped_nil).
  rewrite (@scan_end_lead re_items _ (one (ch "<")) (tl (lead re_items)) eq_refl).
  rewrite app_nil_r, render_app, render_chars.
  cbn [render flat_map restore]. rewrite breaks_removed by exact Hl.
  change (flat_map _ (map SChar (str "</p>"))) with (str "</p>").
  f_equal. same_text.
Qed.

Lemma list_rendered_witness :
  formatMessage (lines ["- milk"; "- two eggs"]%string)
  = Some (str "<p><ul><li>milk</li><li>two eggs</li></ul></p>").
Proof.
  apply (@list_rendered [str "milk"; str "two eggs"]); [discriminate|reflexivity].
Defined.

Lemma shaped_no_lead t rest s :
  shaped t (fun v => matches rest v = false) [] s ->
  forall v, suffix v s -> matches (one t :: rest) v = false.
Proof.
  induction 1 as [|c s Hc _ IH|s Hg _ IH]; intros v [pre E].
  - destruct pre; [|discriminate]. simpl in E. now subst v.
  - destruct pre as [|x pre].
    + simpl in E. subst v. cbn [matches]. unfold one. apply N.eqb_neq in Hc.
      now rewrite Hc.
    + injection E as _ E. apply IH. now exists pre.
  - destruct pre as [|x pre].
    + simpl in E. subst v. cbn [matches]. rewrite app_nil_r in Hg. rewrite Hg.
      apply andb_false_r.
    + injection E as _ E. apply IH. now exists pre.
Qed.

(** The numbered-item pattern needs a full stop followed by a space. *)
Lemma numbered_kept tpl s :
  (forall v, suffix v s -> matches [one (ch "."); one (ch " ")] v = false) ->
  replace_all re_numbered tpl s = s.
Proof.
  intros H. unfold replace_all, replace_fn, segments.
  assert (X : forall prev v, suffix v s -> exec re_numbered prev v = None).
  { intros prev v Hv. unfold exec, re_numbered, line_of. cbn [app seqs].
    set (rest := Seq (lit ". ") (Seq (Group 1 (star (Chr dot))) (Eol true))).
    change (rmatch (Seq (Bol true) ?r) ?st ?k)
      with (if at_bol true st then rmatch r st k else None).
    destruct (at_bol true _); [|reflexivity].
    change (rmatch (Seq (plus (Chr digit)) rest) ?st ?k)
      with (rmatch (plus (Chr digit)) st (fun st' => rmatch rest st' k)).
    rewrite rmatch_fails; [reflexivity|].
    intros st' Hs. cbn [m_rest] in Hs. apply lead_sound.
    change (lead rest) with [one (ch "."); one (ch " ")].
    apply H. eapply suffix_trans; eauto. }
  rewrite scan_none; [apply render_chars| |].
  - intros pre x post E. apply X. exists pre. exact E.
  - apply X. exists s. now rewrite app_nil_r.
Qed.

(** The link pattern on a link. *)
Lemma link_exec prev c t d u rest :
  forallb (other_than (ch "]")) (c :: t) = true ->
  forallb (other_than (ch ")")) (d :: u) = true ->
  exec re_link prev ((ch "[" :: (c :: t) ++ str "](" ++ (d :: u) ++ str ")") ++ rest)
  = Some (ch "[" :: (c :: t) ++ str "](" ++ (d :: u) ++ str ")",
          [(2, d :: u); (1, c :: t)]).
Proof.
  intros Ht Hu.
  cbn [forallb] in Ht, Hu.
  apply andb_true_iff in Ht as [Hc Ht]. apply andb_true_iff in Hu as [Hd Hu].
  apply (@exec_of_rmatch _ prev _ rest _ (Some (ch ")"))).
  unfold re_link. cbn [seqs].
  set (tail := Seq (lit "](") (Seq (Group 2 (plus (Chr (other_than (ch ")"))))) (lit ")"))).
  cbn [app]. rewrite <- !app_assoc.
  change (rmatch (Seq (lit "[") ?r) (MState prev (ch "[" :: ?s) []) ?k)
    with (rmatch r (MState (Some (ch "[")) s []) k).
  change (plus (Chr (other_than (ch "]"))))
    with (Seq (Chr (other_than (ch "]"))) (star (Chr (other_than (ch "]"))))).
  cbn [rmatch m_rest]. rewrite Hc.
  unfold star at 1. rewrite rmatch_star. cbn [m_rest].
  apply star_greedy_run; [exact Ht|reflexivity|rewrite length_app; lia|].
  cbn [m_rest m_caps m_prev].
  change (c :: t ++ str "](" ++ ?x) with ((c :: t) ++ str "](" ++ x).
  rewrite firstn_grown. unfold tail.
  change (rmatch (Seq (lit "](") ?r) (MState ?p (str "](" ++ ?s) ?cs) ?k)
    with (rmatch r (MState (Some (ch "(")) s cs) k).
  change (plus (Chr (other_than (ch ")"))))
    with (Seq (Chr (other_than (ch ")"))) (star (Chr (other_than (ch ")"))))).
  cbn [rmatch m_rest app]. rewrite Hd. rewrite <- ?app_assoc.
  unfold star. rewrite rmatch_star. cbn [m_rest].
  apply star_greedy_run; [exact Hu|reflexivity|rewrite length_app; lia|].
  cbn [m_rest m_caps m_prev].
  change (d :: u ++ str ")" ++ rest) with ((d :: u) ++ str ")" ++ rest).
  rewrite firstn_grown. reflexivity.
Qed.

Lemma url_parts u :
  url_text u = true ->
  u <> [] /\ forallb dot u = true /\
  Forall (avoids [ch "`"; ch "|"; ch "<"; ch ">"; ch "*"; ch "["; ch ")"; ch " "; nl]) u.
Proof.
  unfold url_text. intros H. apply andb_true_iff in H as [H Hn].
  split; [now destruct u|]. split.
  - rewrite forallb_forall in *. intros c Hc. specialize (H c Hc).
    now apply andb_true_iff in H as [H _].
  - apply Forall_forall. intros c Hc Hin. rewrite forallb_forall in H.
    specialize (H c Hc). apply andb_true_iff in H as [Hd H].
    apply negb_true_iff in H.
    simpl in Hin. destruct Hin as [<-|[<-|[<-|[<-|[<-|[<-|[<-|[<-|[<-|[]]]]]]]]]];
      try discriminate H; discriminate Hd.
Qed.

Lemma label_parts t :
  label_text t = true ->
  t <> [] /\ plain_text t = true /\ forallb dot t = true /\
  forallb (other_than (ch "]")) t = true.
Proof.
  unfold label_text, line_text. intros H.
  apply andb_true_iff in H as [H Hn]. apply andb_true_iff in H as [H Hb].
  apply andb_true_iff in H as [Hp Hd]. repeat split; auto. now destruct t.
Qed.

(** X29. In a line of plain text, a link (the label [t] in square
    brackets, then the address [u] in parentheses) is rendered as an anchor to [u]
    with the text [t], opening in a new tab, for a label [t] without closing
    bracket and an address [u] without space (full stops, hyphens and hash
    signs are allowed in it); the text before and after is unchanged and
    the whole is one paragraph. *)
Theorem link_rendered a t u b :
  line_text a = true ->
  label_text t = true ->
  url_text u = true ->
  line_text b = true ->
  formatMessage (a ++ str "[" ++ t ++ str "](" ++ u ++ str ")" ++ b)
    = Some (str "<p>" ++ a ++ anchor t u ++ b ++ str "</p>").
Proof.
  intros Ha Ht Hu Hb.
  unfold line_text in Ha, Hb.
  apply andb_true_iff in Ha as [Ha Da]. apply andb_true_iff in Hb as [Hb Db].
  destruct (label_parts _ Ht) as (Tn & Tp & Td & Tb).
  destruct (url_parts _ Hu) as (Un & Ud & Ua).
  destruct t as [|c t]; [exfalso; now apply Tn|].
  destruct u as [|d u]; [exfalso; now apply Un|].
  clear Tn Un Ht Hu.
  set (src := a ++ str "[" ++ (c :: t) ++ str "](" ++ (d :: u) ++ str ")" ++ b).
  set (ro := html " href=@" ++ (d :: u) ++ html "@ target=@_blank@ rel=@noopener@>").
  set (out := a ++ (ch "<" :: ch "a" :: ro) ++ (c :: t) ++
              (ch "<" :: ch "/" :: ch "a" :: str ">") ++ b).
  assert (A : Forall (avoids [ch "`"; ch "|"; ch ">"; ch "*"; nl]) src).
  { unfold src. repeat (apply Forall_app; split);
      try (avoid_plain Ha || avoid_plain Tp || avoid_plain Hb);
      try (eapply avoids_sub; [|exact Ua]; intros x Hx; simpl in *; intuition);
      avoid_chars. }
  assert (D : forallb dot src = true).
  { unfold src. rewrite !forallb_app, Da, Td, Ud, Db. reflexivity. }
  assert (F : forall x, In x specials -> x <> ch "[" -> matches [one x] src = false).
  { intros x H Hx. unfold src. destruct a as [|y a'].
    - cbn [app str matches]. unfold one. rewrite andb_true_r. apply N.eqb_neq.
      intros E. apply Hx. symmetry. exact E.
    - cbn [app matches]. unfold one. rewrite andb_true_r.
      pose proof (@plain_free x _ H Ha) as Hy.
      inversion Hy as [|? ? Hy1 _]; subst. now apply N.eqb_neq. }
  assert (Q : forall r tpl x rest, lead r = one x :: rest -> In x specials -> x <> ch "[" ->
              replace_all (Seq (Bol true) r) tpl src = src).
  { intros r tpl x rest Hl Hx Hn. apply anchored_kept; [exact D|]. rewrite Hl.
    pose proof (F x Hx Hn) as M. cbn [matches] in *.
    destruct src as [|o src']; [reflexivity|]. rewrite andb_true_r in M. now rewrite M. }
  assert (N : replace_all re_numbered (wrap_in "<li class=@numbered@>" "</li>") src = src).
  { apply numbered_kept. apply shaped_no_lead. unfold src.
    assert (P : forall s, plain_text s = true -> Forall (fun x => x <> ch ".") s).
    { intros s Hs. apply plain_free; [simpl; intuition|exact Hs]. }
    apply shaped_plain; [exact (P _ Ha)|]. cbn [str app].
    apply shaped_skip; [discriminate|].
    pose proof (P _ Tp) as Pt. inversion Pt as [|? ? Pc Pt']; subst.
    apply shaped_skip; [exact Pc|]. apply shaped_plain; [exact Pt'|].
    do 2 (apply shaped_skip; [discriminate|]).
    assert (U : forall w, Forall (avoids [ch " "]) w ->
              shaped (ch ".") (fun v => matches [one (ch " ")] v = false) []
                     (w ++ ch ")" :: b)).
    { intros w Hw. induction Hw as [|x w Hx Hw IH].
      - cbn [app]. apply shaped_skip; [discriminate|]. apply shaped_free. exact (P _ Hb).
      - cbn [app]. destruct (N.eq_dec x (ch ".")) as [->|Hne].
        + apply shaped_hit; [|exact IH]. rewrite app_nil_r.
          destruct w as [|y w']; [reflexivity|].
          inversion Hw as [|? ? Hy _]; subst. cbn [app matches]. unfold one.
          rewrite andb_true_r. apply N.eqb_neq. intros E. apply Hy. left. now rewrite E.
        + apply shaped_skip; [exact Hne|exact IH]. }
    apply (U (d :: u)).
    eapply avoids_sub; [|exact Ua]. intros x Hx. simpl in *. intuition. }
  assert (L : replace_all re_link
                [TLit (html "<a href=@"); TGroup 2;
                 TLit (html "@ target=@_blank@ rel=@noopener@>"); TGroup 1;
                 TLit (str "</a>")] src = out).
  { unfold src, out, ro.
    assert (Hsq : forall s, plain_text s = true -> Forall (fun x => x <> ch "[") s).
    { intros s Hs. apply plain_free; [simpl; intuition|exact Hs]. }
    replace (a ++ str "[" ++ (c :: t) ++ str "](" ++ (d :: u) ++ str ")" ++ b)
      with (a ++ (ch "[" :: (c :: t) ++ str "](" ++ (d :: u) ++ str ")") ++ b) by same_text.
    rewrite (@element_replaced re_link _ a (ch "[")
               ((c :: t) ++ str "](" ++ (d :: u) ++ str ")")
               [(2, d :: u); (1, c :: t)] b (tl (lead re_link)) eq_refl (Hsq _ Ha) (Hsq _ Hb)).
    - f_equal. same_text.
    - intros prev. apply link_exec; [exact Tb|].
      rewrite forallb_forall. intros x Hx. rewrite Forall_forall in Ua.
      unfold other_than. apply negb_true_iff, N.eqb_neq. intros ->.
      apply (Ua _ Hx). simpl. intuition. }
  assert (Hlt : forall s, plain_text s = true -> Forall (fun x => x <> ch "<") s).
  { intros s Hs. apply plain_free; [simpl; intuition|exact Hs]. }
  assert (Hro : Forall (fun y => y <> ch "<") ro).
  { unfold ro. repeat (apply Forall_app; split);
      try (apply (@avoids_neq [ch "`"; ch "|"; ch "<"; ch ">"; ch "*"; ch "["; ch ")"; ch " "; nl]);
           [simpl; intuition|exact Ua]);
      repeat (apply Forall_cons; [discriminate|]); constructor. }
  assert (Hrc : Forall (fun y => y <> ch "<") (str ">")) by avoid_chars.
  assert (Hx : In (ch "a") tag_letters) by (simpl; auto).
  assert (O : Forall (avoids [nl]) out).
  { unfold out, ro.
    change (ch "<" :: ch "a" :: html " href=@" ++ ?x) with (html "<a href=@" ++ x).
    change (ch "<" :: ch "/" :: ch "a" :: str ">") with (str "</a>").
    repeat (apply Forall_app; split);
      try (avoid_plain Ha || avoid_plain Tp || avoid_plain Hb);
      try (eapply avoids_sub; [|exact Ua]; intros x Hy; simpl in *; intuition);
      avoid_chars. }
  unfold formatMessage.
  rewrite fences_none
    by (eapply avoids_sub; [|exact A]; intros x Hy; simpl in *; intuition).
  cbv zeta.
  rewrite (@replace_all_dead (avoids [ch "`"; ch "|"; ch ">"; ch "*"; nl]) re_blank_lines _ src)
    by (prove_dead || exact A).
  rewrite tables_none
    by (eapply avoids_sub; [|exact A]; intros x Hy; simpl in *; intuition).
  unfold inline_markup. cbv zeta.
  rewrite (@replace_all_dead (avoids [ch "`"; ch "|"; ch ">"; ch "*"; nl]) re_inline_code _ src)
    by (prove_dead || exact A).
  rewrite (@replace_all_dead (avoids [ch "`"; ch "|"; ch ">"; ch "*"; nl]) re_quote _ src)
    by (prove_dead || exact A).
  change re_h3 with (Seq (Bol true) (seqs [lit "### "; Group 1 (star (Chr dot)); Eol true])).
  rewrite (Q (seqs [lit "### "; Group 1 (star (Chr dot)); Eol true]) _
             (ch "#") (tl (lead (lit "### "))) eq_refl) by (simpl; intuition discriminate).
  change re_h2 with (Seq (Bol true) (seqs [lit "## "; Group 1 (star (Chr dot)); Eol true])).
  rewrite (Q (seqs [lit "## "; Group 1 (star (Chr dot)); Eol true]) _
             (ch "#") (tl (lead (lit "## "))) eq_refl) by (simpl; intuition discriminate).
  change re_h1 with (Seq (Bol true) (seqs [lit "# "; Group 1 (star (Chr dot)); Eol true])).
  rewrite (Q (seqs [lit "# "; Group 1 (star (Chr dot)); Eol true]) _
             (ch "#") (tl (lead (lit "# "))) eq_refl) by (simpl; intuition discriminate).
  rewrite (@replace_all_dead (avoids [ch "`"; ch "|"; ch ">"; ch "*"; nl]) re_bold _ src)
    by (prove_dead || exact A).
  rewrite (@replace_all_dead (avoids [ch "`"; ch "|"; ch ">"; ch "*"; nl]) re_em _ src)
    by (prove_dead || exact A).
  change re_rule with (Seq (Bol true) (seqs [lit "---"; Eol true])).
  rewrite (Q (seqs [lit "---"; Eol true]) _ (ch "-") [one (ch "-"); one (ch "-")] eq_refl)
    by (simpl; intuition discriminate).
  change re_item with (Seq (Bol true) (seqs [lit "- "; Group 1 (star (Chr dot)); Eol true])).
  rewrite (Q (seqs [lit "- "; Group 1 (star (Chr dot)); Eol true]) _
             (ch "-") [one (ch " ")] eq_refl) by (simpl; intuition discriminate).
  rewrite N, L.
  destruct (@element_wrapped a (ch "a") ro (c :: t) (ch "a") (str ">") b Hx Hx
              (Hlt _ Ha) Hro (Hlt _ Tp) Hrc (Hlt _ Hb)) as [Hw W].
  fold out in Hw, W.
  rewrite inline_tail; [|unfold out; apply element_shaped; auto|exact Hw|exact O|exact W].
  f_equal. unfold out, ro, anchor. same_text.
Qed.

Lemma link_rendered_witness :
  formatMessage (str "see [the docs](https://example.com/a-b#c) now")
  = Some (html "<p>see <a href=@https://example.com/a-b#c@ target=@_blank@ rel=@noopener@>the docs</a> now</p>").
Proof.
  apply (@link_rendered (str "see ") (str "the docs") (str "https://example.com/a-b#c")
           (str " now")); reflexivity.
Defined.

Lemma save_writes_conversation_witness :
  messages (saveCurrentChat (store demo_view) (store demo_view))
    = messages (store demo_view) /\
  length (chats (saveCurrentChat (store demo_view) (store demo_view))) = 2.
Proof.
  destruct (@save_writes_conversation (store demo_view) (store demo_view) (str "c1"))
    as (A & B & _); [reflexivity|discriminate|discriminate|].
  split; [exact A|exact B].
Defined.

Lemma newChat_keeps_conversation_witness :
  length (chats (store (newChat demo_view demo_fresh_chat demo_view))) = 3 /\
  exists c', In c' (chats (store (newChat demo_view demo_fresh_chat demo_view))) /\
             Chat.id c' = str "c1" /\ length (Chat.messages c') = 2.
Proof.
  destruct (@newChat_keeps_conversation demo_view demo_fresh_chat (str "c1"))
    as (A & _ & _ & _ & _ & c' & Hin & Hid & Hm);
    [reflexivity|discriminate|discriminate| |].
  - exists (demo_chat "c1" "First"). split; [now left|reflexivity].
  - split; [exact A|]. exists c'. split; [exact Hin|]. split; [exact Hid|].
    now rewrite Hm.
Defined.

Lemma switch_and_back_witness :
  messages (store (switchChat demo_view (str "c2") demo_view)) = [] /\
  messages (store (switchChat (switchChat demo_view (str "c2") demo_view) (str "c1")
                              (switchChat demo_view (str "c2") demo_view)))
    = messages (store demo_view).
Proof.
  destruct (@switch_and_back demo_view (str "c1") (str "c2") (demo_chat "c2" "Second"))
    as (_ & A & _ & B); [reflexivity|discriminate|discriminate| |reflexivity|].
  - exists (demo_chat "c1" "First"). split; [now left|reflexivity].
  - split; [exact A|exact B].
Defined.

Lemma shortcut_new_chat_skips_save_witness :
  chats (store (handleKeyDown (first_render (str "gpt-4o-mini")) demo_fresh_chat
                              demo_key demo_view))
    = empty_chat demo_fresh_chat :: chats (store demo_view).
Proof.
  apply (proj1 (@shortcut_new_chat_skips_save (str "gpt-4o-mini") demo_fresh_chat
                  demo_key demo_view eq_refl eq_refl)).
Defined.

Lemma empty_query_shows_all_witness :
  filteredChats demo_lower demo_view = chats (store demo_view).
Proof.
  apply (proj1 (@empty_query_shows_all demo_lower demo_view eq_refl eq_refl)).
Defined.

Lemma read_loop_footprint_witness :
  fold_left (on_chunk demo_truthy demo_to_string demo_parse_object)
            [html "data: {@chunk@:{@toString@:0}}" ++ [nl]] (Some demo_answered) = None /\
  exists st' a',
    fold_left (on_chunk demo_truthy demo_to_string demo_parse) demo_chunks
              (Some demo_answered) = Some st' /\
    st' = setToolStatus (toolStatus st')
            (setMessages (fun _ =>
               [Message.Build (str "u0") user (str "A") (str "9:59 AM") None; a'])
               demo_answered) /\
    Message.id a' = str "a0".
Proof.
  split.
  - apply (proj1 (@read_loop_footprint N demo_truthy demo_to_string demo_parse_object
                    [html "data: {@chunk@:{@toString@:0}}" ++ [nl]] demo_answered
                    [Message.Build (str "u0") user (str "A") (str "9:59 AM") None]
                    (Message.Build (str "a0") assistant (str "B") (str "9:59 AM")
                                   (Some false))
                    eq_refl)).
    reflexivity.
  - destruct (@read_loop_footprint N demo_truthy demo_to_string demo_parse demo_chunks
                demo_answered
                [Message.Build (str "u0") user (str "A") (str "9:59 AM") None]
                (Message.Build (str "a0") assistant (str "B") (str "9:59 AM") (Some false))
                eq_refl) as [_ H].
    destruct (H eq_refl) as (st' & a' & A & B & _ & C & _).
    exists st', a'. split; [exact A|]. split; [exact B|exact C].
Defined.

Lemma rejected_submission_witness :
  sendMessage demo_truthy demo_to_string demo_parse
    (setInput (str "  ") demo_store) None demo_fresh (Body demo_chunks EndOfStream)
    demo_answered = Some (demo_answered, Resolved).
Proof.
  apply (@rejected_submission N demo_truthy demo_to_string demo_parse
           (setInput (str "  ") demo_store) None demo_fresh
           (Body demo_chunks EndOfStream) demo_answered).
  left. split; [reflexivity|]. split; [now left|reflexivity].
Defined.


Lemma send_names_chat_witness :
  exists st' c,
    sendMessage demo_truthy demo_to_string demo_parse demo_store None demo_fresh
                (Body demo_chunks EndOfStream) demo_store = Some (st', Resolved) /\
    chats st' = [c] /\ Chat.title c = str "hi" /\ currentChatId st' = Some (str "c1").
Proof.
  destruct (proj2 (@send_names_chat N demo_truthy demo_to_string demo_parse demo_store
                     None demo_fresh (Body demo_chunks EndOfStream) demo_store
                     eq_refl eq_refl)
              eq_refl)
    as (st' & A & B & _).
  destruct (B eq_refl) as (c & C1 & C2 & C3 & _ & _ & _ & C4 & _).
  exists st', c. split; [exact A|]. split; [exact C1|]. split.
  - apply C4. discriminate.
  - rewrite C2, C3. reflexivity.
Defined.

Lemma retry_discards_later_witness :
  exists st1 st2,
    retryMessage demo_answered 1 demo_answered = (st1, Some (str "A")) /\
    retry_fires demo_truthy demo_to_string demo_parse demo_answered (str "A")
                demo_fresh NotOk st1 = Some (st2, Resolved) /\
    length (messages st2) = 2.
Proof.
  destruct (@retry_discards_later N demo_truthy demo_to_string demo_parse demo_answered []
              (Message.Build (str "u0") user (str "A") (str "9:59 AM") None)
              [Message.Build (str "a0") assistant (str "B") (str "9:59 AM") (Some false)]
              demo_fresh NotOk eq_refl eq_refl)
    as (st1 & A & _ & _ & H); [discriminate|reflexivity|].
  destruct (H eq_refl) as (st2 & B & C & _).
  exists st1, st2. split; [exact A|]. split; [exact B|]. now rewrite C.
Defined.

Lemma formatMessage_total_witness :
  exists out, formatMessage (lines ["```js"; "a < b"; "```"]%string) = Some out.
Proof.
  apply (@formatMessage_total (lines ["```js"; "a < b"; "```"]%string)). reflexivity.
Defined.

Lemma fence_rendered_witness :
  formatMessage (lines ["```js"; "a < b"; "```"]%string)
  = Some (str "<p>" ++ code_block (str "js") (str "a%20%3C%20b") (str "a < b" ++ [nl])
          ++ str "</p>").
Proof.
  apply (@fence_rendered (str "js") (str "a < b" ++ [nl]) (str "a%20%3C%20b"));
    reflexivity.
Defined.

